(** * Monitor Roblox: presence sampling and session reconciliation

    A shallow embedding of the engine of [script.js] (the page) and of the
    save path of [sw.js] (the service worker), and the properties of the
    specification that were checked against it.

    Conventions of the embedding:
    - timestamps are the integers returned by [Date.now()] (milliseconds),
      modelled in [Z];
    - a value of type [string | null] is an [option string]; the JavaScript
      truthiness tests of the source ([x || null], [!x], [x ? a : b]) are
      written out with [truthy_str] and [truthy_num];
    - an [async] function is a computation over the [World] (the runtime
      [state] object, the two IndexedDB stores, [localStorage], the wall
      clock and the network); a rejected promise keeps every mutation made
      before the rejection, as in JavaScript;
    - the fields [date] and [createdAt] of the stored records and the
      autoincremented [id] are never read by the engine and are left out;
      [addLog] and the rendering calls only touch the DOM and are left out. *)

From Stdlib Require Import ZArith Lia Sorted Ascii.
From stdpp Require Import gmap strings list pretty sorting.

Local Open Scope string_scope.
Local Open Scope Z_scope.
Local Open Scope list_scope.

(** ** JavaScript truthiness *)

(** [g] is truthy: neither [null] nor the empty string. *)
Definition truthy_str (g : option string) : bool :=
  match g with
  | Some s => negb (String.eqb s "")
  | None => false
  end.

(** [g || null] *)
Definition or_null (g : option string) : option string :=
  if truthy_str g then g else None.

(** [a || b || null] *)
Definition or_else (a b : option string) : option string :=
  if truthy_str a then a else or_null b.

(** The number [t] when it is truthy: neither [null] nor [0]. *)
Definition truthy_num (t : option Z) : option Z :=
  match t with
  | Some z => if z =? 0 then None else Some z
  | None => None
  end.

(** [a !== b] on values of type [string | null] *)
Definition strict_ne (a b : option string) : bool :=
  negb (bool_decide (a = b)).

(** ** Data model *)

(** The result of a presence lookup, as read by the engine:
    [res.online] and [res.gameName]. *)
Module Sample.
Record t := mk { online : bool; gameName : option string }.
End Sample.

(** A record of the [events] store. *)
Module Event.
Record t := mk {
  username : string;
  online : bool;
  gameName : option string;
  timestamp : Z;
  heartbeat : bool
}.
End Event.

(** A record of the [sessions] store. *)
Module Session.
Record t := mk {
  username : string;
  startTs : Z;
  endTs : Z;
  durationSec : Z;
  gameName : option string
}.
End Session.

(** [state.lastKnownStatus] when it is not [null]. *)
Module Status.
Record t := mk { online : bool; gameName : option string; ts : Z }.
End Status.

(** The runtime [state] object (the fields the engine uses). *)
Record State := mkState {
  username : string;
  useSimulator : bool;
  lastKnownStatus : option Status.t;
  currentSessionStart : option Z
}.

(** What the remote presence service answered to one lookup. *)
Inductive ApiReply :=
| FetchError (reason : string)
| NoUserId
| NoPresence
| Presence (userPresenceType rootPlaceId universeId gameId : option Z).

(** Everything a handler of the page can read or change. [faults] tells
    which of the next IndexedDB requests are rejected: each entry is the
    number of requests the store accepts before it rejects one, and no
    request is rejected once the list is exhausted. [network] is what the
    next real lookups will answer and [consulted] counts the lookups made
    so far. *)
Record World := mkWorld {
  state : State;
  events : list Event.t;
  sessions : list Session.t;
  faults : list nat;
  localStorage : gmap string string;
  clock : Z;
  network : list ApiReply;
  consulted : nat
}.

Definition with_state (s : State) (w : World) : World :=
  mkWorld s (events w) (sessions w) (faults w) (localStorage w) (clock w)
          (network w) (consulted w).
Definition with_events (l : list Event.t) (w : World) : World :=
  mkWorld (state w) l (sessions w) (faults w) (localStorage w) (clock w)
          (network w) (consulted w).
Definition with_sessions (l : list Session.t) (w : World) : World :=
  mkWorld (state w) (events w) l (faults w) (localStorage w) (clock w)
          (network w) (consulted w).
Definition with_faults (l : list nat) (w : World) : World :=
  mkWorld (state w) (events w) (sessions w) l (localStorage w) (clock w)
          (network w) (consulted w).
Definition with_localStorage (m : gmap string string) (w : World) : World :=
  mkWorld (state w) (events w) (sessions w) (faults w) m (clock w)
          (network w) (consulted w).
Definition with_clock (t : Z) (w : World) : World :=
  mkWorld (state w) (events w) (sessions w) (faults w) (localStorage w) t
          (network w) (consulted w).
Definition with_network (l : list ApiReply) (n : nat) (w : World) : World :=
  mkWorld (state w) (events w) (sessions w) (faults w) (localStorage w)
          (clock w) l n.

(** ** Asynchronous computations *)

Inductive outcome (A : Type) :=
| Resolved (a : A)
| Rejected (reason : string).
Arguments Resolved {A} a.
Arguments Rejected {A} reason.

Definition Async (A : Type) : Type := World -> outcome A * World.

Definition resolve {A} (a : A) : Async A := fun w => (Resolved a, w).

Definition throw {A} (reason : string) : Async A :=
  fun w => (Rejected reason, w).

(** [await m] followed by [k]: a rejection of [m] skips [k]. *)
Definition bind {A B} (m : Async A) (k : A -> Async B) : Async B :=
  fun w =>
    match m w with
    | (Resolved a, w') => k a w'
    | (Rejected r, w') => (Rejected r, w')
    end.

(** [try { m } catch (err) { }] *)
Definition try_catch (m : Async unit) : Async unit :=
  fun w =>
    match m w with
    | (Resolved a, w') => (Resolved a, w')
    | (Rejected _, w') => (Resolved tt, w')
    end.

Notation "'await' x ':=' m 'in' k" := (bind m (fun x => k))
  (at level 10, x name, m at level 200, k at level 200,
   format "'[v' 'await'  x  :=  m  'in' '/' k ']'").

Definition get_state : Async State := fun w => (Resolved (state w), w).

Definition set_currentSessionStart (v : option Z) : Async unit :=
  fun w =>
    let s := state w in
    (Resolved tt,
     with_state (mkState (username s) (useSimulator s) (lastKnownStatus s) v) w).

Definition set_lastKnownStatus (v : option Status.t) : Async unit :=
  fun w =>
    let s := state w in
    (Resolved tt,
     with_state (mkState (username s) (useSimulator s) v (currentSessionStart s)) w).

Definition set_useSimulator (b : bool) : Async unit :=
  fun w =>
    let s := state w in
    (Resolved tt,
     with_state (mkState (username s) b (lastKnownStatus s) (currentSessionStart s)) w).

Definition set_username (u : string) : Async unit :=
  fun w =>
    let s := state w in
    (Resolved tt,
     with_state (mkState u (useSimulator s) (lastKnownStatus s) (currentSessionStart s)) w).

(** ** The IndexedDB helpers *)

(** One request to the database: rejected when its turn to fail has come. *)
Definition request {A} (run : World -> A * World) : Async A :=
  fun w =>
    match faults w with
    | O :: fs => (Rejected "store", with_faults fs w)
    | S n :: fs =>
        let (a, w') := run (with_faults (n :: fs) w) in (Resolved a, w')
    | [] => let (a, w') := run w in (Resolved a, w')
    end.

(** [dbAdd(CONFIG.eventsStore, ev)] *)
Definition dbAdd_events (ev : Event.t) : Async unit :=
  request (fun w => (tt, with_events (events w ++ [ev]) w)).

(** [dbAdd(CONFIG.sessionsStore, session)] *)
Definition dbAdd_sessions (s : Session.t) : Async unit :=
  request (fun w => (tt, with_sessions (sessions w ++ [s]) w)).

(** [dbGetAll(CONFIG.eventsStore)]: the records in key order, that is in the
    order of insertion. *)
Definition dbGetAll_events : Async (list Event.t) :=
  request (fun w => (events w, w)).

(** [dbClear] of both stores. *)
Definition dbClear_events : Async unit :=
  request (fun w => (tt, with_events [] w)).
Definition dbClear_sessions : Async unit :=
  request (fun w => (tt, with_sessions [] w)).

(** ** Recording events and sessions *)

(** [Math.max(0, Math.floor((end - start) / 1000))] *)
Definition duration_of (start end_ : Z) : Z :=
  Z.max 0 ((end_ - start) / 1000).

Definition addStatusEvent (username : string) (online : bool)
    (gameName : option string) (ts : Z) : Async unit :=
  let ev := Event.mk username online (or_null gameName) ts false in
  await _ := dbAdd_events ev in
  await st := get_state in
  if online then
    match truthy_num (currentSessionStart st) with
    | None =>
        await _ := set_currentSessionStart (Some ts) in
        set_lastKnownStatus (Some (Status.mk online gameName ts))
    | Some _ =>
        set_lastKnownStatus (Some (Status.mk online gameName ts))
    end
  else
    match truthy_num (currentSessionStart st) with
    | Some start =>
        let end_ := ts in
        let durationSec := duration_of start end_ in
        let session :=
          Session.mk username start end_ durationSec
            (match lastKnownStatus st with
             | Some lk =>
                 if truthy_str (Status.gameName lk)
                 then Status.gameName lk
                 else or_null gameName
             | None => or_null gameName
             end) in
        await _ := dbAdd_sessions session in
        await _ := set_currentSessionStart None in
        set_lastKnownStatus (Some (Status.mk online gameName ts))
    | None =>
        set_lastKnownStatus (Some (Status.mk online gameName ts))
    end.

(** ** Reading the last event of the monitored user *)

(** [arr.sort((a,b) => a.timestamp - b.timestamp)]: the sort of an array is
    stable, equal timestamps keep their order of insertion. *)
Fixpoint insert_by_timestamp (e : Event.t) (l : list Event.t) : list Event.t :=
  match l with
  | [] => [e]
  | x :: l' =>
      if Event.timestamp e <=? Event.timestamp x
      then e :: l
      else x :: insert_by_timestamp e l'
  end.

Definition sort_by_timestamp (l : list Event.t) : list Event.t :=
  foldr insert_by_timestamp [] l.

(** [all.filter(e => e.username === state.username).sort(...)] *)
Definition forUser (u : string) (all : list Event.t) : list Event.t :=
  sort_by_timestamp (filter (fun e => Event.username e = u) all).

(** [forUser.length ? forUser[forUser.length - 1] : null] *)
Definition lastEvent (u : string) (all : list Event.t) : option Event.t :=
  last (forUser u all).

Definition repairStateFromDB : Async unit :=
  await all := dbGetAll_events in
  await st := get_state in
  match lastEvent (username st) all with
  | None => resolve tt
  | Some lastEv =>
      if Event.online lastEv then
        await _ := set_currentSessionStart (Some (Event.timestamp lastEv)) in
        set_lastKnownStatus
          (Some (Status.mk true (Event.gameName lastEv) (Event.timestamp lastEv)))
      else
        await _ := set_currentSessionStart None in
        set_lastKnownStatus
          (Some (Status.mk false None (Event.timestamp lastEv)))
  end.

(** Gap repair, run when the page is reopened or becomes visible again. *)
Definition onReopenFillGap (currentStatus : Sample.t) (nowTs : Z) : Async unit :=
  try_catch (
    await all := dbGetAll_events in
    await st := get_state in
    match lastEvent (username st) all with
    | None =>
        addStatusEvent (username st) (Sample.online currentStatus)
          (Sample.gameName currentStatus) nowTs
    | Some lastEv =>
        await _ :=
          (if Event.online lastEv && negb (Sample.online currentStatus) then
             let start := Event.timestamp lastEv in
             let end_ := nowTs in
             let durationSec := duration_of start end_ in
             let session :=
               Session.mk (username st) start end_ durationSec
                 (or_else (Event.gameName lastEv) (Sample.gameName currentStatus)) in
             await _ := dbAdd_sessions session in
             dbAdd_events
               (Event.mk (username st) false
                  (or_null (Sample.gameName currentStatus)) nowTs false)
           else
             dbAdd_events
               (Event.mk (username st) (Sample.online currentStatus)
                  (or_null (Sample.gameName currentStatus)) nowTs false)) in
        repairStateFromDB
    end).

(** ** The polling step *)

(** The effect of [updateUILive] on the runtime state: when the user is
    online and no session start is set, it is taken from the last known
    status ([Date.now()] when there is none). *)
Definition updateUILive (online : bool) (game : option string) : Async unit :=
  await st := get_state in
  if online then
    match truthy_num (currentSessionStart st) with
    | None =>
        match lastKnownStatus st with
        | Some lk => set_currentSessionStart (Some (Status.ts lk))
        | None => fun w => set_currentSessionStart (Some (clock w)) w
        end
    | Some _ => resolve tt
    end
  else resolve tt.

(** The heartbeat period: [30 * 60 * 1000] milliseconds. *)
Definition heartbeatMs : Z := 30 * 60 * 1000.

Definition onStatusResult (res : Sample.t) (ts : Z) : Async unit :=
  let online := Sample.online res in
  let game := or_null (Sample.gameName res) in
  await st := get_state in
  await _ :=
    (match lastKnownStatus st with
     | None => addStatusEvent (username st) online game ts
     | Some lk =>
         let lastOnline := Status.online lk in
         if negb (Bool.eqb lastOnline online)
            || (online && strict_ne (Status.gameName lk) game)
         then addStatusEvent (username st) online game ts
         else
           (* [lastKnownStatus.ts || 0] is [lastKnownStatus.ts] itself *)
           let lastTs := Status.ts lk in
           if heartbeatMs <? ts - lastTs then
             await _ :=
               dbAdd_events (Event.mk (username st) online game ts true) in
             await st' := get_state in
             match lastKnownStatus st' with
             | Some lk' =>
                 set_lastKnownStatus
                   (Some (Status.mk (Status.online lk') (Status.gameName lk') ts))
             | None => throw "TypeError"
             end
           else resolve tt
     end) in
  await _ := set_lastKnownStatus (Some (Status.mk online game ts)) in
  updateUILive online game.

(** ** The save path of the service worker ([sw.js]) *)

(** The worker has no access to the runtime state of the page: on every
    offline result it writes an approximate session of five minutes. *)
Definition workerSaveEvent (username : string) (res : Sample.t) (ts : Z)
    : Async unit :=
  let ev :=
    Event.mk username (Sample.online res) (or_null (Sample.gameName res)) ts false in
  try_catch (
    await _ := dbAdd_events ev in
    if negb (Sample.online res) then
      let approxStart := ts - 5 * 60 * 1000 in
      let session :=
        Session.mk username approxStart ts ((ts - approxStart) / 1000)
          (or_null (Sample.gameName res)) in
      dbAdd_sessions session
    else resolve tt).

(** ** The sample source *)

(** What [fetchRobloxStatus] and [simulateStatus] resolve to:
    [{ ok:true, online, gameName }] or [{ ok:false, reason, fallback }]. *)
Inductive FetchResult :=
| Ok (sample : Sample.t)
| NotOk (reason : string) (fallback : bool).

(** [res.online] and [res.gameName] of a result; both are [undefined] on a
    result that is not ok. *)
Definition sample_of (res : FetchResult) : Sample.t :=
  match res with
  | Ok s => s
  | NotOk _ _ => Sample.mk false None
  end.

Definition Date_now : Async Z := fun w => (Resolved (clock w), w).

Definition localStorage_setItem (k v : string) : Async unit :=
  fun w => (Resolved tt, with_localStorage (<[k:=v]> (localStorage w)) w).

(** The floating-point operations the simulator uses. They are kept
    abstract: the simulator is the same composition of them whatever the
    host's [Math.sin] returns. [Math_floor] is [None] on [NaN] and on the
    infinities. *)
Class JSNumber := {
  float : Type;
  Math_sin : Z -> float;
  Math_abs : float -> float;
  float_rem : float -> Z -> float;
  float_mul : float -> Z -> float;
  float_gt : float -> float -> bool;
  float_0_4 : float;
  Math_floor : float -> option Z
}.

(** The catalogue of the simulator. *)
Definition games : list string :=
  ["Jogo A"; "Jogo B"; "City Adventure"; "Tycoon X"; "Obby Fun"].

(** [[...username].reduce((s,c) => s + c.charCodeAt(0), 0)], on user names
    made of ASCII characters (the names of the service are); the sum and
    the seed are integers, exact as numbers of JavaScript. *)
Definition charCodeSum (username : string) : Z :=
  foldl (fun s c => s + Z.of_nat (Ascii.nat_of_ascii c)) 0
        (String.list_ascii_of_string username).

(** [arr[i]] for a number [i]: [undefined] out of range. *)
Definition index {A} (arr : list A) (i : option Z) : option A :=
  match i with
  | Some z => if z <? 0 then None else arr !! Z.to_nat z
  | None => None
  end.

Section Simulator.
Context `{JSNumber}.

(** The body of [simulateStatus] once [Date.now()] has been read. *)
Definition simulate (now : Z) (username : string) : Sample.t :=
  let minute := now / 60000 in
  let seed := charCodeSum username + minute in
  let rnd := float_rem (Math_abs (Math_sin seed)) 1 in
  let online := float_gt rnd float_0_4 in
  let gameName :=
    if online
    then index games
           (Math_floor (float_rem (float_mul rnd 1000) (Z.of_nat (length games))))
    else None in
  Sample.mk online gameName.

Definition simulateStatus (username : string) : Async FetchResult :=
  await now := Date_now in
  resolve (Ok (simulate now username)).

(** One lookup of the real presence service. *)
Definition real_lookup : Async ApiReply :=
  fun w =>
    match network w with
    | r :: rs => (Resolved r, with_network rs (S (consulted w)) w)
    | [] => (Resolved (FetchError "Failed to fetch"),
             with_network [] (S (consulted w)) w)
    end.

Definition fetchRobloxStatus (username : string) : Async FetchResult :=
  if String.eqb username "" then throw "username vazio" else
  await st := get_state in
  if useSimulator st then simulateStatus username else
  await reply := real_lookup in
  match reply with
  | FetchError reason => resolve (NotOk reason true)
  | NoUserId => resolve (NotOk "username not found" true)
  | NoPresence => resolve (Ok (Sample.mk false None))
  | Presence userPresenceType rootPlaceId universeId gameId =>
      let gameName :=
        match truthy_num rootPlaceId, truthy_num universeId, truthy_num gameId with
        | Some p, _, _ => Some ("Jogo (place " +:+ pretty p +:+ ")")
        | None, Some u, _ => Some ("Jogo (universe " +:+ pretty u +:+ ")")
        | None, None, Some g => Some ("Jogo (id " +:+ pretty g +:+ ")")
        | None, None, None => None
        end in
      let online := match truthy_num userPresenceType with Some _ => true | None => false end in
      resolve (Ok (Sample.mk online gameName))
  end.

(** ** The polling loop and the handlers of the page *)

Definition checkAndRecord : Async unit :=
  await st := get_state in
  if String.eqb (username st) "" then resolve tt else
  await ts := Date_now in
  await res := fetchRobloxStatus (username st) in
  match res with
  | NotOk _ true =>
      await _ := set_useSimulator true in
      await _ := localStorage_setItem "rb_use_sim" "true" in
      await sim := simulateStatus (username st) in
      onStatusResult (sample_of sim) ts
  | NotOk _ false => resolve tt
  | Ok sample => onStatusResult sample ts
  end.

(** [checkAndRecord().catch(err => console.error(err))]: what
    [startPolling] runs at once and then at every tick of its timer. *)
Definition pollOnce : Async unit := try_catch checkAndRecord.

(** [state.useSimulator ? await simulateStatus(u) : await fetchRobloxStatus(u)] *)
Definition currentStatus (u : string) : Async FetchResult :=
  await st := get_state in
  if useSimulator st then simulateStatus u else fetchRobloxStatus u.

(** The [visibilitychange] listener when the tab becomes visible. *)
Definition onVisible : Async unit :=
  await _ :=
    try_catch (
      await st := get_state in
      await res := currentStatus (username st) in
      await ts := Date_now in
      match res with
      | NotOk _ _ => resolve tt
      | Ok sample => onReopenFillGap sample ts
      end) in
  pollOnce.

(** [setUsername(username)], on a name already trimmed. *)
Definition setUsername (u : string) : Async unit :=
  if String.eqb u "" then resolve tt else
  await _ := set_username u in
  await _ := localStorage_setItem "rb_username" u in
  await _ := repairStateFromDB in
  await _ :=
    try_catch (
      await res := currentStatus u in
      match res with
      | NotOk _ _ => resolve tt
      | Ok sample =>
          await now := Date_now in
          onReopenFillGap sample now
      end) in
  pollOnce.

(** The reset button, once confirmed. *)
Definition resetHistory : Async unit :=
  await _ := dbClear_events in
  await _ := dbClear_sessions in
  await _ := set_currentSessionStart None in
  set_lastKnownStatus None.

(** The [change] listener of the simulator checkbox. *)
Definition onUseSimChange (checked : bool) : Async unit :=
  await _ := set_useSimulator checked in
  localStorage_setItem "rb_use_sim" (if checked then "true" else "false").

(** The page is loaded again: the runtime state is built anew from
    [localStorage], and the [load] listener calls [setUsername] when a user
    name was saved. *)
Definition pageLoad : Async unit :=
  fun w =>
    let ls := localStorage w in
    let name := default "" (ls !! "rb_username") in
    let st :=
      mkState name (bool_decide (ls !! "rb_use_sim" = Some "true")) None None in
    (if String.eqb name "" then resolve tt else setUsername name)
      (with_state st w).

(** What can happen to the page: the wall clock advances, the polling
    timer fires, the tab is shown, the page is loaded again, the user
    acts. *)
Inductive handler :=
| Tick (now : Z)
| TimerFired
| Visible
| PageLoad
| SetUsername (u : string)
| ResetHistory
| UseSimChanged (checked : bool).

Definition handle (h : handler) : Async unit :=
  match h with
  | Tick now => fun w => (Resolved tt, with_clock now w)
  | TimerFired => pollOnce
  | Visible => onVisible
  | PageLoad => try_catch pageLoad
  | SetUsername u => try_catch (setUsername u)
  | ResetHistory => try_catch resetHistory
  | UseSimChanged checked => onUseSimChange checked
  end.

Definition dispatch (hs : list handler) (w : World) : World :=
  foldl (fun w h => snd (handle h w)) w hs.

End Simulator.

(** ** Vocabulary of the statements *)

(** The world after running [m]. *)
Definition exec {A} (m : Async A) (w : World) : World := snd (m w).

(** The page as it is loaded for user [u] on an empty database. *)
Definition fresh (u : string) : World :=
  mkWorld (mkState u false None None) [] [] [] ∅ 0 [] 0.

(** The store accepts every request. *)
Definition store_ok (w : World) : Prop := faults w = [].

(** The store accepts the next request. *)
Definition accepts_next (w : World) : Prop := head (faults w) <> Some O.

(** The activity of a sample as the engine reads it: [res.gameName || null]. *)
Definition activity (res : Sample.t) : option string :=
  or_null (Sample.gameName res).

(** A label is [null] or a non-empty string. *)
Definition label_ok (g : option string) : Prop := g <> Some "".

(** The sample differs from the last known status: the online flag
    differs, or both are online and the activity differs. *)
Definition changed (lk : Status.t) (res : Sample.t) : Prop :=
  Status.online lk <> Sample.online res
  \/ (Status.online lk = true /\ Sample.online res = true
      /\ Status.gameName lk <> activity res).

(** More than thirty minutes have passed since the last known status. *)
Definition overdue (lk : Status.t) (ts : Z) : Prop :=
  ts - Status.ts lk > 30 * 60 * 1000.

(** There is a state to record: no last known status, or one from which
    the sample differs. *)
Definition state_event (st : State) (res : Sample.t) : Prop :=
  match lastKnownStatus st with
  | None => True
  | Some lk => changed lk res
  end.

(** A heartbeat is due: the state is unchanged for more than thirty
    minutes. *)
Definition heartbeat_due (st : State) (res : Sample.t) (ts : Z) : Prop :=
  match lastKnownStatus st with
  | None => False
  | Some lk => ~ changed lk res /\ overdue lk ts
  end.

(** The rule that decides whether an ingest persists an event. *)
Definition must_persist (st : State) (res : Sample.t) (ts : Z) : Prop :=
  state_event st res \/ heartbeat_due st res ts.

(** A session start is set whenever the last known status is online. *)
Definition marker_set (st : State) : Prop :=
  forall lk, lastKnownStatus st = Some lk -> Status.online lk = true ->
    is_Some (truthy_num (currentSessionStart st)).

(** The event written for sample [res] at [ts]. *)
Definition event_of (u : string) (res : Sample.t) (ts : Z) (hb : bool) : Event.t :=
  Event.mk u (Sample.online res) (activity res) ts hb.

(** Two sessions of the same identity whose intervals
    [[startTs, endTs)] have an instant in common. *)
Definition overlap (a b : Session.t) : Prop :=
  Session.username a = Session.username b
  /\ Z.max (Session.startTs a) (Session.startTs b)
     < Z.min (Session.endTs a) (Session.endTs b).

(** No two records of the session table overlap. *)
Definition no_overlap (l : list Session.t) : Prop :=
  forall i j a b, i <> j -> l !! i = Some a -> l !! j = Some b -> ~ overlap a b.



(** The steps of the engine: a poll that ingests a sample, a gap repair,
    a reload of the page (the volatile state is lost and rebuilt from the
    event log), a check made by the service worker. *)
Inductive step :=
| Ingest (res : Sample.t) (ts : Z)
| Repair (res : Sample.t) (ts : Z)
| Reload
| WorkerCheck (res : Sample.t) (ts : Z).

Definition step_run (s : step) : Async unit :=
  match s with
  | Ingest res ts => onStatusResult res ts
  | Repair res ts => onReopenFillGap res ts
  | Reload =>
      await _ := set_currentSessionStart None in
      await _ := set_lastKnownStatus None in
      repairStateFromDB
  | WorkerCheck res ts =>
      await st := get_state in
      workerSaveEvent (username st) res ts
  end.

Definition run_steps (l : list step) (w : World) : World :=
  foldl (fun w s => exec (step_run s) w) w l.

Definition step_time (s : step) : option Z :=
  match s with
  | Ingest _ ts | Repair _ ts | WorkerCheck _ ts => Some ts
  | Reload => None
  end.

(** The timestamps of the steps, in the order of the steps. *)
Definition times (l : list step) : list Z := omap step_time l.

Definition on_page (s : step) : Prop :=
  match s with
  | WorkerCheck _ _ => False
  | _ => True
  end.

(** [CONFIG.pollIntervalMs] *)
Definition pollIntervalMs : Z := 60 * 1000.

(** [n] polls that ingest the same sample, one per poll interval after [t]. *)
Fixpoint polls (res : Sample.t) (t : Z) (n : nat) (w : World) : World :=
  match n with
  | O => w
  | S n' =>
      polls res (t + pollIntervalMs) n'
        (exec (onStatusResult res (t + pollIntervalMs)) w)
  end.

(** The replies of the presence service on which [fetchRobloxStatus]
    asks for the fallback. *)
Definition fallback_reply (r : ApiReply) : Prop :=
  match r with
  | FetchError _ | NoUserId => True
  | NoPresence | Presence _ _ _ _ => False
  end.

(** What the next real lookup will answer. *)
Definition next_reply (w : World) : ApiReply :=
  match network w with
  | r :: _ => r
  | [] => FetchError "Failed to fetch"
  end.

(** A number model with three decimals in fixed point, to run the
    simulator on concrete inputs: [x] stands for [x / 1000] and the sine
    is replaced by a sawtooth. *)
Definition fixedPoint : JSNumber := {|
  float := Z;
  Math_sin := fun seed => (seed * 389) mod 2000 - 1000;
  Math_abs := Z.abs;
  float_rem := fun x n => Z.rem x (n * 1000);
  float_mul := fun x n => x * n;
  float_gt := Z.gtb;
  float_0_4 := 400;
  Math_floor := fun x => Some (x / 1000)
|}.

(** No event of the list is later than its last one. *)
Definition last_is_latest (l : list Event.t) : Prop :=
  forall e, last l = Some e ->
    forall x, x ∈ l -> Event.timestamp x <= Event.timestamp e.

(** ** The invariant of the session table

    Every session of user [u] ends at or before [t], before the session
    start when one is set, and before the last event of the user; no event
    of the user and no session start is later than [t]; no session ends
    before it starts. *)
Definition sessions_before (u : string) (t : Z) (ss : list Session.t) : Prop :=
  forall s, s ∈ ss -> Session.username s = u -> Session.endTs s <= t.

Definition events_before (u : string) (t : Z) (evs : list Event.t) : Prop :=
  forall e, e ∈ evs -> Event.username e = u -> Event.timestamp e <= t.

Definition marker_before (u : string) (css : option Z) (ss : list Session.t) : Prop :=
  forall c, truthy_num css = Some c -> sessions_before u c ss.

Definition last_before (u : string) (evs : list Event.t) (ss : list Session.t) : Prop :=
  forall e, lastEvent u evs = Some e -> sessions_before u (Event.timestamp e) ss.

Definition marker_le (t : Z) (css : option Z) : Prop :=
  forall c, truthy_num css = Some c -> c <= t.

(** The session does not end before it starts, and its duration is the
    floor of its span in seconds. *)
Definition session_ordered (s : Session.t) : Prop :=
  Session.startTs s <= Session.endTs s
  /\ Session.durationSec s = (Session.endTs s - Session.startTs s) / 1000.

Definition good (u : string) (t : Z) (css : option Z) (evs : list Event.t)
    (ss : list Session.t) : Prop :=
  no_overlap ss /\ sessions_before u t ss /\ events_before u t evs
  /\ marker_before u css ss /\ last_before u evs ss
  /\ marker_le t css /\ Forall session_ordered ss.

Definition engine_inv (u : string) (t : Z) (w : World) : Prop :=
  store_ok w /\ username (state w) = u
  /\ good u t (currentSessionStart (state w)) (events w) (sessions w).

(** Whatever the world, [m] only appends to the store [field], and every
    record it appends satisfies [P]. *)
Definition grows {R A} (field : World -> list R) (P : R -> Prop)
    (m : Async A) : Prop :=
  forall w, exists l, field (exec m w) = field w ++ l /\ Forall P l.

(** [m] writes sessions that satisfy [P]; [m] records events that do. *)
Abbreviation writes := (grows sessions).
Abbreviation records := (grows events).

(** The invariant of the runs of the page: the one of the session table,
    a session start whenever the last known status is online, and no
    event at instant [0]. *)
Definition page_inv (u : string) (t : Z) (w : World) : Prop :=
  engine_inv u t w
  /\ marker_set (state w)
  /\ Forall (fun e => Event.timestamp e <> 0) (events w).


(** The flag is set in the runtime state and in [localStorage]. *)
Definition sim_on (w : World) : Prop :=
  useSimulator (state w) = true
  /\ localStorage w !! "rb_use_sim" = Some "true".

(** Once the flag is set, [m] leaves it set and makes no real lookup. *)
Definition keeps_sim {A} (m : Async A) : Prop :=
  forall w, sim_on w ->
    sim_on (exec m w) /\ consulted (exec m w) = consulted w.

Definition no_toggle (h : handler) : Prop :=
  match h with
  | UseSimChanged _ => False
  | _ => True
  end.

(** ** Vocabulary of the further properties *)

(** Whatever the world, [m] only appends to the store [field], and at most
    [n] records. *)
Definition appends {R A} (field : World -> list R) (n : nat) (m : Async A) : Prop :=
  forall w, exists l, field (exec m w) = field w ++ l /\ (length l <= n)%nat.

(** The world with the volatile part of the runtime state replaced: the
    last known status and the session start. *)
Definition with_runtime (lk : option Status.t) (css : option Z) (w : World) : World :=
  with_state (mkState (username (state w)) (useSimulator (state w)) lk css) w.

(** A session is open: the session start is neither [null] nor [0]. *)
Definition session_open (st : State) : Prop :=
  is_Some (truthy_num (currentSessionStart st)).

(** The last known status is online. *)
Definition known_online (st : State) : Prop :=
  exists lk, lastKnownStatus st = Some lk /\ Status.online lk = true.

(** The session marker and the last known status agree, and no event was
    recorded at instant [0]. *)
Definition marker_agrees (w : World) : Prop :=
  (session_open (state w) <-> known_online (state w))
  /\ Forall (fun e => Event.timestamp e <> 0) (events w).

(** [m] keeps the invariant [I] of the world, whether it resolves or is
    rejected. *)
Definition preserves {A} (I : World -> Prop) (m : Async A) : Prop :=
  forall w, I w -> I (exec m w).

(** While the page monitors [u], [m] keeps monitoring [u] and only appends
    events that satisfy [P] to the event store. *)
Definition logs (u : string) (P : Event.t -> Prop) {A} (m : Async A) : Prop :=
  forall w, username (state w) = u ->
    username (state (exec m w)) = u
    /\ exists l, events (exec m w) = events w ++ l /\ Forall P l.


(** The invariant of the event log of user [u] at instant [t]: the page
    monitors [u], every event is one of [u] and not later than [t], and
    the events are stored in the order of their timestamps. *)
Definition log_inv (u : string) (t : Z) (w : World) : Prop :=
  username (state w) = u
  /\ Forall (fun e => Event.username e = u /\ Event.timestamp e <= t) (events w)
  /\ StronglySorted Z.le (Event.timestamp <$> events w).

(** ** The checks of the service worker ([sw.js]) *)

(** The catalogue of the worker's simulator. *)
Definition workerGames : list string :=
  ["Jogo A"; "Jogo B"; "TycoonX"; "Obby"].

(** The worker's simulator compares with [0.45]. *)
Class WorkerNumber `{JSNumber} := {
  float_0_45 : float
}.

(** [s.split(sep)] for a separator of one character. *)
Fixpoint split_on (sep : Ascii.ascii) (s : string) : list string :=
  match s with
  | EmptyString => [EmptyString]
  | String c s' =>
      if Ascii.eqb c sep then EmptyString :: split_on sep s'
      else match split_on sep s' with
           | p :: ps => String c p :: ps
           | [] => [String c EmptyString]
           end
  end.

Section Worker.
Context `{WorkerNumber}.

(** The body of [simulateStatusWorker] once [Date.now()] has been read. *)
Definition simulateWorker (now : Z) (username : string) : Sample.t :=
  let minute := now / 60000 in
  let seed := charCodeSum username + minute in
  let rnd := float_rem (Math_abs (Math_sin seed)) 1 in
  let online := float_gt rnd float_0_45 in
  let gameName :=
    if online
    then index workerGames
           (Math_floor (float_rem (float_mul rnd 1000)
                          (Z.of_nat (length workerGames))))
    else None in
  Sample.mk online gameName.

Definition simulateStatusWorker (username : string) : Async FetchResult :=
  await now := Date_now in
  resolve (Ok (simulateWorker now username)).

(** The worker's lookup reads [rootPlaceId] alone; its [online] is truthy
    exactly when [userPresenceType] is. It has no guard on the user name
    and no simulator switch. The reply is the one the world holds for the
    next lookup; the wording of a failure differs from the page's and is
    read by no caller. *)
Definition fetchRobloxStatusWorker (username : string) : Async FetchResult :=
  await reply := real_lookup in
  match reply with
  | FetchError reason => resolve (NotOk reason true)
  | NoUserId => resolve (NotOk "username not found" true)
  | NoPresence => resolve (Ok (Sample.mk false None))
  | Presence userPresenceType rootPlaceId _ _ =>
      let gameName :=
        match truthy_num rootPlaceId with
        | Some p => Some ("Jogo (place " +:+ pretty p +:+ ")")
        | None => None
        end in
      let online :=
        match truthy_num userPresenceType with Some _ => true | None => false end in
      resolve (Ok (Sample.mk online gameName))
  end.

(** [if (!res.ok && res.fallback) res = simulateStatusWorker(username)] *)
Definition orSimulated (username : string) (res : FetchResult) : Async FetchResult :=
  match res with
  | NotOk _ true => simulateStatusWorker username
  | _ => resolve res
  end.

(** The [message] listener on [{ type:'doCheck', username, useSimulator }],
    up to the save; the [checked] message it then posts to the clients
    changes nothing here. *)
Definition onDoCheck (username : string) (useSimulator : bool) : Async unit :=
  if String.eqb username "" then resolve tt else
  await ts := Date_now in
  await res :=
    (if useSimulator then simulateStatusWorker username
     else fetchRobloxStatusWorker username) in
  await res := orSimulated username res in
  workerSaveEvent username (sample_of res) ts.

(** The [sync] listener, on the tag of the event. *)
Definition onSync (tag : string) : Async unit :=
  if String.prefix "roblox-check" tag then
    let parts := split_on ":"%char tag in
    let username := or_null (parts !! 1%nat) in
    let useSim := bool_decide (parts !! 2%nat = Some "1") in
    match username with
    | Some username =>
        await res :=
          (if useSim then simulateStatusWorker username
           else fetchRobloxStatusWorker username) in
        await res := orSimulated username res in
        await now := Date_now in
        workerSaveEvent username (sample_of res) now
    | None => resolve tt
    end
  else resolve tt.
End Worker.

(** The worker's numbers in the fixed-point model. *)
Definition fixedPointWorker : @WorkerNumber fixedPoint :=
  @Build_WorkerNumber fixedPoint 450.

(** The tag of a sync request for [username], as the listener reads it:
    [roblox-check:USERNAME:SIM]. *)
Definition syncTag (username : string) (sim : string) : string :=
  "roblox-check:" +:+ username +:+ ":" +:+ sim.

(** The string has no colon. *)
Definition colon_free (s : string) : Prop :=
  ":"%char ∉ String.list_ascii_of_string s.

(** ** Formatting durations *)

(** [s.padStart(targetLength, fill)] for a filler of one character. *)
Definition padStart (targetLength : nat) (fill : Ascii.ascii) (s : string) : string :=
  String.string_of_list_ascii (replicate (targetLength - String.length s) fill)
  +:+ s.

(** [formatDurationSec(sec)] on a whole number of seconds, as every caller
    passes. On whole numbers below [2^53] the divisions and remainders of
    the source are exact: [Math.floor((sec / 60) % 60)] is the remainder of
    the integer quotient. [String(n)] is the decimal numeral of [n]. *)
Definition formatDurationSec (sec : Z) : string :=
  if (sec =? 0) || (sec <? 0) then "00:00:00" else
  let s := Z.rem sec 60 in
  let m := Z.rem (sec / 60) 60 in
  let h := sec / 3600 in
  padStart 2 "0" (pretty h) +:+ ":" +:+ padStart 2 "0" (pretty m)
  +:+ ":" +:+ padStart 2 "0" (pretty s).

(** [Number.MAX_SAFE_INTEGER] *)
Definition maxSafeInteger : Z := 2 ^ 53 - 1.

(** A number of hours, minutes and seconds as [formatDurationSec] lays it
    out. *)
Definition hms (h m s : Z) : string :=
  padStart 2 "0" (pretty h) +:+ ":" +:+ padStart 2 "0" (pretty m)
  +:+ ":" +:+ padStart 2 "0" (pretty s).

(** ** Interval timers *)

(** The timers of the page: [state.pollingTimer], [liveTimerHandle], and
    the interval timers that are active in the window. A handle returned
    by [setInterval] is a positive integer, so it is truthy. *)
Record Timers := mkTimers {
  pollingTimer : option positive;
  liveTimerHandle : option positive;
  intervals : gset positive
}.

Section Timers.
(** The handle the host gives to a new timer: one that is not in use. *)
Variable nextHandle : gset positive -> positive.

Definition setInterval (t : Timers) : positive * Timers :=
  let id := nextHandle (intervals t) in
  (id, mkTimers (pollingTimer t) (liveTimerHandle t) ({[id]} ∪ intervals t)).

Definition clearInterval (id : positive) (t : Timers) : Timers :=
  mkTimers (pollingTimer t) (liveTimerHandle t) (intervals t ∖ {[id]}).

Definition stopPolling (t : Timers) : Timers :=
  match pollingTimer t with
  | Some id =>
      let t := clearInterval id t in
      mkTimers None (liveTimerHandle t) (intervals t)
  | None => t
  end.

Definition startPolling (t : Timers) : Timers :=
  let t := stopPolling t in
  let (id, t) := setInterval t in
  mkTimers (Some id) (liveTimerHandle t) (intervals t).

Definition stopLiveSessionTimer (t : Timers) : Timers :=
  match liveTimerHandle t with
  | Some id =>
      let t := clearInterval id t in
      mkTimers (pollingTimer t) None (intervals t)
  | None => t
  end.

Definition startLiveSessionTimer (t : Timers) : Timers :=
  let t := stopLiveSessionTimer t in
  let (id, t) := setInterval t in
  mkTimers (pollingTimer t) (Some id) (intervals t).

(** What the page does to its timers: the tab is shown or hidden,
    [setUsername] starts the polling, [updateUILive] starts the live
    counter when the user is online and stops it otherwise. *)
Inductive timer_event :=
| TabVisible
| TabHidden
| UsernameSet
| LiveUpdate (online : bool).

Definition on_timer_event (e : timer_event) (t : Timers) : Timers :=
  match e with
  | TabVisible => startPolling t
  | TabHidden => stopPolling t
  | UsernameSet => startPolling t
  | LiveUpdate true => startLiveSessionTimer t
  | LiveUpdate false => stopLiveSessionTimer t
  end.

Definition run_timers (es : list timer_event) (t : Timers) : Timers :=
  foldl (fun t e => on_timer_event e t) t es.
End Timers.

(** The page before any timer is set. *)
Definition no_timers : Timers := mkTimers None None ∅.

(** The handles the page holds. *)
Definition held (t : Timers) : gset positive :=
  from_option singleton ∅ (pollingTimer t)
  ∪ from_option singleton ∅ (liveTimerHandle t).

(** The invariant of the timers: the active timers are the ones the page
    holds, and the two handles differ. *)
Definition timers_inv (t : Timers) : Prop :=
  intervals t = held t
  /\ (forall id, pollingTimer t = Some id -> liveTimerHandle t <> Some id).

(** ** The history table *)

(** A record of the [sessions] store as the table, the daily total and the
    exports read it: the session together with its [date] field. *)
Module Stored.
Record t := mk { session : Session.t; date : string }.
End Stored.

(** The string and date functions of the host that the page calls. They
    are kept abstract; the local calendar is only known to give a month
    from 0 to 11 and a day from 1 to 31. *)
Class Host := {
  toLowerCase : string -> string;
  trim : string -> string;
  includes : string -> string -> bool;
  toLocaleString : Z -> string;
  toISOString : Z -> string;
  getFullYear : Z -> Z;
  getMonth : Z -> Z;
  getDate : Z -> Z;
  getMonth_range : forall ts, 0 <= getMonth ts <= 11;
  getDate_range : forall ts, 1 <= getDate ts <= 31
}.

(** [arr.slice(start, end)]: a negative index counts from the end. *)
Definition slice {A} (start end_ : Z) (arr : list A) : list A :=
  let len := Z.of_nat (length arr) in
  let k := if start <? 0 then Z.max (len + start) 0 else Z.min start len in
  let final := if end_ <? 0 then Z.max (len + end_) 0 else Z.min end_ len in
  take (Z.to_nat (final - k)) (drop (Z.to_nat k) arr).

(** [arr.sort(compare)]: the sort of an array is stable, [a] stays before
    a later [b] unless [compare(a, b) > 0]. *)
Fixpoint insert_sorted {A} (compare : A -> A -> Z) (x : A) (l : list A) : list A :=
  match l with
  | [] => [x]
  | y :: l' =>
      if compare x y <=? 0 then x :: l else y :: insert_sorted compare x l'
  end.

Definition sort_with {A} (compare : A -> A -> Z) (l : list A) : list A :=
  foldr (insert_sorted compare) [] l.

(** [CONFIG.pageSize] *)
Definition pageSize : Z := 12.

(** The values of the inputs above the table. *)
Record Inputs := mkInputs {
  filterDate : string;
  filterGame : string;
  searchText : string;
  sortBy : string
}.

(** The comparison of [renderTable] for a sort key; an unknown key and no
    key at all order by start, latest first. *)
Definition compareRows (key : string) (a b : Stored.t) : Z :=
  let start r := Session.startTs (Stored.session r) in
  let duration r := Session.durationSec (Stored.session r) in
  if String.eqb key "timestamp_asc" then start a - start b
  else if String.eqb key "duration_desc" then duration b - duration a
  else if String.eqb key "duration_asc" then duration a - duration b
  else start b - start a.

(** [Math.ceil(n / d)] for whole numbers and [d > 0]. *)
Definition ceil_div (n d : Z) : Z := - ((- n) / d).

(** [Math.max(1, Math.ceil(rows.length / pageSize))] *)
Definition totalPages {A} (rows : list A) : Z :=
  Z.max 1 (ceil_div (Z.of_nat (length rows)) pageSize).

(** The rows of page [page]. *)
Definition pageRows {A} (page : Z) (rows : list A) : list A :=
  let startIdx := (page - 1) * pageSize in
  slice startIdx (startIdx + pageSize) rows.

Section Table.
Context `{Host}.

(** [formatDateForSearch(ts)] *)
Definition formatDateForSearch (ts : Z) : string :=
  if ts =? 0 then "" else toLocaleString ts.

(** [r.gameName || ''] *)
Definition gameText (r : Stored.t) : string :=
  default "" (or_null (Session.gameName (Stored.session r))).

(** The rows of the table: the sessions of the monitored user that pass
    the filters, in the order asked for. *)
Definition tableRows (username : string) (inp : Inputs)
    (allSessions : list Stored.t) : list Stored.t :=
  let rows :=
    filter (fun s => Session.username (Stored.session s) = username) allSessions in
  let dateFilter := filterDate inp in
  let rows :=
    if String.eqb dateFilter "" then rows
    else filter (fun r => Stored.date r = dateFilter) rows in
  let gameFilter := toLowerCase (trim (filterGame inp)) in
  let rows :=
    if String.eqb gameFilter "" then rows
    else filter (fun r => includes (toLowerCase (gameText r)) gameFilter = true) rows in
  let searchText := toLowerCase (trim (searchText inp)) in
  let rows :=
    if String.eqb searchText "" then rows
    else filter (fun r =>
           includes (toLowerCase (gameText r)) searchText
           || includes (formatDurationSec (Session.durationSec (Stored.session r)))
                searchText
           || includes (formatDateForSearch (Session.startTs (Stored.session r)))
                searchText = true) rows in
  let sortBy := if String.eqb (sortBy inp) "" then "timestamp_desc" else sortBy inp in
  sort_with (compareRows sortBy) rows.

(** [renderTable()], for the value [page] of [state.page] and the content
    of the sessions store: the new [state.page], the rows that are shown
    and the text of the page indicator. *)
Definition renderTable (username : string) (page : Z) (inp : Inputs)
    (allSessions : list Stored.t) : Z * list Stored.t * string :=
  let rows := tableRows username inp allSessions in
  let page := if page =? 0 then 1 else page in
  let totalPages := totalPages rows in
  let page' := Z.min page totalPages in
  (page', pageRows page' rows, pretty page' +:+ " / " +:+ pretty totalPages).

(** What the user does to the table, with the content of the sessions
    store when the table is rendered again: a filter or the sort key
    changes, the previous or the next page is asked for, or the table is
    refreshed after a poll. Each event is taken with its rendering: the
    read of the store that [renderTable] awaits has returned before the
    next event is handled. *)
Inductive table_event :=
| InputChanged (inp : Inputs) (allSessions : list Stored.t)
| PrevPage (allSessions : list Stored.t)
| NextPage (allSessions : list Stored.t)
| Refresh (allSessions : list Stored.t).

(** The table as the page has it: [state.page], the inputs and the rows
    on display. *)
Record Table := mkTable {
  page : Z;
  inputs : Inputs;
  shown : list Stored.t;
  listed : list Stored.t
}.

Definition render (username : string) (page : Z) (inp : Inputs)
    (allSessions : list Stored.t) : Table :=
  let '(page', rows, _) := renderTable username page inp allSessions in
  mkTable page' inp rows (tableRows username inp allSessions).

Definition on_table_event (username : string) (e : table_event) (t : Table) : Table :=
  match e with
  | InputChanged inp all => render username 1 inp all
  | PrevPage all => render username (Z.max 1 (page t - 1)) (inputs t) all
  | NextPage all => render username (page t + 1) (inputs t) all
  | Refresh all => render username (page t) (inputs t) all
  end.

Definition run_table (username : string) (es : list table_event) (t : Table) : Table :=
  foldl (fun t e => on_table_event username e t) t es.
End Table.

(** The table when the page is loaded. *)
Definition first_table : Table :=
  mkTable 1 (mkInputs "" "" "" "") [] [].

(** The invariant of the table: the page on display exists, and the rows
    on display are the rows of that page. *)
Definition table_inv (t : Table) : Prop :=
  1 <= page t <= totalPages (listed t)
  /\ shown t = pageRows (page t) (listed t).

(** [a] may stand before [b] in an array sorted with [compare]. *)
Definition in_order {A} (compare : A -> A -> Z) (a b : A) : Prop :=
  compare a b <= 0.

(** The comparison orders by a key: it is the difference of the keys of
    its arguments, in one direction or the other. *)
Definition by_key {A} (compare : A -> A -> Z) : Prop :=
  exists key : A -> Z,
    (forall a b, compare a b = key a - key b)
    \/ (forall a b, compare a b = key b - key a).

(** ** Dates and the daily total *)

Section Dates.
Context `{Host}.

(** [toISODate(ts)]: the day of [ts] in local time, as [yyyy-mm-dd]. *)
Definition toISODate (ts : Z) : string :=
  let yyyy := getFullYear ts in
  let mm := padStart 2 "0" (pretty (getMonth ts + 1)) in
  let dd := padStart 2 "0" (pretty (getDate ts)) in
  pretty yyyy +:+ "-" +:+ mm +:+ "-" +:+ dd.

(** The record of a session as the page stores it: its [date] is the day
    of its start. *)
Definition stored (s : Session.t) : Stored.t :=
  Stored.mk s (toISODate (Session.startTs s)).

(** [calcTotalOnlineForDate(dateStr)], for the runtime state, the reading
    of the clock and the content of the sessions store. *)
Definition calcTotalOnlineForDate (st : State) (now : Z)
    (all : list Stored.t) (dateStr : string) : Z :=
  let forUser :=
    filter (fun s => Session.username (Stored.session s) = username st
                     /\ Stored.date s = dateStr) all in
  let totalSec :=
    foldl (fun acc s => acc + Session.durationSec (Stored.session s)) 0 forUser in
  match truthy_num (currentSessionStart st) with
  | Some start =>
      if String.eqb (toISODate start) dateStr
      then totalSec + (now - start) / 1000
      else totalSec
  | None => totalSec
  end.

(** The text [renderSummaryToday] shows. *)
Definition renderSummaryToday (st : State) (now : Z) (all : list Stored.t) : string :=
  let today := toISODate now in
  formatDurationSec (calcTotalOnlineForDate st now all today).

(** The text [renderCurrentSession] shows. *)
Definition renderCurrentSession (st : State) (now : Z) : string :=
  match truthy_num (currentSessionStart st) with
  | Some start =>
      formatDurationSec ((now - start) / 1000)
      +:+ match lastKnownStatus st with
          | Some lk =>
              if truthy_str (Status.gameName lk)
              then " — " +:+ default "" (Status.gameName lk)
              else ""
          | None => ""
          end
  | None => "—"
  end.
End Dates.

(** A host to run the page on concrete inputs: months of thirty days in
    years of twelve months, strings left as they are. *)
Definition plainHost : Host := {|
  toLowerCase := fun s => s;
  trim := fun s => s;
  includes := fun s t => bool_decide (t = "") || String.prefix t s;
  toLocaleString := fun ts => pretty ts;
  toISOString := fun ts => pretty ts;
  getFullYear := fun ts => 1970 + ts / 31104000000;
  getMonth := fun ts => (ts / 2592000000) mod 12;
  getDate := fun ts => 1 + (ts / 86400000) mod 30;
  getMonth_range := ltac:(intros ts; pose proof (Z.mod_pos_bound (ts / 2592000000) 12); lia);
  getDate_range := ltac:(intros ts; pose proof (Z.mod_pos_bound (ts / 86400000) 30); lia)
|}.

(** ** The CSV export *)

(** The double quote. *)
Definition dquote : Ascii.ascii := Ascii.ascii_of_nat 34.

(** The [replace] of [exportCsv] on a game name: every double quote is
    doubled. *)
Fixpoint escapeQuotes (s : string) : string :=
  match s with
  | EmptyString => EmptyString
  | String c s' =>
      if Ascii.eqb c dquote
      then String dquote (String dquote (escapeQuotes s'))
      else String c (escapeQuotes s')
  end.

(** The text between double quotes. *)
Definition quoted (s : string) : string :=
  String dquote s +:+ String dquote EmptyString.

Section CsvExport.
Context `{Host}.

(** The rows of both exports: the sessions of the monitored user, by
    start. *)
Definition exportRows (username : string) (sessions : list Stored.t)
    : list Stored.t :=
  sort_with
    (fun a b => Session.startTs (Stored.session a) - Session.startTs (Stored.session b))
    (filter (fun s => Session.username (Stored.session s) = username) sessions).

(** One line of the CSV file. *)
Definition csvLine (r : Stored.t) : string :=
  let s := Stored.session r in
  String.concat ","
    [quoted (Session.username s);
     quoted (toISOString (Session.startTs s));
     quoted (toISOString (Session.endTs s));
     pretty (Session.durationSec s);
     quoted (formatDurationSec (Session.durationSec s));
     quoted (Stored.date r);
     quoted (escapeQuotes (gameText r))].

(** The lines of the file [exportCsv] builds, the header first. *)
Definition csvLines (username : string) (sessions : list Stored.t) : list string :=
  String.concat ","
    ["username"; "start"; "end"; "duration_sec"; "duration_hms"; "date"; "gameName"]
  :: map csvLine (exportRows username sessions).

(** [exportCsv()]: the name and the text of the file that is downloaded. *)
Definition exportCsv (username : string) (sessions : list Stored.t)
    : string * string :=
  ((if String.eqb username "" then "roblox" else username) +:+ "_history.csv",
   String.concat (String (Ascii.ascii_of_nat 10) EmptyString)
     (csvLines username sessions)).
End CsvExport.

(** The text has no double quote that stands alone: every run of double
    quotes has an even length. *)
Fixpoint quotes_paired (s : string) : bool :=
  match s with
  | EmptyString => true
  | String c s' =>
      if Ascii.eqb c dquote
      then match s' with
           | String c' s'' => Ascii.eqb c' dquote && quotes_paired s''
           | EmptyString => false
           end
      else quotes_paired s'
  end.

(** The reading of an escaped text: a doubled double quote stands for
    one. *)
Fixpoint unescapeQuotes (s : string) : string :=
  match s with
  | EmptyString => EmptyString
  | String c s' =>
      if Ascii.eqb c dquote
      then match s' with
           | String _ s'' => String dquote (unescapeQuotes s'')
           | EmptyString => String c EmptyString
           end
      else String c (unescapeQuotes s')
  end.

(** The sessions are stored in the order of time: each one starts when
    every earlier one has ended, or later. *)
Definition in_sequence (ss : list Session.t) : Prop :=
  StronglySorted (fun a b => Session.endTs a <= Session.startTs b) ss.

(** The sum of the recorded durations, in seconds. *)
Definition total_duration (ss : list Session.t) : Z :=
  foldr (fun s acc => Session.durationSec s + acc) 0 ss.

(** The part of the history of user [u] that begins at [t0]: every session
    is one of [u] and starts at [t0] or later, the sessions are in
    sequence, and no event or session start is earlier than [t0]. *)
Definition chain (u : string) (t0 : Z) (css : option Z) (evs : list Event.t)
    (ss : list Session.t) : Prop :=
  Forall (fun s => Session.username s = u /\ t0 <= Session.startTs s) ss
  /\ in_sequence ss
  /\ Forall (fun e => t0 <= Event.timestamp e) evs
  /\ (forall c, truthy_num css = Some c -> t0 <= c).

Definition chain_inv (u : string) (t0 t : Z) (w : World) : Prop :=
  engine_inv u t w
  /\ chain u t0 (currentSessionStart (state w)) (events w) (sessions w).

(** The settings of the runtime state are the ones [localStorage] holds:
    what a load of the page would read. *)
Definition settings_saved (w : World) : Prop :=
  username (state w) = default "" (localStorage w !! "rb_username")
  /\ useSimulator (state w)
     = bool_decide (localStorage w !! "rb_use_sim" = Some "true").

(** * Proofs *)

Arguments truthy_num : simpl never.
Arguments truthy_str : simpl never.
Arguments or_null : simpl never.
Arguments or_else : simpl never.
Arguments strict_ne : simpl never.
Arguments duration_of : simpl never.
Arguments heartbeatMs : simpl never.
Arguments Z.ltb : simpl never.

(** Name the fields of a world. *)
Ltac crush_world w :=
  destruct w as [[u sim lk css] evs ss fs ls ck net n]; simpl in *.

(** Decide the tests an execution depends on, one after the other. *)
Ltac decide_tests :=
  repeat (simpl;
    match goal with
    | |- context [heartbeatMs <? ?x] => destruct (heartbeatMs <? x) eqn:?
    | |- context [strict_ne ?a ?b] => destruct (strict_ne a b) eqn:?
    | |- context [truthy_num ?c] => destruct (truthy_num c) eqn:?
    end).

Ltac run_async :=
  unfold exec, onStatusResult, addStatusEvent, updateUILive, bind, get_state,
    set_lastKnownStatus, set_currentSessionStart, dbAdd_events, dbAdd_sessions,
    request, resolve, throw, activity in *; simpl in *.

(** ** The truthiness helpers *)

Lemma strict_ne_true a b : strict_ne a b = true <-> a <> b.
Proof. unfold strict_ne. rewrite negb_true_iff, bool_decide_eq_false. tauto. Qed.

Lemma strict_ne_false a b : strict_ne a b = false <-> a = b.
Proof. unfold strict_ne. rewrite negb_false_iff, bool_decide_eq_true. tauto. Qed.

Lemma heartbeat_elapsed lts ts :
  (heartbeatMs <? ts - lts) = true <-> ts - lts > 30 * 60 * 1000.
Proof. unfold heartbeatMs. rewrite Z.ltb_lt. lia. Qed.

Lemma heartbeat_not_elapsed lts ts :
  (heartbeatMs <? ts - lts) = false <-> ~ ts - lts > 30 * 60 * 1000.
Proof. unfold heartbeatMs. rewrite Z.ltb_ge. lia. Qed.

Lemma or_null_idem g : or_null (or_null g) = or_null g.
Proof. unfold or_null. destruct (truthy_str g) eqn:E; [by rewrite E | done]. Qed.

Lemma or_null_label g : label_ok g -> or_null g = g.
Proof.
  unfold label_ok, or_null, truthy_str. destruct g as [s|]; [|done].
  intros Hs. destruct (String.eqb_spec s ""); [congruence | done].
Qed.

Lemma or_null_is_label g : label_ok (or_null g).
Proof.
  unfold label_ok, or_null, truthy_str. destruct g as [s|]; [|done].
  destruct (String.eqb_spec s ""); simpl; congruence.
Qed.

Lemma truthy_num_Some c z : truthy_num c = Some z <-> c = Some z /\ z <> 0.
Proof.
  unfold truthy_num. destruct c as [x|]; [|intuition congruence].
  destruct (Z.eqb_spec x 0); intuition congruence.
Qed.

Lemma truthy_num_None c : truthy_num c = None <-> c = None \/ c = Some 0.
Proof.
  unfold truthy_num. destruct c as [x|]; [|intuition congruence].
  destruct (Z.eqb_spec x 0); intuition congruence.
Qed.

Lemma truthy_num_nonzero z : z <> 0 -> truthy_num (Some z) = Some z.
Proof. intros. by apply truthy_num_Some. Qed.

Lemma truthy_num_null : truthy_num None = None.
Proof. reflexivity. Qed.

Lemma or_null_null : or_null None = None.
Proof. reflexivity. Qed.

Lemma duration_of_span start ms :
  0 <= ms -> duration_of start (start + ms) = ms / 1000.
Proof.
  intros Hms. unfold duration_of. replace (start + ms - start) with ms by lia.
  apply Z.max_r. apply Z.div_pos; lia.
Qed.

(** Rewrite the truthiness tests that are decided by the context. *)
Ltac norm_js :=
  repeat (simpl;
    first [ rewrite truthy_num_nonzero by assumption
          | rewrite truthy_num_null
          | rewrite or_null_null
          | rewrite or_null_idem
          | rewrite or_null_label by done ]).

(** ** C1: when an ingest persists an event *)

(** C1. For every ingest of a sample at [ts] on a store that accepts the
    write, an event for the sample is persisted if and only if there is no
    last known status, or the online flag differs from it, or both are
    online and the activity differs, or the state is unchanged and more
    than thirty minutes have passed since the last known status; in that
    last case the event is a heartbeat and the session start is left as it
    was, in the other cases the event is not a heartbeat. *)
Theorem onStatusResult_persists (w : World) (res : Sample.t) (ts : Z) :
  accepts_next w ->
  marker_set (state w) ->
  let w' := exec (onStatusResult res ts) w in
  let u := username (state w) in
  (state_event (state w) res ->
     events w' = events w ++ [event_of u res ts false])
  /\ (heartbeat_due (state w) res ts ->
        events w' = events w ++ [event_of u res ts true]
        /\ currentSessionStart (state w') = currentSessionStart (state w))
  /\ (~ must_persist (state w) res ts -> events w' = events w).
Proof.
  intros Hok Hm. crush_world w. unfold accepts_next in Hok; simpl in Hok.
  unfold must_persist, state_event, heartbeat_due, event_of, changed, overdue,
    marker_set in *; simpl in *.
  destruct res as [o g].
  destruct fs as [|[|[|n']] fs]; try done;
  (destruct lk as [[lo lg lts]|]; [specialize (Hm _ eq_refl)|]); run_async.
  1,3,5: destruct lo, o; decide_tests; simpl;
      rewrite ?strict_ne_true, ?strict_ne_false, ?heartbeat_elapsed,
        ?heartbeat_not_elapsed, ?or_null_idem in *;
      (split; [|split]);
      solve
        [ intros; reflexivity
        | intros; split; reflexivity
        | intros; exfalso; intuition (congruence || lia)
        | destruct (Hm eq_refl) as [? [=]] ].
  all: destruct o; decide_tests; simpl; rewrite ?or_null_idem;
      (split; [|split]); solve [intros; reflexivity | tauto].
Qed.

Lemma onStatusResult_persists_witness :
  let w := mkWorld (mkState "bob" false
                      (Some (Status.mk true (Some "Jogo A") 1000)) (Some 1000))
                   [] [] [] ∅ 0 [] 0 in
  let res := Sample.mk true (Some "Jogo A") in
  events (exec (onStatusResult res 2000000) w)
    = [event_of "bob" res 2000000 true]
  /\ currentSessionStart (state (exec (onStatusResult res 2000000) w)) = Some 1000.
Proof.
  intros w res.
  refine (proj1 (proj2 (onStatusResult_persists w res 2000000 _ _)) _).
  - discriminate.
  - intros lk [= <-] _. exists 1000. reflexivity.
  - split.
    + intros [Hc | (_ & _ & Hc)]; cbv in Hc; congruence.
    + unfold overdue. simpl. lia.
Defined.

(** The hypothesis of C1 on the session start is an invariant of the page
    (see [page_marker_set]): an ingest at an instant other than [0] keeps
    it, whatever the store does. *)
Lemma marker_set_ingest (w : World) (res : Sample.t) (ts : Z) :
  marker_set (state w) -> ts <> 0 ->
  marker_set (state (exec (onStatusResult res ts) w)).
Proof.
  intros Hm Hts. crush_world w. destruct res as [o g].
  pose proof (truthy_num_nonzero ts Hts) as Hnz.
  unfold marker_set in *; simpl in *.
  destruct fs as [|[|[|n']] fs];
    (destruct lk as [[lo lg lts]|]; [specialize (Hm _ eq_refl); destruct lo|]);
    destruct o; run_async; decide_tests; simpl;
    intros lk' [= <-]; simpl; intros Hon;
    rewrite ?truthy_num_nonzero by done; eauto; try done; congruence.
Qed.

(** ** C2: closing the open session *)

(** C2 (as amended). For every ingest of an offline sample at [ts] while a
    session is open (the session start is neither [null] nor [0], the last
    known status is online) and the store accepts the writes, exactly one
    session is written, from the session start to [ts], with the clamped
    duration, and with the activity of the last known status when that is
    a non-empty label and the activity of the sample otherwise; the session
    start is then [null]. In particular online with "Jogo A" at an instant
    [t0] other than [0] and offline 600 s later yield the single session
    of 600 seconds with activity "Jogo A". *)
Theorem onStatusResult_closes_session :
  (forall (w : World) (res : Sample.t) (ts : Z) (lk : Status.t) (start : Z),
     store_ok w ->
     lastKnownStatus (state w) = Some lk ->
     Status.online lk = true ->
     currentSessionStart (state w) = Some start ->
     start <> 0 ->
     Sample.online res = false ->
     let w' := exec (onStatusResult res ts) w in
     sessions w'
       = sessions w ++
         [Session.mk (username (state w)) start ts (duration_of start ts)
            (if truthy_str (Status.gameName lk) then Status.gameName lk
             else activity res)]
     /\ currentSessionStart (state w') = None)
  /\ (forall (u : string) (t0 : Z),
        t0 <> 0 ->
        let w1 := exec (onStatusResult (Sample.mk true (Some "Jogo A")) t0) (fresh u) in
        let w2 := exec (onStatusResult (Sample.mk false None) (t0 + 600 * 1000)) w1 in
        sessions w2 = [Session.mk u t0 (t0 + 600 * 1000) 600 (Some "Jogo A")]
        /\ events w2 =
             [Event.mk u true (Some "Jogo A") t0 false;
              Event.mk u false None (t0 + 600 * 1000) false]).
Proof.
  split.
  - intros w res ts [lo lg lts] start Hok Hlk Hon Hcss Hnz Hoff.
    crush_world w. unfold store_ok in Hok; simpl in *; subst.
    destruct res as [o g]; simpl in *; subst. run_async.
    rewrite (truthy_num_nonzero _ Hnz). simpl.
    rewrite or_null_idem. split; reflexivity.
  - intros u t0 Hnz. run_async. unfold fresh. norm_js.
    change (strict_ne (Some "Jogo A") None) with true.
    change (truthy_str (Some "Jogo A")) with true. norm_js.
    rewrite duration_of_span by lia. split; reflexivity.
Qed.

(** C2, counterexample. The last known status is online without an
    activity and the offline sample carries one: the session takes the
    activity of the sample. And in the scenario played at instant [0] the
    session start [0] is falsy, so no session is written at all. *)
Lemma onStatusResult_closes_session_counterexample :
  let w := exec (onStatusResult (Sample.mk true None) 1000) (fresh "bob") in
  let res := Sample.mk false (Some "Jogo (place 5)") in
  (lastKnownStatus (state w) = Some (Status.mk true None 1000)
   /\ currentSessionStart (state w) = Some 1000
   /\ sessions (exec (onStatusResult res 601000) w)
      = [Session.mk "bob" 1000 601000 600 (Some "Jogo (place 5)")])
  /\ sessions
       (exec (onStatusResult (Sample.mk false None) (600 * 1000))
          (exec (onStatusResult (Sample.mk true (Some "Jogo A")) 0) (fresh "bob")))
     = [].
Proof. vm_compute. repeat split; reflexivity. Qed.

Lemma onStatusResult_closes_session_witness :
  let w := exec (onStatusResult (Sample.mk true (Some "Jogo A")) 1000) (fresh "bob") in
  let w' := exec (onStatusResult (Sample.mk false None) 601000) w in
  sessions w' = [Session.mk "bob" 1000 601000 600 (Some "Jogo A")]
  /\ currentSessionStart (state w') = None.
Proof.
  intros w w'.
  refine (proj1 onStatusResult_closes_session w (Sample.mk false None) 601000
            (Status.mk true (Some "Jogo A") 1000) 1000 _ _ _ _ _ _);
    first [ reflexivity | discriminate ].
Defined.

(** ** The last event of a user *)

Section LastEvent.
Implicit Types (e x : Event.t) (l : list Event.t).

Lemma insert_by_timestamp_elem x e l :
  x ∈ insert_by_timestamp e l <-> x = e \/ x ∈ l.
Proof.
  induction l as [|y l IH]; simpl.
  - rewrite list_elem_of_singleton, elem_of_nil. tauto.
  - destruct (Event.timestamp e <=? Event.timestamp y).
    + rewrite elem_of_cons. tauto.
    + rewrite !elem_of_cons, IH. tauto.
Qed.

Lemma sort_by_timestamp_elem x l : x ∈ sort_by_timestamp l <-> x ∈ l.
Proof.
  induction l as [|y l IH]; simpl; [done|].
  rewrite insert_by_timestamp_elem, elem_of_cons, IH. tauto.
Qed.

Lemma insert_by_timestamp_nonempty e l : insert_by_timestamp e l <> [].
Proof. destruct l; simpl; [done|]. by destruct (_ <=? _). Qed.

(** An element that is not later than the last one goes before it. *)
Lemma last_insert_before x e l :
  last l = Some e -> Event.timestamp x <= Event.timestamp e ->
  last (insert_by_timestamp x l) = Some e.
Proof.
  induction l as [|y l IH]; simpl; [done|]. intros Hl Hx.
  destruct (Z.leb_spec (Event.timestamp x) (Event.timestamp y)).
  - by rewrite last_cons_cons.
  - destruct l as [|z l].
    + simpl in Hl. injection Hl as ->. lia.
    + rewrite last_cons_cons in Hl. specialize (IH Hl Hx).
      rewrite last_cons, IH. done.
Qed.

(** The last element of the result is the new one or the old last. *)
Lemma last_insert_cases x e l :
  last (insert_by_timestamp x l) = Some e -> e = x \/ last l = Some e.
Proof.
  induction l as [|y l IH]; simpl.
  - intros [= <-]. by left.
  - destruct (Z.leb_spec (Event.timestamp x) (Event.timestamp y)).
    + rewrite last_cons_cons. by right.
    + rewrite last_cons. destruct (last (insert_by_timestamp x l)) as [e'|] eqn:E.
      * intros [= <-]. destruct (IH eq_refl) as [->|Hl]; [by left|].
        right. rewrite last_cons. by rewrite Hl.
      * by apply last_None, insert_by_timestamp_nonempty in E.
Qed.

Lemma insert_by_timestamp_latest x l :
  last_is_latest l -> last_is_latest (insert_by_timestamp x l).
Proof.
  induction l as [|y l IH]; intros Hl e.
  - simpl. intros [= <-] z ->%list_elem_of_singleton. lia.
  - simpl. destruct (Z.leb_spec (Event.timestamp x) (Event.timestamp y)) as [Hxy|Hxy].
    + rewrite last_cons_cons. intros He z [->|Hz]%elem_of_cons.
      * specialize (Hl e He y). rewrite elem_of_cons in Hl.
        etrans; [exact Hxy|]. apply Hl. by left.
      * by apply (Hl e).
    + intros He z Hz.
      assert (Hl' : last_is_latest l).
      { intros e' He' z' Hz'. apply (Hl e').
        - rewrite last_cons, He'. done.
        - apply elem_of_cons. by right. }
      specialize (IH Hl').
      rewrite last_cons in He.
      destruct (last (insert_by_timestamp x l)) as [e'|] eqn:E;
        [|by apply last_None, insert_by_timestamp_nonempty in E].
      injection He as ->.
      apply elem_of_cons in Hz as [->|Hz]; [|by apply (IH e)].
      destruct (last_insert_cases _ _ _ E) as [->|He]; [lia|].
      apply (Hl e); [by rewrite last_cons, He | by left].
Qed.

Lemma sort_by_timestamp_latest l : last_is_latest (sort_by_timestamp l).
Proof.
  induction l as [|y l IH]; simpl; [by intros e|].
  by apply insert_by_timestamp_latest.
Qed.

(** The last event of a user is one of the user's events and none of them
    is later. *)
Lemma lastEvent_elem u l e :
  lastEvent u l = Some e -> e ∈ l /\ Event.username e = u.
Proof.
  unfold lastEvent, forUser. intros [l' Hl']%last_Some.
  assert (He : e ∈ sort_by_timestamp (filter (fun e => Event.username e = u) l)).
  { rewrite Hl', elem_of_app, list_elem_of_singleton. by right. }
  apply sort_by_timestamp_elem, list_elem_of_filter in He. tauto.
Qed.

Lemma lastEvent_latest u l e x :
  lastEvent u l = Some e -> x ∈ l -> Event.username x = u ->
  Event.timestamp x <= Event.timestamp e.
Proof.
  unfold lastEvent, forUser. intros He Hx Hu.
  apply (sort_by_timestamp_latest _ e He).
  apply sort_by_timestamp_elem, list_elem_of_filter. done.
Qed.

(** An event appended for the user, not earlier than the user's events,
    becomes the last event. *)
Lemma lastEvent_snoc u l e :
  Event.username e = u ->
  (forall x, x ∈ l -> Event.username x = u ->
     Event.timestamp x <= Event.timestamp e) ->
  lastEvent u (l ++ [e]) = Some e.
Proof.
  intros Hu Hl. unfold lastEvent, forUser, sort_by_timestamp.
  rewrite filter_app, filter_cons_True, filter_nil by done.
  rewrite foldr_app. simpl.
  assert (Hf : forall x, x ∈ filter (fun e => Event.username e = u) l ->
                 Event.timestamp x <= Event.timestamp e).
  { intros x [? ?]%list_elem_of_filter. by apply Hl. }
  induction (filter _ l) as [|y f IH]; simpl; [done|].
  apply last_insert_before.
  - apply IH. intros x Hx. apply Hf. apply elem_of_cons. by right.
  - apply Hf. by left.
Qed.

Lemma lastEvent_other u l e :
  Event.username e <> u -> lastEvent u (l ++ [e]) = lastEvent u l.
Proof.
  intros Hu. unfold lastEvent, forUser.
  rewrite filter_app, filter_cons_False, filter_nil by done.
  by rewrite app_nil_r.
Qed.

Lemma lastEvent_nil u : lastEvent u [] = None.
Proof. reflexivity. Qed.
End LastEvent.

Ltac run_repair :=
  unfold exec, onReopenFillGap, repairStateFromDB, try_catch, dbGetAll_events,
    addStatusEvent, bind, get_state,
    set_lastKnownStatus, set_currentSessionStart, dbAdd_events, dbAdd_sessions,
    request, resolve, throw, activity in *; simpl in *.

Lemma or_else_label a b :
  label_ok a -> label_ok b ->
  or_else a b = match a with Some g => Some g | None => b end.
Proof.
  intros Ha Hb. unfold or_else. rewrite (or_null_label b Hb).
  unfold label_ok, truthy_str in *. destruct a as [s|]; [|done].
  destruct (String.eqb_spec s ""); [congruence | done].
Qed.

Lemma floor_duration start end_ :
  start <= end_ -> duration_of start end_ = (end_ - start) / 1000.
Proof. intros. unfold duration_of. apply Z.max_r, Z.div_pos; lia. Qed.

(** ** C3: the session synthesized by gap repair *)

(** C3 (as amended). For every gap repair where the last event of the
    user is online, the fresh sample at [nowTs] is offline and the store
    accepts the writes, exactly one session is synthesized, from the
    timestamp of the last event to [nowTs]. Its duration is the floor of
    the span in seconds, clamped at [0]: the floor itself when [nowTs] is
    not earlier than the last event, [0] when it is. Its activity is the
    activity of the last event when that is a non-empty label, else the
    activity of the sample, [null] when that is empty too: for labels
    that are [null] or non-empty, the activity of the last event if it has
    one, else the activity of the sample. And one offline event is
    persisted at [nowTs]. *)
Theorem onReopenFillGap_synthesizes (w : World) (sample : Sample.t) (nowTs : Z)
    (lastEv : Event.t) :
  store_ok w ->
  lastEvent (username (state w)) (events w) = Some lastEv ->
  Event.online lastEv = true ->
  Sample.online sample = false ->
  let u := username (state w) in
  let start := Event.timestamp lastEv in
  let durationSec := Z.max 0 ((nowTs - start) / 1000) in
  let gameName :=
    if truthy_str (Event.gameName lastEv) then Event.gameName lastEv
    else or_null (Sample.gameName sample) in
  let w' := exec (onReopenFillGap sample nowTs) w in
  sessions w' = sessions w ++ [Session.mk u start nowTs durationSec gameName]
  /\ events w'
     = events w ++ [Event.mk u false (or_null (Sample.gameName sample)) nowTs false]
  /\ (start <= nowTs -> durationSec = (nowTs - start) / 1000)
  /\ (nowTs < start -> durationSec = 0)
  /\ (label_ok (Event.gameName lastEv) -> label_ok (Sample.gameName sample) ->
      gameName = match Event.gameName lastEv with
                 | Some g => Some g
                 | None => Sample.gameName sample
                 end).
Proof.
  intros Hok Hlast Hon Hoff u0 start durationSec gameName w'.
  split; [|split; [|split; [|split]]].
  - subst u0 start durationSec gameName w'.
    crush_world w. unfold store_ok in Hok; simpl in Hok; subst fs.
    destruct sample as [o g]; simpl in *; subst o.
    run_repair. rewrite Hlast. simpl. rewrite Hon. simpl.
    destruct (lastEvent u (evs ++ _)) as [e|]; simpl;
      [destruct (Event.online e)|]; simpl; done.
  - subst u0 start durationSec gameName w'.
    crush_world w. unfold store_ok in Hok; simpl in Hok; subst fs.
    destruct sample as [o g]; simpl in *; subst o.
    run_repair. rewrite Hlast. simpl. rewrite Hon. simpl.
    destruct (lastEvent u (evs ++ _)) as [e|]; simpl;
      [destruct (Event.online e)|]; simpl; done.
  - intros Hle. apply (floor_duration start nowTs Hle).
  - intros Hlt. subst durationSec. apply Z.max_l.
    assert ((nowTs - start) / 1000 < 0) by (apply Z.div_lt_upper_bound; lia). lia.
  - intros Hg1 Hg2. apply (or_else_label _ _ Hg1 Hg2).
Qed.

Lemma onReopenFillGap_synthesizes_witness :
  let w := exec (onStatusResult (Sample.mk true (Some "Jogo A")) 1000) (fresh "bob") in
  let w' := exec (onReopenFillGap (Sample.mk false None) 5000) w in
  sessions w' = [Session.mk "bob" 1000 5000 4 (Some "Jogo A")]
  /\ events w' = [Event.mk "bob" true (Some "Jogo A") 1000 false;
                  Event.mk "bob" false None 5000 false].
Proof.
  intros w w'.
  destruct (onReopenFillGap_synthesizes w (Sample.mk false None) 5000
              (Event.mk "bob" true (Some "Jogo A") 1000 false)
              eq_refl eq_refl eq_refl eq_refl) as (Hss & Hev & _).
  split; [exact Hss | exact Hev].
Defined.

(** C3, counterexample. The last event of the user is online at 5000 and
    the repair samples offline at an earlier reading of the clock, 3000:
    the session synthesized has duration [0], not the floor of the span,
    which is [-2]. *)
Lemma onReopenFillGap_synthesizes_counterexample :
  let w := exec (onStatusResult (Sample.mk true (Some "Jogo A")) 5000) (fresh "bob") in
  let w' := exec (onReopenFillGap (Sample.mk false None) 3000) w in
  let back := Session.mk "bob" 5000 3000 0 (Some "Jogo A") in
  lastEvent "bob" (events w) = Some (Event.mk "bob" true (Some "Jogo A") 5000 false)
  /\ sessions w' = [back]
  /\ Session.durationSec back
     <> (Session.endTs back - Session.startTs back) / 1000.
Proof.
  intros w w' back. repeat split; try (vm_compute; reflexivity).
  vm_compute. discriminate.
Qed.

(** ** Gap repair, step by step *)


(** One gap repair when the user has a last event that is not later than
    [nowTs]. *)
Lemma onReopenFillGap_run (w : World) (sample : Sample.t) (nowTs : Z)
    (lastEv : Event.t) :
  store_ok w ->
  lastEvent (username (state w)) (events w) = Some lastEv ->
  Event.timestamp lastEv <= nowTs ->
  let u := username (state w) in
  let new := event_of u sample nowTs false in
  let w' := exec (onReopenFillGap sample nowTs) w in
  store_ok w'
  /\ username (state w') = u
  /\ events w' = events w ++ [new]
  /\ lastEvent u (events w') = Some new
  /\ sessions w'
     = (if Event.online lastEv && negb (Sample.online sample)
        then sessions w ++
             [Session.mk u (Event.timestamp lastEv) nowTs
                (duration_of (Event.timestamp lastEv) nowTs)
                (or_else (Event.gameName lastEv) (Sample.gameName sample))]
        else sessions w)
  /\ lastKnownStatus (state w')
     = Some (Status.mk (Sample.online sample)
               (if Sample.online sample then activity sample else None) nowTs)
  /\ currentSessionStart (state w')
     = (if Sample.online sample then Some nowTs else None).
Proof.
  intros Hok Hlast Hle u0 new.
  assert (Hnew : lastEvent u0 (events w ++ [new]) = Some new).
  { apply lastEvent_snoc; [done|]. intros x Hx Hu. simpl.
    etrans; [|exact Hle]. by eapply lastEvent_latest. }
  subst u0 new. unfold event_of in *.
  crush_world w. unfold store_ok in *; simpl in Hok; subst fs.
  destruct sample as [o g]; simpl in *.
  run_repair. rewrite Hlast. simpl.
  destruct (Event.online lastEv), o; simpl; rewrite Hnew; simpl; done.
Qed.



Lemma marker_set_repair (w : World) (res : Sample.t) (ts : Z) (lastEv : Event.t) :
  store_ok w ->
  lastEvent (username (state w)) (events w) = Some lastEv ->
  Event.timestamp lastEv <= ts -> ts <> 0 ->
  marker_set (state (exec (onReopenFillGap res ts) w)).
Proof.
  intros Hok Hlast Hle Hts.
  destruct (onReopenFillGap_run w res ts lastEv Hok Hlast Hle)
    as (_ & _ & _ & _ & _ & Hlk & Hcss).
  intros lk. rewrite Hlk, Hcss. intros [= <-]. simpl. intros ->.
  rewrite truthy_num_nonzero by done. eauto.
Qed.

(** ** C4: gap repair is idempotent *)




(** ** The invariant of the session table *)

Section SessionTable.
Implicit Types (s : Session.t) (ss : list Session.t) (e : Event.t)
  (evs : list Event.t) (css : option Z) (u : string).

Lemma overlap_sym s1 s2 : overlap s1 s2 -> overlap s2 s1.
Proof. unfold overlap. intros [-> H]. split; [done|lia]. Qed.

Lemma sessions_before_mono u t t' ss :
  t <= t' -> sessions_before u t ss -> sessions_before u t' ss.
Proof. intros Ht H s Hs Hu. specialize (H s Hs Hu). lia. Qed.

Lemma sessions_before_snoc u t ss s :
  sessions_before u t ss -> Session.endTs s <= t ->
  sessions_before u t (ss ++ [s]).
Proof.
  intros H Hs s' [Hin| ->%list_elem_of_singleton]%elem_of_app Hu; [by apply H|done].
Qed.

Lemma events_before_snoc u t t' evs e :
  events_before u t evs -> t <= t' -> Event.timestamp e <= t' ->
  events_before u t' (evs ++ [e]).
Proof.
  intros H Ht He e' [Hin| ->%list_elem_of_singleton]%elem_of_app Hu; [|done].
  specialize (H e' Hin Hu). lia.
Qed.

(** A session that starts after the end of every session of its identity
    overlaps none of them. *)
Lemma no_overlap_snoc ss s :
  no_overlap ss ->
  sessions_before (Session.username s) (Session.startTs s) ss ->
  no_overlap (ss ++ [s]).
Proof.
  intros Hno Hbefore.
  assert (Hnew : forall a, a ∈ ss -> ~ overlap a s).
  { intros a Ha [Hu Hlt]. specialize (Hbefore a Ha Hu). lia. }
  intros i j a b Hij Ha Hb.
  apply lookup_snoc_Some in Ha as [[Hi Ha]|[Hi <-]];
    apply lookup_snoc_Some in Hb as [[Hj Hb]|[Hj <-]].
  - by apply (Hno i j).
  - apply Hnew. by eapply list_elem_of_lookup_2.
  - intros Ho%overlap_sym. revert Ho. apply Hnew. by eapply list_elem_of_lookup_2.
  - lia.
Qed.

Lemma good_mono u t t' css evs ss :
  good u t css evs ss -> t <= t' -> good u t' css evs ss.
Proof.
  intros (Hno & Hs & He & Hm & Hl & Hc & Ho) Ht. repeat split; try done.
  - by eapply sessions_before_mono.
  - intros e Hin Hu. specialize (He e Hin Hu). lia.
  - intros c Hcss. specialize (Hc c Hcss). lia.
Qed.

Lemma good_event u t css evs ss e :
  good u t css evs ss -> t <= Event.timestamp e -> Event.username e = u ->
  good u (Event.timestamp e) css (evs ++ [e]) ss.
Proof.
  intros (Hno & Hs & He & Hm & Hl & Hc & Ho) Ht Hu. repeat split; try done.
  - by eapply sessions_before_mono.
  - by eapply events_before_snoc.
  - intros e' He'. rewrite lastEvent_snoc in He'.
    + injection He' as <-. by eapply sessions_before_mono.
    + done.
    + intros x Hx Hxu. specialize (He x Hx Hxu). lia.
  - intros c Hcss. specialize (Hc c Hcss). lia.
Qed.

Lemma good_marker_now u t css evs ss :
  good u t css evs ss -> good u t (Some t) evs ss.
Proof.
  intros (Hno & Hs & He & Hm & Hl & Hc & Ho). repeat split; try done.
  - intros c [[= <-] _]%truthy_num_Some. done.
  - intros c [[= <-] _]%truthy_num_Some. done.
Qed.

Lemma good_marker_none u t css css' evs ss :
  good u t css evs ss -> truthy_num css' = None -> good u t css' evs ss.
Proof.
  intros (Hno & Hs & He & Hm & Hl & Hc & Ho) Hnone. repeat split; try done.
  - intros c Hc'. congruence.
  - intros c Hc'. congruence.
Qed.

Lemma good_marker_last u t css evs ss e :
  good u t css evs ss -> lastEvent u evs = Some e ->
  good u t (Some (Event.timestamp e)) evs ss.
Proof.
  intros (Hno & Hs & He & Hm & Hl & Hc & Ho) Hlast. repeat split; try done.
  - intros c [[= <-] _]%truthy_num_Some. by apply Hl.
  - intros c [[= <-] _]%truthy_num_Some.
    destruct (lastEvent_elem _ _ _ Hlast) as [Hin Hu]. by apply He.
Qed.

(** Closing the open session at [t], once the event at [t] is recorded. *)
Lemma good_close u t css evs ss e c g :
  good u t css evs ss -> truthy_num css = Some c ->
  lastEvent u evs = Some e -> Event.timestamp e = t ->
  good u t None evs (ss ++ [Session.mk u c t (duration_of c t) g]).
Proof.
  intros (Hno & Hs & He & Hm & Hl & Hc & Ho) Hcss Hlast Ht.
  repeat split; try done.
  - apply no_overlap_snoc; [done|]. simpl. by apply Hm.
  - apply sessions_before_snoc; [done|]. simpl. lia.
  - intros e' He'. rewrite Hlast in He'. injection He' as <-. rewrite Ht.
    apply sessions_before_snoc; [done|]. simpl. lia.
  - apply Forall_app. split; [done|]. apply Forall_singleton.
    specialize (Hc c Hcss). split; simpl; [done|]. by apply floor_duration.
Qed.

(** The session synthesized by gap repair, together with the event that
    follows it. *)
Lemma good_gap u t t' css css' evs ss lastEv e g :
  good u t css evs ss -> lastEvent u evs = Some lastEv ->
  t <= t' -> Event.timestamp e = t' -> Event.username e = u ->
  (truthy_num css' = None \/ css' = Some t') ->
  good u t' css' (evs ++ [e])
    (ss ++ [Session.mk u (Event.timestamp lastEv) t'
              (duration_of (Event.timestamp lastEv) t') g]).
Proof.
  intros (Hno & Hs & He & Hm & Hl & Hc & Ho) Hlast Ht Het Heu Hcss.
  assert (Hss : sessions_before u t'
                  (ss ++ [Session.mk u (Event.timestamp lastEv) t'
                            (duration_of (Event.timestamp lastEv) t') g])).
  { apply sessions_before_snoc; [by eapply sessions_before_mono|]. simpl. lia. }
  assert (Hle : Event.timestamp lastEv <= t').
  { destruct (lastEvent_elem _ _ _ Hlast) as [Hin Hu].
    specialize (He _ Hin Hu). lia. }
  repeat split.
  - apply no_overlap_snoc; [done|]. simpl. by apply Hl.
  - done.
  - eapply events_before_snoc; [done|done|lia].
  - intros c Hc'. destruct Hcss as [Hnone| ->]; [congruence|].
    apply truthy_num_Some in Hc' as [[= <-] _]. done.
  - intros e' He'. rewrite lastEvent_snoc in He'.
    + injection He' as <-. by rewrite Het.
    + done.
    + intros x Hx Hxu. specialize (He x Hx Hxu). lia.
  - intros c Hc'. destruct Hcss as [Hnone| ->]; [congruence|].
    apply truthy_num_Some in Hc' as [[= <-] _]. done.
  - apply Forall_app. split; [done|]. apply Forall_singleton.
    split; simpl; [done|]. by apply floor_duration.
Qed.
End SessionTable.

Section EngineInvariant.
Variable who : string.

Lemma good_event' t ts css evs ss o g hb :
  good who t css evs ss -> t <= ts ->
  good who ts css (evs ++ [Event.mk who o g ts hb]) ss.
Proof. intros H Ht. by apply (good_event who t css evs ss (Event.mk who o g ts hb)). Qed.

Lemma good_close' t ts css evs ss o g hb c g' :
  good who t css evs ss -> t <= ts -> truthy_num css = Some c ->
  good who ts None (evs ++ [Event.mk who o g ts hb])
    (ss ++ [Session.mk who c ts (duration_of c ts) g']).
Proof.
  intros H Ht Hc.
  eapply (good_close who ts css _ ss (Event.mk who o g ts hb)); [|done| |done].
  - by apply (good_event' t).
  - apply lastEvent_snoc; [done|]. intros x Hx Hxu.
    destruct H as (_ & _ & He & _). specialize (He x Hx Hxu). simpl. lia.
Qed.

Ltac solve_good :=
  match goal with
  | H : good _ _ _ _ _ |- _ =>
      first
        [ exact H
        | by (eapply good_mono; [exact H|])
        | by (eapply good_event'; [exact H|])
        | by (eapply good_close'; [exact H| |])
        | by (eapply good_marker_now; eapply good_mono; [exact H|])
        | by (eapply good_marker_now; eapply good_event'; [exact H|])
        | by (eapply good_marker_none; [eapply good_mono; [exact H|]|])
        | by (eapply good_marker_none; [eapply good_event'; [exact H|]|]) ]
  end.

Lemma ingest_inv t w res ts :
  engine_inv who t w -> t <= ts ->
  engine_inv who ts (exec (onStatusResult res ts) w).
Proof.
  intros (Hok & Hu & Hgood) Ht. crush_world w.
  unfold store_ok in *; simpl in Hok; subst fs. subst u.
  destruct res as [o g].
  destruct lk as [[lo lg lts]|]; run_async.
  - destruct lo, o; decide_tests; simpl; unfold engine_inv, store_ok; simpl;
      (split; [done|split; [done|]]); solve_good.
  - destruct o; decide_tests; simpl; unfold engine_inv, store_ok; simpl;
      (split; [done|split; [done|]]); solve_good.
Qed.

Lemma repair_inv t w res ts :
  engine_inv who t w -> t <= ts ->
  engine_inv who ts (exec (onReopenFillGap res ts) w).
Proof.
  intros (Hok & Hu & Hgood) Ht.
  destruct (lastEvent (username (state w)) (events w)) as [lastEv|] eqn:Hlast.
  - assert (Hle : Event.timestamp lastEv <= ts).
    { apply lastEvent_elem in Hlast as Hin. destruct Hin as [Hin Hwho].
      destruct Hgood as (_ & _ & He & _). rewrite Hu in Hwho.
      specialize (He lastEv Hin Hwho). lia. }
    destruct (onReopenFillGap_run w res ts lastEv Hok Hlast Hle)
      as (Hok' & Hu' & Hev & _ & Hss & _ & Hcss).
    rewrite Hu in *.
    unfold engine_inv. rewrite Hev, Hss, Hcss. split; [done|split; [done|]].
    unfold event_of.
    destruct (Event.online lastEv && negb (Sample.online res)) eqn:Hb.
    + apply andb_true_iff in Hb as [_ Hoff%negb_true_iff]. rewrite Hoff.
      eapply good_gap; eauto.
    + destruct (Sample.online res); solve_good.
  - crush_world w. unfold store_ok in *; simpl in Hok; subst fs. subst u.
    destruct res as [o g]. run_repair. rewrite Hlast. simpl.
    destruct o; decide_tests; simpl; unfold engine_inv, store_ok; simpl;
      (split; [done|split; [done|]]); solve_good.
Qed.

Lemma reload_inv t w :
  engine_inv who t w -> engine_inv who t (exec (step_run Reload) w).
Proof.
  intros (Hok & Hu & Hgood). crush_world w.
  unfold store_ok in *; simpl in Hok; subst fs. subst u.
  run_repair. 
  destruct (lastEvent who evs) as [e|] eqn:Hlast; simpl;
    [destruct (Event.online e) eqn:Hon; simpl|];
    unfold engine_inv, store_ok; simpl; (split; [done|split; [done|]]).
  - by eapply good_marker_last.
  - by eapply good_marker_none.
  - by eapply good_marker_none.
Qed.

Lemma fresh_inv t : engine_inv who t (fresh who).
Proof.
  unfold engine_inv, fresh, store_ok, good; simpl.
  split; [done|split; [done|]]. repeat split.
  - intros i j a b _ Ha. by rewrite lookup_nil in Ha.
  - by intros s Hs%elem_of_nil.
  - by intros e He%elem_of_nil.
  - by intros c Hc.
  - by intros e He.
  - by intros c Hc.
  - done.
Qed.

Lemma run_steps_inv steps : forall t w,
  engine_inv who t w ->
  Forall on_page steps ->
  Forall (Z.le t) (times steps) ->
  StronglySorted Z.le (times steps) ->
  exists t', engine_inv who t' (run_steps steps w).
Proof.
  induction steps as [|s steps IH]; intros t w Hinv Hpage Hfrom Hsorted.
  - by exists t.
  - apply Forall_cons in Hpage as [Hs Hpage]. unfold run_steps; simpl.
    fold (run_steps steps (exec (step_run s) w)).
    destruct s as [res ts|res ts| |res ts]; simpl in *; try done.
    + apply Forall_cons in Hfrom as [Hts Hfrom].
      apply StronglySorted_inv in Hsorted as [Hsorted Hrest].
      apply (IH ts); try done. by apply (ingest_inv t).
    + apply Forall_cons in Hfrom as [Hts Hfrom].
      apply StronglySorted_inv in Hsorted as [Hsorted Hrest].
      apply (IH ts); try done. by apply (repair_inv t).
    + apply (IH t); try done. by apply reload_inv.
Qed.
End EngineInvariant.

(** The invariant holds after every chronological run of the page that
    starts on an empty database. *)
Lemma run_steps_fresh_inv (u : string) (steps : list step) :
  Forall on_page steps ->
  Sorted Z.le (times steps) ->
  exists t, engine_inv u t (run_steps steps (fresh u)).
Proof.
  intros Hpage Hsorted.
  apply Sorted_StronglySorted in Hsorted; [|intros x y z; lia].
  apply (run_steps_inv u steps
           (match times steps with [] => 0 | t :: _ => t end) (fresh u));
    try done.
  - apply fresh_inv.
  - destruct (times steps) as [|t l]; [done|].
    apply StronglySorted_inv in Hsorted as [_ Hl].
    apply Forall_cons. split; [lia|done].
Qed.

(** ** C5: sessions never overlap *)

(** C5 (as amended). For every sequence of ingests, gap repairs and reloads
    of the page whose timestamps never decrease, on a store that accepts
    the requests, no two sessions of the table overlap, and when a session
    is open its start is not earlier than the end of any session of the
    user. The checks of the service worker are left out: each offline one
    writes an approximate session of five minutes. *)
Theorem page_sessions_never_overlap (u : string) (steps : list step) :
  Forall on_page steps ->
  Sorted Z.le (times steps) ->
  let w := run_steps steps (fresh u) in
  no_overlap (sessions w)
  /\ (forall c s, truthy_num (currentSessionStart (state w)) = Some c ->
        s ∈ sessions w -> Session.username s = u -> Session.endTs s <= c).
Proof.
  intros Hpage Hsorted w.
  destruct (run_steps_fresh_inv u steps Hpage Hsorted)
    as (t & _ & _ & Hno & _ & _ & Hm & _).
  split; [done|]. intros c s Hc Hs Hu. by apply (Hm c Hc s).
Qed.

(** C5, counterexample. A session closed by the page at 1600000 and an
    offline check of the service worker one minute later: the worker
    writes the session [[1360000, 1660000)], which overlaps the first. *)
Lemma page_sessions_never_overlap_counterexample :
  let steps := [Ingest (Sample.mk true (Some "Jogo A")) 1000000;
                Ingest (Sample.mk false None) 1600000;
                WorkerCheck (Sample.mk false None) 1660000] in
  sessions (run_steps steps (fresh "bob"))
  = [Session.mk "bob" 1000000 1600000 600 (Some "Jogo A");
     Session.mk "bob" 1360000 1660000 300 None]
  /\ ~ no_overlap (sessions (run_steps steps (fresh "bob"))).
Proof.
  intros steps.
  assert (Hss : sessions (run_steps steps (fresh "bob"))
                = [Session.mk "bob" 1000000 1600000 600 (Some "Jogo A");
                   Session.mk "bob" 1360000 1660000 300 None])
    by (vm_compute; reflexivity).
  split; [exact Hss|]. rewrite Hss. intros Hno.
  apply (Hno 0%nat 1%nat _ _ ltac:(done) eq_refl eq_refl).
  split; simpl; [done|lia].
Qed.

Lemma page_sessions_never_overlap_witness :
  let steps := [Ingest (Sample.mk true (Some "Jogo A")) 1000;
                Ingest (Sample.mk false None) 601000;
                Reload;
                Repair (Sample.mk true (Some "Jogo B")) 700000;
                Ingest (Sample.mk false None) 800000] in
  no_overlap (sessions (run_steps steps (fresh "bob"))).
Proof.
  intros steps.
  refine (proj1 (page_sessions_never_overlap "bob" steps _ _)).
  - repeat constructor.
  - repeat constructor; simpl; lia.
Defined.

(** ** Every session that is written *)

Section Grows.
Context {R : Type} (field : World -> list R) (P : R -> Prop).
Hypothesis field_faults : forall fs w, field (with_faults fs w) = field w.

Lemma grows_nothing {A} (m : Async A) :
  (forall w, field (exec m w) = field w) -> grows field P m.
Proof. intros H w. exists []. by rewrite H, app_nil_r. Qed.

Lemma grows_bind {A B} (m : Async A) (k : A -> Async B) :
  grows field P m -> (forall a, grows field P (k a)) -> grows field P (bind m k).
Proof.
  intros Hm Hk w. destruct (Hm w) as (l1 & H1 & HP1).
  unfold exec, bind in *. destruct (m w) as [[a|r] w1]; simpl in *.
  - destruct (Hk a w1) as (l2 & H2 & HP2). exists (l1 ++ l2).
    unfold exec in H2. rewrite H2, H1, app_assoc. split; [done|]. by apply Forall_app.
  - by exists l1.
Qed.

Lemma grows_try_catch (m : Async unit) :
  grows field P m -> grows field P (try_catch m).
Proof.
  intros Hm w. destruct (Hm w) as (l & H & HP). exists l.
  unfold exec, try_catch in *. by destruct (m w) as [[a|r] w1].
Qed.

Lemma grows_request {A} (run : World -> A * World) :
  (forall w, exists l, field (run w).2 = field w ++ l /\ Forall P l) ->
  grows field P (request run).
Proof.
  intros Hrun w. unfold exec, request.
  destruct (faults w) as [|[|n] fs]; simpl.
  - destruct (Hrun w) as (l & H & HP). destruct (run w) as [a w1]. by exists l.
  - exists []. by rewrite app_nil_r, field_faults.
  - destruct (Hrun (with_faults (n :: fs) w)) as (l & H & HP).
    destruct (run _) as [a w1]. exists l. simpl in *. by rewrite H, field_faults.
Qed.
End Grows.

Lemma writes_dbAdd_sessions P s : P s -> writes P (dbAdd_sessions s).
Proof.
  intros Hs. apply grows_request; [done|]. intros w. exists [s]. split; [done|].
  by apply Forall_singleton.
Qed.

Lemma writes_dbAdd_events P e : writes P (dbAdd_events e).
Proof.
  apply grows_request; [done|]. intros w. exists []. by rewrite app_nil_r.
Qed.

Lemma records_dbAdd_events P e : P e -> records P (dbAdd_events e).
Proof.
  intros He. apply grows_request; [done|]. intros w. exists [e]. split; [done|].
  by apply Forall_singleton.
Qed.

Lemma records_dbAdd_sessions P s : records P (dbAdd_sessions s).
Proof.
  apply grows_request; [done|]. intros w. exists []. by rewrite app_nil_r.
Qed.

Lemma grows_dbGetAll_events {R} (field : World -> list R) P :
  (forall fs w, field (with_faults fs w) = field w) ->
  grows field P dbGetAll_events.
Proof.
  intros Hf. apply grows_request; [done|]. intros w. exists []. by rewrite app_nil_r.
Qed.

Ltac grows_step :=
  first
    [ apply grows_bind; [|intros ?]
    | apply grows_try_catch
    | apply writes_dbAdd_events
    | apply writes_dbAdd_sessions
    | apply records_dbAdd_sessions
    | by apply records_dbAdd_events
    | by apply grows_dbGetAll_events
    | by apply grows_nothing
    | match goal with
      | |- grows _ _ (if ?b then _ else _) => destruct b
      | |- grows _ _ (match ?x with _ => _ end) => destruct x eqn:?
      end ].



Lemma writes_repairStateFromDB P : writes P repairStateFromDB.
Proof. unfold repairStateFromDB. repeat grows_step. Qed.

Lemma records_repairStateFromDB P : records P repairStateFromDB.
Proof. unfold repairStateFromDB. repeat grows_step. Qed.

Lemma writes_updateUILive P o g : writes P (updateUILive o g).
Proof. unfold updateUILive. repeat grows_step. Qed.

Lemma records_updateUILive P o g : records P (updateUILive o g).
Proof. unfold updateUILive. repeat grows_step. Qed.

(** Every event an ingest or a gap repair records carries the timestamp
    of the call. *)
Lemma records_addStatusEvent u o g ts :
  records (fun e => Event.timestamp e = ts) (addStatusEvent u o g ts).
Proof. unfold addStatusEvent. repeat grows_step. Qed.

Lemma records_onStatusResult res ts :
  records (fun e => Event.timestamp e = ts) (onStatusResult res ts).
Proof.
  unfold onStatusResult.
  repeat first [ apply records_addStatusEvent | apply records_updateUILive
               | grows_step ].
Qed.

Lemma records_onReopenFillGap res ts :
  records (fun e => Event.timestamp e = ts) (onReopenFillGap res ts).
Proof.
  unfold onReopenFillGap.
  repeat first [ apply records_addStatusEvent | apply records_repairStateFromDB
               | grows_step ].
Qed.

(** Every event that is recorded, by the page or by the service worker,
    has a label for activity: [null] or a non-empty string. *)
Lemma records_labels :
  (forall res ts,
     records (fun e => label_ok (Event.gameName e)) (onStatusResult res ts))
  /\ (forall res ts,
        records (fun e => label_ok (Event.gameName e)) (onReopenFillGap res ts))
  /\ (forall u res ts,
        records (fun e => label_ok (Event.gameName e)) (workerSaveEvent u res ts)).
Proof.
  assert (Hadd : forall u o g ts,
            records (fun e => label_ok (Event.gameName e)) (addStatusEvent u o g ts)).
  { intros. unfold addStatusEvent.
    repeat first [ apply records_dbAdd_events, or_null_is_label | grows_step ]. }
  split; [|split]; intros.
  - unfold onStatusResult.
    repeat first [ apply Hadd | apply records_updateUILive
                 | apply records_dbAdd_events, or_null_is_label | grows_step ].
  - unfold onReopenFillGap.
    repeat first [ apply Hadd | apply records_repairStateFromDB
                 | apply records_dbAdd_events, or_null_is_label | grows_step ].
  - unfold workerSaveEvent.
    repeat first [ apply records_dbAdd_events, or_null_is_label | grows_step ].
Qed.




(** ** The invariant of the runs of the page *)

Lemma marker_set_repair_first (w : World) (res : Sample.t) (ts : Z) :
  store_ok w ->
  lastEvent (username (state w)) (events w) = None ->
  ts <> 0 ->
  marker_set (state (exec (onReopenFillGap res ts) w)).
Proof.
  intros Hok Hlast Hts. crush_world w.
  unfold store_ok in *; simpl in Hok; subst fs. destruct res as [o g].
  pose proof (truthy_num_nonzero ts Hts) as Hnz.
  run_repair. rewrite Hlast. simpl.
  destruct o; decide_tests; simpl; intros lk' [= <-]; simpl; intros Hon;
    rewrite ?Hnz; eauto; done.
Qed.

Lemma nonzero_grows {A} (m : Async A) (ts : Z) (w : World) :
  records (fun e => Event.timestamp e = ts) m -> ts <> 0 ->
  Forall (fun e => Event.timestamp e <> 0) (events w) ->
  Forall (fun e => Event.timestamp e <> 0) (events (exec m w)).
Proof.
  intros Hm Hts Hw. destruct (Hm w) as (l & -> & Hl).
  apply Forall_app. split; [done|].
  eapply Forall_impl; [exact Hl|]. simpl. intros e ->. done.
Qed.

Lemma page_inv_step (who : string) (t : Z) (w : World) (s : step) :
  page_inv who t w -> on_page s ->
  (forall ts, step_time s = Some ts -> t <= ts /\ ts <> 0) ->
  page_inv who (default t (step_time s)) (exec (step_run s) w).
Proof.
  intros (Hinv & Hm & Hnz) Hs Hts.
  destruct s as [res ts|res ts| |res ts]; simpl in *; try done.
  - destruct (Hts ts eq_refl) as [Hle Hts0]. split; [|split].
    + by apply (ingest_inv who t).
    + by apply marker_set_ingest.
    + apply (nonzero_grows _ ts); [apply records_onStatusResult|done|done].
  - destruct (Hts ts eq_refl) as [Hle Hts0]. split; [|split].
    + by apply (repair_inv who t).
    + destruct Hinv as (Hok & Hu & Hgood).
      destruct (lastEvent (username (state w)) (events w)) as [lastEv|] eqn:Hlast.
      * apply (marker_set_repair w res ts lastEv); try done.
        destruct (lastEvent_elem _ _ _ Hlast) as [Hin Hwho].
        destruct Hgood as (_ & _ & He & _). rewrite Hu in Hwho.
        specialize (He lastEv Hin Hwho). lia.
      * by apply marker_set_repair_first.
    + apply (nonzero_grows _ ts); [apply records_onReopenFillGap|done|done].
  - split; [|split].
    + by apply reload_inv.
    + destruct Hinv as (Hok & Hu & Hgood). clear Hgood Hm Hts.
      crush_world w. unfold store_ok in *; simpl in Hok; subst fs.
      run_repair.
      destruct (lastEvent u evs) as [e|] eqn:Hlast; simpl;
        [destruct (Event.online e) eqn:Hon; simpl|]; intros lk' [= <-]; try done.
      simpl. intros _. destruct (lastEvent_elem _ _ _ Hlast) as [Hin _].
      rewrite Forall_forall in Hnz. rewrite truthy_num_nonzero by auto. eauto.
    + clear Hinv Hm Hts. crush_world w. run_repair.
      destruct fs as [|[|n'] fs]; simpl; try done;
        (destruct (lastEvent u evs) as [e|]; simpl;
         [destruct (Event.online e); simpl|]; done).
Qed.

Lemma page_inv_run (who : string) (steps : list step) : forall t w,
  page_inv who t w ->
  Forall on_page steps ->
  Forall (fun ts => t <= ts /\ ts <> 0) (times steps) ->
  StronglySorted Z.le (times steps) ->
  exists t', page_inv who t' (run_steps steps w).
Proof.
  induction steps as [|s steps IH]; intros t w Hinv Hpage Hfrom Hsorted.
  - by exists t.
  - apply Forall_cons in Hpage as [Hs Hpage]. unfold run_steps; simpl.
    fold (run_steps steps (exec (step_run s) w)).
    apply (IH (default t (step_time s))); try done.
    + apply page_inv_step; try done. intros ts Hts.
      unfold times in Hfrom. simpl in Hfrom. rewrite Hts in Hfrom.
      by apply Forall_cons in Hfrom as [? _].
    + unfold times in *. simpl in *.
      destruct (step_time s) as [ts|]; simpl in *; [|done].
      apply Forall_cons in Hfrom as [[_ Hts] Hfrom].
      apply StronglySorted_inv in Hsorted as [_ Hrest].
      rewrite Forall_forall in *. intros x Hx. split; [by apply Hrest|].
      by apply Hfrom.
    + unfold times in *. simpl in *.
      destruct (step_time s) as [ts|]; simpl in *; [|done].
      by apply StronglySorted_inv in Hsorted as [? _].
Qed.

(** Whenever the last known status is online a session start is set, in
    every state the page reaches by a run whose timestamps never decrease
    and are not [0], on a store that accepts the requests. *)
Lemma page_marker_set (u : string) (steps : list step) :
  Forall on_page steps ->
  Sorted Z.le (times steps) ->
  Forall (fun ts => ts <> 0) (times steps) ->
  marker_set (state (run_steps steps (fresh u))).
Proof.
  intros Hpage Hsorted Hnz.
  apply Sorted_StronglySorted in Hsorted; [|intros x y z; lia].
  destruct (page_inv_run u steps
              (match times steps with [] => 0 | t :: _ => t end) (fresh u))
    as (t & _ & Hm & _); try done.
  - split; [apply fresh_inv|]. split; [by intros lk|]. by apply Forall_nil.
  - destruct (times steps) as [|t l]; [done|].
    apply StronglySorted_inv in Hsorted as [_ Hl].
    rewrite Forall_forall in *. intros x Hx. split; [|by apply Hnz].
    apply elem_of_cons in Hx as [->|Hx]; [lia|by apply Hl].
Qed.

(** ** Polling an unchanged state *)

Lemma strict_ne_refl a : strict_ne a a = false.
Proof. by apply strict_ne_false. Qed.

(** An ingest of the state already known, within the heartbeat period of
    the last known status, writes nothing and moves the last known status
    to the instant of the call. *)
Lemma onStatusResult_quiet (w : World) (res : Sample.t) (t ts : Z) :
  lastKnownStatus (state w)
    = Some (Status.mk (Sample.online res) (activity res) t) ->
  ts - t <= 30 * 60 * 1000 ->
  let w' := exec (onStatusResult res ts) w in
  events w' = events w
  /\ sessions w' = sessions w
  /\ lastKnownStatus (state w')
     = Some (Status.mk (Sample.online res) (activity res) ts).
Proof.
  intros Hlk Hts. crush_world w. subst lk. destruct res as [o g].
  run_async. rewrite Bool.eqb_reflx, strict_ne_refl, andb_false_r. simpl.
  replace (heartbeatMs <? ts - t) with false
    by (symmetry; apply heartbeat_not_elapsed; lia).
  simpl. destruct o; decide_tests; done.
Qed.

(** C7. What the code does when the same sample is ingested at every poll
    interval after an event at [t]: every call moves the last known status
    to its own instant, so the thirty minutes never elapse and no event,
    heartbeat or other, is ever written, at minute 31 no more than
    before. *)
Theorem polls_never_heartbeat (res : Sample.t) (n : nat) : forall (t : Z) (w : World),
  lastKnownStatus (state w)
    = Some (Status.mk (Sample.online res) (activity res) t) ->
  events (polls res t n w) = events w
  /\ sessions (polls res t n w) = sessions w.
Proof.
  induction n as [|n IH]; intros t w Hlk; simpl; [done|].
  destruct (onStatusResult_quiet w res t (t + pollIntervalMs) Hlk)
    as (Hev & Hss & Hlk'); [unfold pollIntervalMs; lia|].
  destruct (IH _ _ Hlk') as [Hev' Hss']. by rewrite Hev', Hss'.
Qed.

Lemma polls_never_heartbeat_witness :
  let sample := Sample.mk true (Some "Jogo A") in
  let w0 := exec (onStatusResult sample 1000000) (fresh "bob") in
  events (polls sample 1000000 31 w0) = [event_of "bob" sample 1000000 false]
  /\ sessions (polls sample 1000000 31 w0) = [].
Proof.
  intros sample w0.
  exact (polls_never_heartbeat sample 31 1000000 w0 eq_refl).
Defined.

(** ** Store failures *)



(** ** The simulator *)

Lemma index_elem {A} (arr : list A) (i : option Z) (x : A) :
  index arr i = Some x -> x ∈ arr.
Proof.
  unfold index. destruct i as [z|]; [|done].
  destruct (z <? 0); [done|]. apply list_elem_of_lookup_2.
Qed.

Lemma games_nonempty g : g ∈ games -> g <> "".
Proof.
  unfold games. rewrite !elem_of_cons, elem_of_nil.
  intros [->|[->|[->|[->|[->|[]]]]]]; discriminate.
Qed.

Lemma simulate_label_ok `{JSNumber} (now : Z) (username : string) :
  label_ok (Sample.gameName (simulate now username)).
Proof.
  unfold label_ok, simulate; simpl. destruct (float_gt _ _); [|done].
  intros Hg%index_elem%games_nonempty. done.
Qed.



(** ** The simulator flag *)

Section KeepsSim.
Lemma keeps_frame {A} (m : Async A) :
  (forall w, useSimulator (state (exec m w)) = useSimulator (state w)
             /\ localStorage (exec m w) = localStorage w
             /\ consulted (exec m w) = consulted w) ->
  keeps_sim m.
Proof.
  intros H w [Hs Hl]. destruct (H w) as (H1 & H2 & H3).
  unfold sim_on. by rewrite H1, H2, H3.
Qed.

Lemma keeps_bind {A B} (m : Async A) (k : A -> Async B) :
  keeps_sim m -> (forall a, keeps_sim (k a)) -> keeps_sim (bind m k).
Proof.
  intros Hm Hk w Hw. destruct (Hm w Hw) as [H1 H2].
  unfold exec, bind in *. destruct (m w) as [[a|r] w1]; simpl in *; [|done].
  destruct (Hk a w1 H1) as [H3 H4]. unfold exec in *. split; [done|congruence].
Qed.

Lemma keeps_try_catch (m : Async unit) : keeps_sim m -> keeps_sim (try_catch m).
Proof.
  intros Hm w Hw. destruct (Hm w Hw) as [H1 H2].
  unfold exec, try_catch in *. by destruct (m w) as [[a|r] w1].
Qed.

Lemma keeps_request {A} (run : World -> A * World) :
  (forall w, useSimulator (state (run w).2) = useSimulator (state w)
             /\ localStorage (run w).2 = localStorage w
             /\ consulted (run w).2 = consulted w) ->
  keeps_sim (request run).
Proof.
  intros Hrun. apply keeps_frame. intros w. unfold exec, request.
  destruct (faults w) as [|[|n'] fs]; try done.
  - destruct (Hrun w) as (H1 & H2 & H3). by destruct (run w) as [a w1].
  - destruct (Hrun (with_faults (n' :: fs) w)) as (H1 & H2 & H3).
    by destruct (run _) as [a w1].
Qed.

Lemma keeps_set_useSimulator : keeps_sim (set_useSimulator true).
Proof. by intros w [Hs Hl]. Qed.

Lemma keeps_setItem_flag : keeps_sim (localStorage_setItem "rb_use_sim" "true").
Proof.
  intros w [Hs Hl]. unfold sim_on, exec; simpl. by rewrite lookup_insert_eq.
Qed.

Lemma keeps_setItem_other k v :
  k <> "rb_use_sim" -> keeps_sim (localStorage_setItem k v).
Proof.
  intros Hk w [Hs Hl]. unfold sim_on, exec; simpl.
  by rewrite lookup_insert_ne.
Qed.
End KeepsSim.

Ltac keeps_step :=
  first
    [ apply keeps_bind; [|intros ?]
    | apply keeps_try_catch
    | apply keeps_set_useSimulator
    | apply keeps_setItem_flag
    | by apply keeps_setItem_other
    | by apply keeps_request
    | by apply keeps_frame
    | match goal with
      | |- keeps_sim (if ?b then _ else _) => destruct b
      | |- keeps_sim (match ?x with _ => _ end) => destruct x eqn:?
      end ].

Lemma keeps_addStatusEvent u o g ts : keeps_sim (addStatusEvent u o g ts).
Proof.
  unfold addStatusEvent, dbAdd_events, dbAdd_sessions. repeat keeps_step.
Qed.

Lemma keeps_repairStateFromDB : keeps_sim repairStateFromDB.
Proof. unfold repairStateFromDB, dbGetAll_events. repeat keeps_step. Qed.

Lemma keeps_onStatusResult res ts : keeps_sim (onStatusResult res ts).
Proof.
  unfold onStatusResult, updateUILive, dbAdd_events.
  repeat first [ apply keeps_addStatusEvent | keeps_step ].
Qed.

Lemma keeps_onReopenFillGap res ts : keeps_sim (onReopenFillGap res ts).
Proof.
  unfold onReopenFillGap, dbGetAll_events, dbAdd_events, dbAdd_sessions.
  repeat first [ apply keeps_addStatusEvent | apply keeps_repairStateFromDB
               | keeps_step ].
Qed.

Section Polling.
Context `{JSNumber}.

Lemma keeps_simulateStatus u : keeps_sim (simulateStatus u).
Proof. unfold simulateStatus, Date_now. repeat keeps_step. Qed.

(** With the flag set, [fetchRobloxStatus] is the simulator. *)
Lemma keeps_fetchRobloxStatus u : keeps_sim (fetchRobloxStatus u).
Proof.
  intros w Hw. unfold fetchRobloxStatus.
  destruct (String.eqb u ""); [done|].
  unfold exec, bind, get_state; simpl. destruct Hw as [Hs Hl]. rewrite Hs.
  exact (keeps_simulateStatus u w (conj Hs Hl)).
Qed.

Lemma keeps_currentStatus u : keeps_sim (currentStatus u).
Proof.
  unfold currentStatus.
  repeat first [ apply keeps_simulateStatus | apply keeps_fetchRobloxStatus
               | keeps_step ].
Qed.

Lemma keeps_checkAndRecord : keeps_sim checkAndRecord.
Proof.
  unfold checkAndRecord, Date_now.
  repeat first [ apply keeps_simulateStatus | apply keeps_fetchRobloxStatus
               | apply keeps_onStatusResult | keeps_step ].
Qed.

Lemma keeps_pollOnce : keeps_sim pollOnce.
Proof. unfold pollOnce. repeat first [ apply keeps_checkAndRecord | keeps_step ]. Qed.

Lemma keeps_onVisible : keeps_sim onVisible.
Proof.
  unfold onVisible, Date_now.
  repeat first [ apply keeps_pollOnce | apply keeps_currentStatus
               | apply keeps_onReopenFillGap | keeps_step ].
Qed.

Lemma keeps_setUsername u : keeps_sim (setUsername u).
Proof.
  unfold setUsername, Date_now.
  repeat first [ apply keeps_pollOnce | apply keeps_currentStatus
               | apply keeps_onReopenFillGap | apply keeps_repairStateFromDB
               | keeps_step ].
Qed.

Lemma keeps_resetHistory : keeps_sim resetHistory.
Proof. unfold resetHistory, dbClear_events, dbClear_sessions. repeat keeps_step. Qed.

(** The flag survives a reload of the page because it was persisted. *)
Lemma keeps_pageLoad : keeps_sim pageLoad.
Proof.
  intros w [Hs Hl]. unfold exec, pageLoad. rewrite Hl.
  rewrite bool_decide_eq_true_2 by done.
  destruct (String.eqb _ ""); [done|].
  by apply (keeps_setUsername _ (with_state _ w)).
Qed.

Lemma keeps_handle h : no_toggle h -> keeps_sim (handle h).
Proof.
  destruct h; simpl; [| | | | | |done]; intros _.
  - by apply keeps_frame.
  - apply keeps_pollOnce.
  - apply keeps_onVisible.
  - apply keeps_try_catch, keeps_pageLoad.
  - apply keeps_try_catch, keeps_setUsername.
  - apply keeps_try_catch, keeps_resetHistory.
Qed.

Lemma keeps_dispatch hs : forall w,
  Forall no_toggle hs -> sim_on w ->
  sim_on (dispatch hs w) /\ consulted (dispatch hs w) = consulted w.
Proof.
  induction hs as [|h hs IH]; intros w Hhs Hw; [done|].
  apply Forall_cons in Hhs as [Hh Hhs].
  destruct (keeps_handle h Hh w Hw) as [H1 H2].
  destruct (IH _ Hhs H1) as [H3 H4].
  unfold dispatch in *; simpl. split; [done|]. unfold exec in *. congruence.
Qed.

(** The poll on which the real lookup asks for the fallback: the flag is
    set and persisted, and the sample of the simulator is ingested. *)
Lemma checkAndRecord_fallback (w : World) :
  username (state w) <> "" ->
  useSimulator (state w) = false ->
  fallback_reply (next_reply w) ->
  exists w0,
    checkAndRecord w
    = onStatusResult (simulate (clock w) (username (state w))) (clock w) w0
    /\ sim_on w0 /\ consulted w0 = S (consulted w).
Proof.
  intros Hu Hsim Hreply. crush_world w. subst sim.
  apply String.eqb_neq in Hu.
  unfold next_reply in Hreply; simpl in Hreply.
  unfold checkAndRecord, fetchRobloxStatus, real_lookup, bind, get_state,
    Date_now; simpl. rewrite Hu. simpl.
  destruct net as [|[] net']; simpl in *; try done;
    (eexists; split; [reflexivity|]; split; [|done]);
    (split; [done|]); simpl; by rewrite lookup_insert_eq.
Qed.

Lemma checkAndRecord_simulated (w : World) :
  sim_on w -> username (state w) <> "" ->
  checkAndRecord w
  = onStatusResult (simulate (clock w) (username (state w))) (clock w) w.
Proof.
  intros [Hs Hl] Hu. crush_world w. subst sim.
  apply String.eqb_neq in Hu.
  unfold checkAndRecord, fetchRobloxStatus, bind, get_state, Date_now; simpl.
  rewrite Hu. simpl. reflexivity.
Qed.

(** C10. When the real lookup of a poll asks for the fallback,
    [checkAndRecord] sets the simulator flag, in the runtime state and in
    [localStorage], after that one lookup. From then on, whatever the page
    handles other than a change of the simulator checkbox, the flag stays
    set and the presence service is never consulted again: a poll ingests
    the sample of the simulator. *)
Theorem fallback_is_permanent (w : World) :
  username (state w) <> "" ->
  useSimulator (state w) = false ->
  fallback_reply (next_reply w) ->
  let w1 := exec checkAndRecord w in
  (sim_on w1 /\ consulted w1 = S (consulted w))
  /\ (forall hs, Forall no_toggle hs ->
        sim_on (dispatch hs w1) /\ consulted (dispatch hs w1) = consulted w1)
  /\ (forall w2, sim_on w2 -> username (state w2) <> "" ->
        checkAndRecord w2
        = onStatusResult (simulate (clock w2) (username (state w2)))
            (clock w2) w2).
Proof.
  intros Hu Hsim Hreply w1.
  assert (Hw1 : sim_on w1 /\ consulted w1 = S (consulted w)).
  { destruct (checkAndRecord_fallback w Hu Hsim Hreply) as (w0 & Heq & Hw0 & Hn).
    subst w1. unfold exec. rewrite Heq.
    destruct (keeps_onStatusResult (simulate (clock w) (username (state w)))
                (clock w) w0 Hw0) as [H1 H2].
    split; [done|]. unfold exec in H2. congruence. }
  split; [done|]. split.
  - intros hs Hhs. apply keeps_dispatch; [done|]. apply Hw1.
  - apply checkAndRecord_simulated.
Qed.
End Polling.

Lemma fallback_is_permanent_witness :
  let w := mkWorld (mkState "bob" false None None) [] [] [] ∅ 120000
             [FetchError "Failed to fetch"] 0 in
  let w1 := exec (@checkAndRecord fixedPoint) w in
  sim_on w1 /\ consulted w1 = 1%nat.
Proof.
  intros w w1.
  refine (proj1 (@fallback_is_permanent fixedPoint w _ _ _)).
  - discriminate.
  - reflexivity.
  - exact I.
Defined.

(** * Further properties of the code *)

Section PageLookup.
Context `{JSNumber}.

(** X1. With an empty user name [fetchRobloxStatus] throws before it
    reads anything. With a user name it always resolves, leaves the
    runtime state and both stores as they were, and consults the presence
    service once, or not at all when the simulator is on; the activity of
    an ok result is [null] or a non-empty label; and every result that is
    not ok asks for the fallback, so the branch of [checkAndRecord] for a
    failure without fallback is never taken. *)
Theorem fetchRobloxStatus_results :
  (forall w, fetchRobloxStatus "" w = (Rejected "username vazio", w))
  /\ (forall username w, username <> "" ->
        exists res,
          (fetchRobloxStatus username w).1 = Resolved res
          /\ (forall s, res = Ok s -> label_ok (Sample.gameName s))
          /\ (forall reason fallback, res = NotOk reason fallback ->
                fallback = true /\ useSimulator (state w) = false)
          /\ let w' := exec (fetchRobloxStatus username) w in
             state w' = state w /\ events w' = events w
             /\ sessions w' = sessions w
             /\ consulted w'
                = (if useSimulator (state w) then consulted w
                   else S (consulted w))).
Proof.
  split; [done|]. intros username w Hu%String.eqb_neq.
  crush_world w. unfold exec, fetchRobloxStatus. rewrite Hu.
  unfold bind, get_state; simpl. destruct sim.
  - eexists. split; [reflexivity|]. split; [|done].
    intros s [= <-]. apply simulate_label_ok.
  - unfold real_lookup; simpl.
    destruct net as [|[reason| | |upt root univ gid] net']; simpl;
      (eexists; split; [reflexivity|]); (split; [|split; [|done]]);
      try (intros ? ? [= <- <-]; done); try (intros ? [=]; done);
      try (intros ? [= <-]; done).
    intros s [= <-]. simpl.
    destruct (truthy_num root), (truthy_num univ), (truthy_num gid); done.
Qed.
End PageLookup.

Section Appends.
Context {R : Type} (field : World -> list R).

Lemma appends_nothing {A} (m : Async A) :
  grows field (fun _ => False) m -> appends field 0 m.
Proof.
  intros Hm w. destruct (Hm w) as (l & Hl & HP). exists l. split; [done|].
  destruct l as [|x l]; [done|]. by apply Forall_cons in HP as [[] _].
Qed.

Lemma appends_mono {A} (m : Async A) (n n' : nat) :
  (n <= n')%nat -> appends field n m -> appends field n' m.
Proof. intros Hn Hm w. destruct (Hm w) as (l & Hl & Hlen). exists l. split; [done|lia]. Qed.

Lemma appends_bind {A B} (m : Async A) (k : A -> Async B) (n1 n2 : nat) :
  appends field n1 m -> (forall a, appends field n2 (k a)) ->
  appends field (n1 + n2) (bind m k).
Proof.
  intros Hm Hk w. destruct (Hm w) as (l1 & H1 & Hlen1).
  unfold exec, bind in *. destruct (m w) as [[a|r] w1]; simpl in *.
  - destruct (Hk a w1) as (l2 & H2 & Hlen2). exists (l1 ++ l2).
    unfold exec in H2. rewrite H2, H1, app_assoc, length_app. split; [done|lia].
  - exists l1. split; [done|lia].
Qed.

Lemma appends_then {A B} (m : Async A) (k : A -> Async B) (n : nat) :
  appends field 0 m -> (forall a, appends field n (k a)) ->
  appends field n (bind m k).
Proof. intros Hm Hk. by apply (appends_bind m k 0 n). Qed.

Lemma appends_first {A B} (m : Async A) (k : A -> Async B) (n : nat) :
  appends field n m -> (forall a, appends field 0 (k a)) ->
  appends field n (bind m k).
Proof.
  intros Hm Hk. apply (appends_mono _ (n + 0)); [lia|]. by apply appends_bind.
Qed.

Lemma appends_try_catch (m : Async unit) (n : nat) :
  appends field n m -> appends field n (try_catch m).
Proof.
  intros Hm w. destruct (Hm w) as (l & Hl & Hlen). exists l.
  unfold exec, try_catch in *. by destruct (m w) as [[a|r] w1].
Qed.
End Appends.

Lemma appends_dbAdd_events e : appends events 1 (dbAdd_events e).
Proof.
  intros w. unfold exec, dbAdd_events, request.
  destruct (faults w) as [|[|n] fs]; simpl.
  - exists [e]. split; [done|simpl; lia].
  - exists []. rewrite app_nil_r. split; [done|simpl; lia].
  - exists [e]. split; [done|simpl; lia].
Qed.

Lemma appends_dbAdd_sessions s : appends sessions 1 (dbAdd_sessions s).
Proof.
  intros w. unfold exec, dbAdd_sessions, request.
  destruct (faults w) as [|[|n] fs]; simpl.
  - exists [s]. split; [done|simpl; lia].
  - exists []. rewrite app_nil_r. split; [done|simpl; lia].
  - exists [s]. split; [done|simpl; lia].
Qed.

(** A computation that leaves a store alone. *)
Ltac appends_none :=
  apply appends_nothing;
  repeat first [ apply writes_repairStateFromDB | apply records_repairStateFromDB
               | apply writes_updateUILive | apply records_updateUILive
               | grows_step ].

Ltac appends_step :=
  first
    [ apply appends_dbAdd_events
    | apply appends_dbAdd_sessions
    | apply appends_try_catch
    | solve [appends_none]
    | apply (appends_mono _ _ 0%nat); [lia|solve [appends_none]]
    | apply appends_then; [solve [appends_none]|intros ?]
    | apply appends_first; [|intros ?; solve [appends_none]]
    | match goal with
      | |- appends _ _ (if ?b then _ else _) => destruct b
      | |- appends _ _ (match ?x with _ => _ end) => destruct x eqn:?
      end ].

Lemma appends_addStatusEvent u o g ts :
  appends events 1 (addStatusEvent u o g ts)
  /\ appends sessions 1 (addStatusEvent u o g ts).
Proof. split; unfold addStatusEvent; repeat appends_step. Qed.

Lemma appends_onStatusResult res ts :
  appends events 1 (onStatusResult res ts)
  /\ appends sessions 1 (onStatusResult res ts).
Proof.
  split; unfold onStatusResult;
    repeat first [ apply appends_addStatusEvent | appends_step ].
Qed.

Lemma appends_onReopenFillGap res ts :
  appends events 1 (onReopenFillGap res ts)
  /\ appends sessions 1 (onReopenFillGap res ts).
Proof.
  split; unfold onReopenFillGap;
    repeat first [ apply appends_addStatusEvent | appends_step ].
Qed.

Section PollAppends.
Context `{JSNumber}.

Lemma grows_real_lookup {R} (field : World -> list R) P :
  (forall l n w, field (with_network l n w) = field w) ->
  grows field P real_lookup.
Proof.
  intros Hf. apply grows_nothing. intros w. unfold exec, real_lookup.
  destruct (network w); simpl; apply Hf.
Qed.

Lemma grows_fetchRobloxStatus {R} (field : World -> list R) P u :
  (forall l n w, field (with_network l n w) = field w) ->
  grows field P (fetchRobloxStatus u).
Proof.
  intros Hf. unfold fetchRobloxStatus, simulateStatus.
  repeat first [ by apply grows_real_lookup | grows_step ].
Qed.

Ltac appends_lookup :=
  apply appends_nothing; unfold currentStatus, simulateStatus;
  repeat first [ by apply grows_fetchRobloxStatus | grows_step ].

Lemma appends_checkAndRecord :
  appends events 1 checkAndRecord /\ appends sessions 1 checkAndRecord.
Proof.
  split; unfold checkAndRecord;
    repeat first
      [ apply appends_onStatusResult
      | apply appends_then; [solve [appends_lookup]|intros ?]
      | appends_step ].
Qed.

Lemma appends_pollOnce :
  appends events 1 pollOnce /\ appends sessions 1 pollOnce.
Proof. split; apply appends_try_catch, appends_checkAndRecord. Qed.

Lemma appends_gap_then_poll {R} (field : World -> list R) (gap : Async unit) :
  appends field 1 gap -> appends field 1 pollOnce ->
  appends field 2 (bind gap (fun _ => pollOnce)).
Proof. intros Hg Hp. by apply (appends_bind field gap _ 1 1). Qed.

(** X2. Whatever the store and the presence service do, a poll appends at
    most one event and at most one session and removes or rewrites no
    record; a return to the visible tab and [setUsername], which run a gap
    repair and then a poll, append at most two of each; a save of the
    service worker at most one of each. *)
Theorem page_appends_only :
  (appends events 1 pollOnce /\ appends sessions 1 pollOnce)
  /\ (appends events 2 onVisible /\ appends sessions 2 onVisible)
  /\ (forall u, appends events 2 (setUsername u)
                /\ appends sessions 2 (setUsername u))
  /\ (forall u res ts, appends events 1 (workerSaveEvent u res ts)
                       /\ appends sessions 1 (workerSaveEvent u res ts)).
Proof.
  pose proof appends_pollOnce as [Hpe Hps].
  split; [done|]. split; [|split].
  - split; unfold onVisible; apply appends_gap_then_poll; try done;
      repeat first
        [ apply appends_onReopenFillGap
        | apply appends_then; [solve [appends_lookup]|intros ?]
        | appends_step ].
  - intros u. split; unfold setUsername.
    all: destruct (String.eqb u "");
      [apply (appends_mono _ _ 0%nat); [lia|solve [appends_none]]|].
    all: repeat (apply appends_then; [solve [appends_none]|intros ?]).
    all: apply appends_gap_then_poll; try done.
    all: repeat first
        [ apply appends_onReopenFillGap
        | apply appends_then; [solve [appends_lookup]|intros ?]
        | appends_step ].
  - intros u res ts. split; unfold workerSaveEvent; repeat appends_step.
Qed.
End PollAppends.

(** X3. The reset of the history is not atomic. When the store rejects the
    first clear nothing changes; when it rejects the second one the events
    are gone while the sessions and the runtime state, an open session
    included, are kept; otherwise both stores are empty and the last known
    status and the session start are [null], the user name and the
    simulator flag being kept. After a reset on a store that accepts the
    requests, the next ingest records the first event, as on a page
    that has no history. *)
Theorem resetHistory_outcomes :
  (forall w, head (faults w) = Some 0%nat ->
     let w' := exec resetHistory w in
     (resetHistory w).1 = Rejected "store"
     /\ events w' = events w /\ sessions w' = sessions w /\ state w' = state w)
  /\ (forall w, head (faults w) = Some 1%nat ->
        let w' := exec resetHistory w in
        (resetHistory w).1 = Rejected "store"
        /\ events w' = [] /\ sessions w' = sessions w /\ state w' = state w)
  /\ (forall w, head (faults w) <> Some 0%nat -> head (faults w) <> Some 1%nat ->
        let w' := exec resetHistory w in
        let st := state w in
        (resetHistory w).1 = Resolved tt
        /\ events w' = [] /\ sessions w' = []
        /\ state w' = mkState (username st) (useSimulator st) None None)
  /\ (forall w res ts, store_ok w ->
        events (exec (onStatusResult res ts) (exec resetHistory w))
        = [event_of (username (state w)) res ts false]).
Proof.
  split; [|split; [|split]].
  - intros w Hf. crush_world w. by destruct fs as [|[|n'] fs].
  - intros w Hf. crush_world w. by destruct fs as [|[|[|n']] fs].
  - intros w H0 H1. crush_world w.
    destruct fs as [|[|[|n']] fs]; simpl in *; done.
  - intros w [o g] ts Hok. crush_world w. unfold store_ok in Hok; simpl in Hok.
    subst fs. unfold event_of, resetHistory, dbClear_events, dbClear_sessions.
    run_async. destruct o; decide_tests; simpl; by rewrite or_null_idem.
Qed.

Lemma resetHistory_outcomes_witness :
  let w := mkWorld (mkState "bob" false
                      (Some (Status.mk true (Some "Jogo A") 1000)) (Some 1000))
                   [Event.mk "bob" true (Some "Jogo A") 1000 false]
                   [Session.mk "bob" 100 200 0 None] [1%nat] ∅ 0 [] 0 in
  let w' := exec resetHistory w in
  (resetHistory w).1 = Rejected "store"
  /\ events w' = [] /\ sessions w' = sessions w /\ state w' = state w.
Proof.
  intros w w'.
  exact (proj1 (proj2 resetHistory_outcomes) w eq_refl).
Defined.

Lemma simulate_offline `{JSNumber} (now : Z) (username : string) :
  Sample.online (simulate now username) = false ->
  Sample.gameName (simulate now username) = None.
Proof. unfold simulate; simpl. by intros ->. Qed.

Section SwitchUser.
Context `{JSNumber}.
Local Opaque simulate.

(** X4. When the user that [setUsername] switches to has events in the
    store and the store accepts the first read, nothing of the last known
    status and session start of the page before the call survives: the
    call ends in the same way, with the same world, whatever they were. *)
Theorem setUsername_rebuilds_state (name : string) (w : World)
    (status : option Status.t) (start : option Z) (lastEv : Event.t) :
  name <> "" ->
  accepts_next w ->
  lastEvent name (events w) = Some lastEv ->
  setUsername name (with_runtime status start w) = setUsername name w.
Proof.
  intros Hu%String.eqb_neq Hok Hlast. crush_world w.
  unfold accepts_next in Hok; simpl in Hok.
  unfold setUsername, with_runtime. rewrite Hu.
  unfold bind at 1 2 3. unfold bind at 4 5 6.
  unfold set_username, localStorage_setItem; simpl.
  unfold repairStateFromDB, dbGetAll_events, request, bind, get_state; simpl.
  destruct fs as [|[|n'] fs]; simpl; try done; rewrite Hlast;
    destruct (Event.online lastEv); reflexivity.
Qed.

(** X5. [setUsername] does not clear the runtime state: when the user it
    switches to has no event in the store while a session is open, the
    first sample of the new user is ingested against the state of the old
    one. With the simulator on and a store that accepts the requests, an
    online sample keeps the old session start as the start of the session
    of the new user, and an offline sample closes the open session under
    the name of the new user, from the old start to now, with the activity
    last known. One event of the new user is recorded in both cases. *)
Theorem setUsername_inherits_session (name : string) (w : World) (c : Z) :
  store_ok w ->
  name <> "" ->
  lastEvent name (events w) = None ->
  useSimulator (state w) = true ->
  currentSessionStart (state w) = Some c ->
  c <> 0 ->
  let sample := simulate (clock w) name in
  let w' := exec (setUsername name) w in
  events w' = events w ++ [event_of name sample (clock w) false]
  /\ if Sample.online sample then
       sessions w' = sessions w
       /\ currentSessionStart (state w') = Some c
     else
       sessions w'
       = sessions w ++
         [Session.mk name c (clock w) (duration_of c (clock w))
            (match lastKnownStatus (state w) with
             | Some lk => or_null (Status.gameName lk)
             | None => None
             end)]
       /\ currentSessionStart (state w') = None.
Proof.
  intros Hok Hu%String.eqb_neq Hlast Hsim Hcss Hc.
  pose proof (simulate_label_ok (clock w) name) as Hlabel.
  pose proof (simulate_offline (clock w) name) as Hoff.
  crush_world w. unfold store_ok in Hok; simpl in Hok. subst fs sim css.
  assert (Hhb : (heartbeatMs <? ck - ck) = false)
    by (apply heartbeat_not_elapsed; lia).
  unfold event_of, exec, setUsername. rewrite Hu.
  unfold pollOnce, checkAndRecord, currentStatus, fetchRobloxStatus,
    simulateStatus, Date_now, set_username, localStorage_setItem.
  rewrite Hu. run_repair. rewrite Hlast. simpl.
  destruct (simulate ck name) as [o g] eqn:Hs; simpl in *.
  rewrite (or_null_label g Hlabel).
  repeat (first [rewrite Hlast | rewrite Hu | rewrite Hs
                | rewrite (truthy_num_nonzero c Hc)]; simpl).
  destruct o; simpl.
  all: repeat (first [rewrite Hlast | rewrite Hu | rewrite Hs
                     | rewrite (truthy_num_nonzero c Hc)]; simpl).
  all: run_async.
  all: rewrite ?(or_null_label g Hlabel), ?strict_ne_refl, ?Hhb; simpl.
  all: rewrite ?(truthy_num_nonzero c Hc); simpl.
  - done.
  - rewrite (Hoff eq_refl). split; [done|]. split; [|done].
    destruct lk as [[lo lg lts]|]; simpl; [|done].
    unfold or_null. by destruct (truthy_str lg).
Qed.
End SwitchUser.

Lemma setUsername_rebuilds_state_witness :
  let w := exec (onStatusResult (Sample.mk true (Some "Jogo A")) 1000)
             (fresh "bob") in
  @setUsername fixedPoint "bob" (with_runtime None None w)
  = @setUsername fixedPoint "bob" w.
Proof.
  intros w.
  refine (@setUsername_rebuilds_state fixedPoint "bob" w None None
            (Event.mk "bob" true (Some "Jogo A") 1000 false) _ _ eq_refl);
    discriminate.
Defined.

Lemma setUsername_inherits_session_witness :
  let w := mkWorld (mkState "bob" true
                      (Some (Status.mk true (Some "Jogo A") 1000)) (Some 1000))
                   [Event.mk "bob" true (Some "Jogo A") 1000 false]
                   [] [] ∅ 90000 [] 0 in
  sessions (exec (@setUsername fixedPoint "ana") w)
  = [Session.mk "ana" 1000 90000 89 (Some "Jogo A")].
Proof.
  intros w.
  pose proof (@setUsername_inherits_session fixedPoint "ana" w 1000 eq_refl
                ltac:(discriminate) eq_refl eq_refl eq_refl ltac:(lia)) as Hw.
  exact (proj1 (proj2 Hw)).
Defined.

Lemma agrees_intro (st : State) :
  match truthy_num (currentSessionStart st), lastKnownStatus st with
  | Some _, Some lk => Status.online lk = true
  | None, Some lk => Status.online lk = false
  | None, None => True
  | Some _, None => False
  end ->
  session_open st <-> known_online st.
Proof.
  unfold session_open, known_online.
  destruct (truthy_num _) as [c|], (lastKnownStatus st) as [[o g t]|]; simpl.
  - intros ->. split; eauto.
  - done.
  - intros ->. split; [by intros [? [=]]|]. by intros (lk & [= <-] & [=]).
  - intros _. split; [by intros [? [=]]|]. by intros (lk & [=] & _).
Qed.

Lemma agrees_elim (st : State) :
  (session_open st <-> known_online st) ->
  match truthy_num (currentSessionStart st), lastKnownStatus st with
  | Some _, Some lk => Status.online lk = true
  | None, Some lk => Status.online lk = false
  | None, None => True
  | Some _, None => False
  end.
Proof.
  unfold session_open, known_online.
  destruct (truthy_num _) as [c|], (lastKnownStatus st) as [[o g t]|]; simpl;
    intros [H1 H2]; try done.
  - destruct H1 as (lk & [= <-] & Hon); eauto.
  - destruct H1 as (lk & [=] & _); eauto.
  - destruct o; [|done]. destruct H2 as [? [=]]. eauto.
Qed.

Lemma agrees_ingest (w : World) (res : Sample.t) (ts : Z) :
  ts <> 0 ->
  (session_open (state w) <-> known_online (state w)) ->
  session_open (state (exec (onStatusResult res ts) w))
  <-> known_online (state (exec (onStatusResult res ts) w)).
Proof.
  intros Hts Hw%agrees_elim. apply agrees_intro.
  pose proof (truthy_num_nonzero ts Hts) as Hnz.
  generalize (eq_refl (state (exec (onStatusResult res ts) w))).
  generalize (state (exec (onStatusResult res ts) w)) at 2 3 4.
  intros st'. crush_world w. destruct res as [o g].
  destruct fs as [|[|[|n']] fs];
    (destruct lk as [[lo lg lts]|]; [destruct lo|]);
    destruct o; run_async; decide_tests; simpl in *; intros <-; simpl;
    rewrite ?Hnz, ?truthy_num_null; decide_tests; simpl in *;
    repeat match goal with
           | E : truthy_num css = _, X : context [truthy_num css] |- _ =>
               rewrite E in X
           | E : truthy_num None = _ |- _ => cbv in E
           end;
    simpl in *; first [done | congruence].
Qed.

Section Preserves.
Context (I : World -> Prop).

Lemma preserves_bind {A B} (m : Async A) (k : A -> Async B) :
  preserves I m -> (forall a, preserves I (k a)) -> preserves I (bind m k).
Proof.
  intros Hm Hk w Hw. specialize (Hm w Hw). unfold exec, bind in *.
  destruct (m w) as [[a|r] w1]; simpl in *; [|done]. by apply Hk.
Qed.

Lemma preserves_try_catch (m : Async unit) :
  preserves I m -> preserves I (try_catch m).
Proof.
  intros Hm w Hw. specialize (Hm w Hw). unfold exec, try_catch in *.
  by destruct (m w) as [[a|r] w1].
Qed.

Lemma preserves_request {A} (run : World -> A * World) :
  (forall fs w, I w -> I (with_faults fs w)) ->
  (forall w, I w -> I (run w).2) ->
  preserves I (request run).
Proof.
  intros Hf Hrun w Hw. unfold exec, request.
  destruct (faults w) as [|[|n] fs]; simpl.
  - specialize (Hrun w Hw). by destruct (run w).
  - by apply Hf.
  - specialize (Hrun _ (Hf (n :: fs) w Hw)). by destruct (run _).
Qed.
End Preserves.

Lemma agrees_faults fs w : marker_agrees w -> marker_agrees (with_faults fs w).
Proof. done. Qed.

Lemma agrees_dbAdd_events e :
  Event.timestamp e <> 0 -> preserves marker_agrees (dbAdd_events e).
Proof.
  intros He. apply preserves_request; [apply agrees_faults|].
  intros w [Hw Hnz]. split; [done|]. simpl.
  apply Forall_app. split; [done|]. by apply Forall_singleton.
Qed.

Lemma agrees_dbAdd_sessions s : preserves marker_agrees (dbAdd_sessions s).
Proof. apply preserves_request; [apply agrees_faults|]. by intros w Hw. Qed.

Lemma agrees_dbGetAll_events : preserves marker_agrees dbGetAll_events.
Proof. apply preserves_request; [apply agrees_faults|]. by intros w Hw. Qed.

(** The state that [repairStateFromDB] rebuilds agrees with itself as soon
    as no event carries the instant [0]. *)
Lemma agrees_repairStateFromDB : preserves marker_agrees repairStateFromDB.
Proof.
  intros w [Hw Hnz]. split.
  - apply agrees_intro. apply agrees_elim in Hw.
    rewrite Forall_forall in Hnz. crush_world w. run_repair.
    destruct fs as [|[|n'] fs]; simpl; try done;
      (destruct (lastEvent u evs) as [e|] eqn:Hlast; simpl; [|done]);
      destruct (lastEvent_elem _ _ _ Hlast) as [Hin _];
      destruct (Event.online e); simpl; try done;
      by rewrite truthy_num_nonzero by auto.
  - destruct (records_repairStateFromDB (fun _ => False) w) as (l & -> & Hl).
    apply Forall_app. split; [done|]. eapply Forall_impl; [exact Hl|done].
Qed.

Lemma agrees_addStatusEvent u o g ts :
  ts <> 0 -> preserves marker_agrees (addStatusEvent u o g ts).
Proof.
  intros Hts w [Hw Hnz]. split.
  - apply agrees_elim in Hw. apply agrees_intro.
    pose proof (truthy_num_nonzero ts Hts) as Hnz'.
    generalize (eq_refl (state (exec (addStatusEvent u o g ts) w))).
    generalize (state (exec (addStatusEvent u o g ts) w)) at 2 3 4.
    intros st'. destruct w as [[u0 sim lk css] evs ss fs ls ck net n]; simpl in *.
    destruct fs as [|[|[|n']] fs];
      (destruct lk as [[lo lg lts]|]; [destruct lo|]);
      destruct o; run_async; decide_tests; simpl in *; intros <-; simpl;
      rewrite ?Hnz', ?truthy_num_null; decide_tests; simpl in *;
      repeat match goal with
             | E : truthy_num css = _, X : context [truthy_num css] |- _ =>
                 rewrite E in X
             | E : truthy_num None = _ |- _ => cbv in E
             end;
      simpl in *; first [done | congruence].
  - apply (nonzero_grows _ ts); [apply records_addStatusEvent|done|done].
Qed.

Lemma agrees_onStatusResult res ts :
  ts <> 0 -> preserves marker_agrees (onStatusResult res ts).
Proof.
  intros Hts w [Hw Hnz]. split.
  - by apply agrees_ingest.
  - apply (nonzero_grows _ ts); [apply records_onStatusResult|done|done].
Qed.

Ltac preserves_step :=
  first
    [ by apply agrees_addStatusEvent
    | apply agrees_repairStateFromDB
    | by apply agrees_dbAdd_events
    | apply agrees_dbAdd_sessions
    | apply agrees_dbGetAll_events
    | apply preserves_try_catch
    | apply preserves_bind; [|intros ?]
    | by intros ? ?
    | match goal with
      | |- preserves _ (if ?b then _ else _) => destruct b
      | |- preserves _ (match ?x with _ => _ end) => destruct x eqn:?
      end ].

Lemma agrees_onReopenFillGap res ts :
  ts <> 0 -> preserves marker_agrees (onReopenFillGap res ts).
Proof. intros Hts. unfold onReopenFillGap. repeat preserves_step. Qed.

Lemma agrees_workerSaveEvent u res ts :
  ts <> 0 -> preserves marker_agrees (workerSaveEvent u res ts).
Proof. intros Hts. unfold workerSaveEvent. repeat preserves_step. Qed.

Lemma agrees_reload : preserves marker_agrees (step_run Reload).
Proof.
  intros w [Hw Hnz].
  apply (agrees_repairStateFromDB (with_runtime None None w)).
  split; [|done]. apply agrees_intro. done.
Qed.

Lemma agrees_step (s : step) :
  (forall ts, step_time s = Some ts -> ts <> 0) ->
  preserves marker_agrees (step_run s).
Proof.
  destruct s as [res ts|res ts| |res ts]; simpl; intros Hts.
  - apply agrees_onStatusResult. by apply Hts.
  - apply agrees_onReopenFillGap. by apply Hts.
  - apply agrees_reload.
  - apply preserves_bind; [by intros ? ?|intros st].
    apply agrees_workerSaveEvent. by apply Hts.
Qed.

(** X6. In every state reached from a freshly loaded page by ingests, gap
    repairs, reloads and checks of the service worker at instants other
    than [0], in any order and whatever requests the store rejects, a
    session is open exactly when the last known status is online. *)
Theorem session_open_iff_online (u : string) (fs : list nat) (steps : list step) :
  Forall (fun ts => ts <> 0) (times steps) ->
  let w := run_steps steps (with_faults fs (fresh u)) in
  session_open (state w) <-> known_online (state w).
Proof.
  intros Hts.
  assert (Hrun : forall w, marker_agrees w -> marker_agrees (run_steps steps w)).
  { induction steps as [|s steps IH]; intros w Hw; [done|].
    unfold run_steps; simpl. fold (run_steps steps (exec (step_run s) w)).
    unfold times in Hts. simpl in Hts.
    apply IH.
    - destruct (step_time s); simpl in Hts; [|done].
      by apply Forall_cons in Hts as [_ ?].
    - apply agrees_step; [|done]. intros ts Hs. rewrite Hs in Hts.
      by apply Forall_cons in Hts as [? _]. }
  apply Hrun. split; [|by apply Forall_nil].
  apply agrees_intro. done.
Qed.

Lemma session_open_iff_online_witness :
  let steps := [Ingest (Sample.mk true (Some "Jogo A")) 1000;
                WorkerCheck (Sample.mk false None) 2000;
                Reload;
                Repair (Sample.mk true None) 3000] in
  let w := run_steps steps (with_faults [3%nat] (fresh "bob")) in
  session_open (state w) <-> known_online (state w).
Proof.
  intros steps.
  apply (session_open_iff_online "bob" [3%nat] steps).
  repeat constructor; done.
Defined.

Section Logs.
Context (u : string) (P : Event.t -> Prop).

Lemma logs_frame {A} (m : Async A) :
  (forall w, username (state (exec m w)) = username (state w)
             /\ events (exec m w) = events w) ->
  logs u P m.
Proof.
  intros Hm w Hw. destruct (Hm w) as [-> ->]. split; [done|].
  exists []. by rewrite app_nil_r.
Qed.

Lemma logs_bind {A B} (m : Async A) (k : A -> Async B) :
  logs u P m -> (forall a, logs u P (k a)) -> logs u P (bind m k).
Proof.
  intros Hm Hk w Hw. destruct (Hm w Hw) as (Hu1 & l1 & H1 & HP1).
  unfold exec, bind in *. destruct (m w) as [[a|r] w1]; simpl in *.
  - destruct (Hk a w1 Hu1) as (Hu2 & l2 & H2 & HP2). split; [done|].
    exists (l1 ++ l2). unfold exec in H2. rewrite H2, H1, app_assoc.
    split; [done|]. by apply Forall_app.
  - split; [done|]. by exists l1.
Qed.

(** What follows a read of the runtime state runs on the state of a page
    that monitors [u]. *)
Lemma logs_get_state {B} (k : State -> Async B) :
  (forall st, username st = u -> logs u P (k st)) ->
  logs u P (bind get_state k).
Proof. intros Hk w Hw. exact (Hk (state w) Hw w Hw). Qed.

Lemma logs_try_catch (m : Async unit) : logs u P m -> logs u P (try_catch m).
Proof.
  intros Hm w Hw. destruct (Hm w Hw) as (Hu1 & l & Hl & HP).
  unfold exec, try_catch in *. destruct (m w) as [[a|r] w1]; eauto.
Qed.

Lemma logs_dbAdd_events e : P e -> logs u P (dbAdd_events e).
Proof.
  intros He w Hw. unfold exec, dbAdd_events, request.
  destruct (faults w) as [|[|n] fs]; simpl; (split; [done|]).
  - exists [e]. split; [done|]. by apply Forall_singleton.
  - exists []. by rewrite app_nil_r.
  - exists [e]. split; [done|]. by apply Forall_singleton.
Qed.

Lemma logs_request {A} (run : World -> A * World) :
  (forall w, username (state (run w).2) = username (state w)
             /\ events (run w).2 = events w) ->
  logs u P (request run).
Proof.
  intros Hrun. apply logs_frame. intros w. unfold exec, request.
  destruct (faults w) as [|[|n] fs]; simpl; [|done|].
  - destruct (Hrun w). by destruct (run w).
  - destruct (Hrun (with_faults (n :: fs) w)). by destruct (run _).
Qed.
End Logs.

Ltac logs_step :=
  lazymatch goal with
  | |- logs _ _ (try_catch _) => apply logs_try_catch
  | |- logs _ _ (bind get_state _) => apply logs_get_state; intros ? ?
  | |- logs _ _ (bind _ _) => apply logs_bind; [|intros ?]
  | |- logs _ _ (dbAdd_events _) => apply logs_dbAdd_events; by split
  | |- logs _ _ (request _) => by apply logs_request
  | |- logs _ _ (if ?b then _ else _) => destruct b
  | |- logs _ _ (match ?x with _ => _ end) => destruct x eqn:?
  | |- logs _ _ _ => by apply logs_frame
  end.

(** Every step of the engine, of the page or of the service worker, keeps
    the monitored user and only appends events of that user, stamped with
    the instant of the step. *)
Lemma logs_step_run (u : string) (s : step) :
  logs u (fun e => Event.username e = u /\ Some (Event.timestamp e) = step_time s)
    (step_run s).
Proof.
  destruct s as [res ts|res ts| |res ts]; simpl;
    unfold onStatusResult, onReopenFillGap, workerSaveEvent, addStatusEvent,
      repairStateFromDB, updateUILive, dbAdd_sessions, dbGetAll_events;
    repeat logs_step.
Qed.

Lemma filter_all {A} (P : A -> Prop) `{forall x, Decision (P x)} (l : list A) :
  Forall P l -> filter P l = l.
Proof.
  induction 1 as [|x l Hx Hl IH]; [done|].
  by rewrite filter_cons_True, IH.
Qed.

Lemma sort_by_timestamp_sorted (l : list Event.t) :
  StronglySorted Z.le (Event.timestamp <$> l) -> sort_by_timestamp l = l.
Proof.
  induction l as [|x l IH]; simpl; [done|].
  intros [Hx Hl]%StronglySorted_cons. rewrite (IH Hl).
  destruct l as [|y l]; simpl; [done|].
  apply Forall_cons in Hx as [Hxy _].
  by destruct (Z.leb_spec (Event.timestamp x) (Event.timestamp y)); [|lia].
Qed.

Lemma StronglySorted_constant (t : Z) (l : list Z) :
  Forall (fun x => x = t) l -> StronglySorted Z.le l.
Proof.
  induction 1 as [|x l -> Hl IH]; constructor; [done|].
  eapply Forall_impl; [exact Hl|]. simpl. lia.
Qed.

Lemma log_inv_step (u : string) (t : Z) (w : World) (s : step) :
  log_inv u t w ->
  (forall ts, step_time s = Some ts -> t <= ts) ->
  log_inv u (default t (step_time s)) (exec (step_run s) w).
Proof.
  intros (Hu & Hevs & Hsorted) Hts.
  destruct (logs_step_run u s w Hu) as (Hu' & l & Hev & Hl).
  unfold log_inv. rewrite Hev. split; [done|]. split.
  - apply Forall_app. split.
    + eapply Forall_impl; [exact Hevs|]. simpl. intros e [? ?]. split; [done|].
      destruct (step_time s) as [ts|]; simpl; [|done]. specialize (Hts ts eq_refl). lia.
    + eapply Forall_impl; [exact Hl|]. simpl. intros e [? <-]. simpl. done.
  - rewrite fmap_app. apply StronglySorted_app. split; [|split].
    + intros x y [e [-> He]]%list_elem_of_fmap [e' [-> He']]%list_elem_of_fmap.
      rewrite Forall_forall in Hevs, Hl.
      destruct (Hevs e He) as [_ Hle]. destruct (Hl e' He') as [_ Hs].
      specialize (Hts _ (eq_sym Hs)). lia.
    + done.
    + destruct (step_time s) as [ts|].
      * apply (StronglySorted_constant ts). apply Forall_fmap.
        eapply Forall_impl; [exact Hl|]. simpl. by intros e [_ [= ->]].
      * destruct l as [|e l]; [constructor|].
        by apply Forall_cons in Hl as [[_ [=]] _].
Qed.

Lemma log_inv_run (u : string) (steps : list step) : forall t w,
  log_inv u t w ->
  Forall (Z.le t) (times steps) ->
  StronglySorted Z.le (times steps) ->
  exists t', log_inv u t' (run_steps steps w).
Proof.
  induction steps as [|s steps IH]; intros t w Hinv Hfrom Hsorted.
  - by exists t.
  - unfold run_steps; simpl. fold (run_steps steps (exec (step_run s) w)).
    unfold times in *. simpl in *.
    apply (IH (default t (step_time s))).
    + apply log_inv_step; [done|]. intros ts Hs. rewrite Hs in Hfrom.
      by apply Forall_cons in Hfrom as [? _].
    + destruct (step_time s) as [ts|]; simpl in *; [|done].
      by apply StronglySorted_cons in Hsorted as [? _].
    + destruct (step_time s) as [ts|]; simpl in *; [|done].
      by apply StronglySorted_cons in Hsorted as [_ ?].
Qed.

(** X7. In every run of the page and of the service worker for one user
    whose timestamps never decrease, whatever requests the store rejects,
    the event store holds events of that user only, in the order of their
    timestamps; so the filter and the sort of [repairStateFromDB] and
    [onReopenFillGap] leave the list as it is, and the last event they use
    is the last record of the store. *)
Theorem event_log_chronological (u : string) (fs : list nat) (steps : list step) :
  Sorted Z.le (times steps) ->
  let w := run_steps steps (with_faults fs (fresh u)) in
  StronglySorted Z.le (Event.timestamp <$> events w)
  /\ Forall (fun e => Event.username e = u) (events w)
  /\ forUser u (events w) = events w
  /\ lastEvent u (events w) = last (events w).
Proof.
  intros Hsorted w.
  apply Sorted_StronglySorted in Hsorted; [|intros x y z; lia].
  destruct (log_inv_run u steps
              (match times steps with [] => 0 | t :: _ => t end)
              (with_faults fs (fresh u)))
    as (t & _ & Hevs & Hs); try done.
  - split; [done|]. split; [by apply Forall_nil|constructor].
  - destruct (times steps) as [|t l]; [done|].
    apply StronglySorted_cons in Hsorted as [Hl _].
    apply Forall_cons. split; [lia|done].
  - fold w in Hevs, Hs.
    assert (Hu : Forall (fun e => Event.username e = u) (events w)).
    { eapply Forall_impl; [exact Hevs|]. by intros e [? _]. }
    assert (Hf : forUser u (events w) = events w).
    { unfold forUser. rewrite (filter_all _ _ Hu). by apply sort_by_timestamp_sorted. }
    repeat split; try done. unfold lastEvent. by rewrite Hf.
Qed.

Lemma event_log_chronological_witness :
  let steps := [Ingest (Sample.mk true (Some "Jogo A")) 1000;
                Ingest (Sample.mk false None) 601000;
                WorkerCheck (Sample.mk false None) 700000;
                Repair (Sample.mk true None) 800000] in
  let w := run_steps steps (with_faults [2%nat] (fresh "bob")) in
  lastEvent "bob" (events w) = last (events w).
Proof.
  intros steps w.
  refine (proj2 (proj2 (proj2 (event_log_chronological "bob" [2%nat] steps _)))).
  repeat constructor; simpl; lia.
Defined.

Lemma append_assoc (a b c : string) : (a +:+ b) +:+ c = a +:+ (b +:+ c).
Proof.
  induction a as [|x a IH]; [done|].
  change (String x ((a +:+ b) +:+ c) = String x (a +:+ (b +:+ c))).
  by rewrite IH.
Qed.

Lemma split_on_colon_free (a : string) :
  colon_free a -> split_on ":" a = [a].
Proof.
  unfold colon_free. induction a as [|c a IH]; simpl; [done|].
  rewrite not_elem_of_cons. intros [Hc Ha].
  destruct (Ascii.eqb_spec c ":"); [congruence|]. by rewrite (IH Ha).
Qed.

Lemma split_on_app (a rest : string) :
  colon_free a ->
  split_on ":" (a +:+ ":" +:+ rest) = a :: split_on ":" rest.
Proof.
  unfold colon_free. induction a as [|c a IH]; simpl; [done|].
  rewrite not_elem_of_cons. intros [Hc Ha].
  destruct (Ascii.eqb_spec c ":"); [congruence|]. by rewrite (IH Ha).
Qed.

Lemma workerGames_nonempty g : g ∈ workerGames -> g <> "".
Proof.
  unfold workerGames. rewrite !elem_of_cons, elem_of_nil.
  intros [->|[->|[->|[->|[]]]]]; discriminate.
Qed.

Section WorkerChecks.
Context `{WorkerNumber}.

Lemma simulateWorker_label_ok (now : Z) (username : string) :
  label_ok (Sample.gameName (simulateWorker now username)).
Proof.
  unfold label_ok, simulateWorker; simpl. destruct (float_gt _ _); [|done].
  intros Hg%index_elem%workerGames_nonempty. done.
Qed.

(** What a save of the worker writes on a store that accepts the requests. *)
Lemma workerSaveEvent_run (username : string) (sample : Sample.t) (ts : Z)
    (w : World) :
  store_ok w ->
  label_ok (Sample.gameName sample) ->
  let w' := exec (workerSaveEvent username sample ts) w in
  (workerSaveEvent username sample ts w).1 = Resolved tt
  /\ events w'
     = events w ++
       [Event.mk username (Sample.online sample) (Sample.gameName sample) ts false]
  /\ sessions w'
     = (if Sample.online sample then sessions w
        else sessions w ++
             [Session.mk username (ts - 300000) ts 300 (Sample.gameName sample)])
  /\ state w' = state w.
Proof.
  intros Hok Hg. crush_world w. unfold store_ok in Hok; simpl in Hok; subst fs.
  destruct sample as [o g]; simpl in *.
  unfold exec, workerSaveEvent, try_catch, bind, dbAdd_events, dbAdd_sessions,
    request, resolve; simpl.
  rewrite (or_null_label g Hg).
  destruct o; simpl; [done|].
  replace (ts - (ts - 5 * 60 * 1000)) with 300000 by lia.
  replace (ts - 5 * 60 * 1000) with (ts - 300000) by lia. done.
Qed.

(** The lookup of a check and its fallback: they end with a sample that is
    ok, and leave the stores and the page alone. *)
Lemma worker_lookup (username : string) (useSim : bool) (w : World) :
  exists sample w1,
    (forall k : FetchResult -> Async unit,
       bind (if useSim then simulateStatusWorker username
             else fetchRobloxStatusWorker username)
         (fun res => bind (orSimulated username res) k) w
       = k (Ok sample) w1)
    /\ label_ok (Sample.gameName sample)
    /\ state w1 = state w /\ events w1 = events w /\ sessions w1 = sessions w
    /\ faults w1 = faults w /\ clock w1 = clock w
    /\ localStorage w1 = localStorage w.
Proof.
  crush_world w. destruct useSim.
  - eexists _, _. split; [intros k; reflexivity|].
    split; [apply simulateWorker_label_ok|done].
  - unfold fetchRobloxStatusWorker, real_lookup, bind; simpl.
    destruct net as [|[reason| | |upt root univ gid] net']; simpl;
      (eexists _, _; split; [intros k; reflexivity|]);
      (split; [|done]); try apply simulateWorker_label_ok; try done.
    simpl. by destruct (truthy_num root).
Qed.
End WorkerChecks.

Section WorkerTheorems.
Context `{WorkerNumber}.

Lemma workerSaveEvent_safe (username : string) (sample : Sample.t) (ts : Z)
    (w : World) :
  (workerSaveEvent username sample ts w).1 = Resolved tt
  /\ state (exec (workerSaveEvent username sample ts) w) = state w.
Proof.
  crush_world w. destruct sample as [o g].
  unfold exec, workerSaveEvent, try_catch, bind, dbAdd_events, dbAdd_sessions,
    request, resolve; simpl.
  destruct fs as [|[|[|n']] fs], o; simpl; try done.
  all: destruct fs as [|[|n''] fs]; done.
Qed.

Lemma onDoCheck_run (username : string) (useSim : bool) (w : World) :
  username <> "" ->
  exists sample w1,
    onDoCheck username useSim w
    = workerSaveEvent username sample (clock w) w1
    /\ label_ok (Sample.gameName sample)
    /\ state w1 = state w /\ events w1 = events w /\ sessions w1 = sessions w
    /\ faults w1 = faults w.
Proof.
  intros Hu%String.eqb_neq.
  destruct (worker_lookup username useSim w)
    as (sample & w1 & Hk & Hg & Hst & Hev & Hss & Hfs & Hck & _).
  exists sample, w1. split; [|done].
  unfold onDoCheck. rewrite Hu. unfold bind at 1. unfold Date_now at 1.
  by rewrite Hk.
Qed.

(** X8. A [doCheck] message without a user name does nothing. With one, the
    check never rejects and never touches the runtime state of the page,
    whatever the store and the presence service do; and on a store that
    accepts the requests it records exactly one event at the reading of
    the clock, for a sample that is always ok (the simulator stands in for
    every failed lookup), and a session of the five minutes before it
    every time that sample is offline. *)
Theorem onDoCheck_records :
  (forall useSim w, onDoCheck "" useSim w = (Resolved tt, w))
  /\ (forall username useSim w,
        (onDoCheck username useSim w).1 = Resolved tt
        /\ state (exec (onDoCheck username useSim) w) = state w)
  /\ (forall username useSim w,
        username <> "" -> store_ok w ->
        exists sample,
          let w' := exec (onDoCheck username useSim) w in
          label_ok (Sample.gameName sample)
          /\ events w'
             = events w ++
               [Event.mk username (Sample.online sample)
                  (Sample.gameName sample) (clock w) false]
          /\ sessions w'
             = (if Sample.online sample then sessions w
                else sessions w ++
                     [Session.mk username (clock w - 300000) (clock w) 300
                        (Sample.gameName sample)])).
Proof.
  split; [done|]. split.
  - intros username useSim w.
    destruct (String.eqb_spec username "") as [->|Hu]; [done|].
    destruct (onDoCheck_run username useSim w Hu)
      as (sample & w1 & Heq & _ & Hst & _).
    unfold exec. rewrite Heq, <- Hst. apply workerSaveEvent_safe.
  - intros username useSim w Hu Hok.
    destruct (onDoCheck_run username useSim w Hu)
      as (sample & w1 & Heq & Hg & Hst & Hev & Hss & Hfs).
    exists sample. simpl. unfold exec. rewrite Heq.
    destruct (workerSaveEvent_run username sample (clock w) w1)
      as (_ & Hev' & Hss' & _); [by unfold store_ok; rewrite Hfs|done|].
    unfold exec in *. rewrite Hev', Hss', Hev, Hss. done.
Qed.

(** X9. A sync event whose tag is [roblox-check:USERNAME:SIM], for a user
    name that is not empty and has no colon, runs the check a [doCheck]
    message runs for that user, with the simulator exactly when [SIM] is
    [1]. A user name with a colon is cut at the colon, and what follows is
    read as the simulator flag. The bare tag [roblox-check] runs no
    check. *)
Theorem onSync_checks :
  (forall username sim w,
     username <> "" -> colon_free username -> colon_free sim ->
     onSync (syncTag username sim) w
     = onDoCheck username (bool_decide (sim = "1")) w)
  /\ (forall a b sim w,
        a <> "" -> colon_free a -> colon_free b ->
        onSync (syncTag (a +:+ ":" +:+ b) sim) w
        = onDoCheck a (bool_decide (b = "1")) w)
  /\ (forall w, onSync "roblox-check" w = (Resolved tt, w)).
Proof.
  assert (Hgen : forall u flag rest w,
            u <> "" -> colon_free u ->
            split_on ":" rest = flag :: tail (split_on ":" rest) ->
            onSync ("roblox-check:" +:+ u +:+ ":" +:+ rest) w
            = onDoCheck u (bool_decide (flag = "1")) w).
  { intros u flag rest w Hu Hcf Hrest.
    unfold onSync.
    change (String.prefix "roblox-check" ("roblox-check:" +:+ u +:+ ":" +:+ rest))
      with true. cbv iota.
    change ("roblox-check:" +:+ u +:+ ":" +:+ rest)
      with ("roblox-check" +:+ ":" +:+ (u +:+ ":" +:+ rest)).
    rewrite (split_on_app "roblox-check") by compute_done.
    rewrite (split_on_app u) by done. rewrite Hrest. simpl.
    assert (Hor : or_null (Some u) = Some u).
    { unfold or_null, truthy_str. by destruct (String.eqb_spec u ""). }
    rewrite Hor.
    rewrite (bool_decide_ext (Some flag = Some "1") (flag = "1"))
      by (split; congruence).
    destruct (worker_lookup u (bool_decide (flag = "1")) w)
      as (sample & w1 & Hk & _ & _ & _ & _ & _ & Hck & _).
    transitivity (workerSaveEvent u sample (clock w) w1).
    - rewrite (Hk (fun res => bind Date_now
                     (fun now => workerSaveEvent u (sample_of res) now))).
      unfold bind, Date_now. by rewrite Hck.
    - unfold onDoCheck. apply String.eqb_neq in Hu. rewrite Hu.
      unfold bind at 1. unfold Date_now at 1.
      by rewrite (Hk (fun res => workerSaveEvent u (sample_of res) (clock w))). }
  split; [|split].
  - intros username sim w Hu Hcf Hsim. apply Hgen; try done.
    by rewrite split_on_colon_free.
  - intros a b sim w Ha Hcf Hb. unfold syncTag.
    rewrite <- (Hgen a b (b +:+ ":" +:+ sim) w Ha Hcf).
    + f_equal. by rewrite !append_assoc.
    + by rewrite split_on_app.
  - done.
Qed.
End WorkerTheorems.

Lemma onDoCheck_records_witness :
  let w := with_network [NoPresence]  0 (with_clock 900000 (fresh "bob")) in
  exists sample,
    let w' := exec (@onDoCheck fixedPoint fixedPointWorker "ana" false) w in
    label_ok (Sample.gameName sample)
    /\ events w'
       = events w ++
         [Event.mk "ana" (Sample.online sample) (Sample.gameName sample)
            (clock w) false]
    /\ sessions w'
       = (if Sample.online sample then sessions w
          else sessions w ++
               [Session.mk "ana" (clock w - 300000) (clock w) 300
                  (Sample.gameName sample)]).
Proof.
  intros w.
  refine (proj2 (proj2 (@onDoCheck_records fixedPoint fixedPointWorker))
            "ana" false w _ eq_refl).
  discriminate.
Defined.

Lemma onSync_checks_witness :
  @onSync fixedPoint fixedPointWorker (syncTag "ana" "1") (fresh "bob")
  = @onDoCheck fixedPoint fixedPointWorker "ana" true (fresh "bob").
Proof.
  refine (proj1 (@onSync_checks fixedPoint fixedPointWorker)
            "ana" "1" (fresh "bob") _ _ _).
  - discriminate.
  - compute_done.
  - compute_done.
Defined.

Section WorkerLookup.
Context `{WorkerNumber}.

(** X10. On the same answer of the presence service, with the simulator
    off, the lookup of the service worker and the lookup of the page leave
    the same world and agree on whether the result is ok, on the fallback
    and on the online flag; the worker names the same activity as the page
    or none, since it reads the place of the presence only. *)
Theorem worker_lookup_agrees (username : string) (w : World) :
  username <> "" ->
  useSimulator (state w) = false ->
  exec (fetchRobloxStatusWorker username) w = exec (fetchRobloxStatus username) w
  /\ match (fetchRobloxStatus username w).1,
           (fetchRobloxStatusWorker username w).1 with
     | Resolved (Ok p), Resolved (Ok q) =>
         Sample.online q = Sample.online p
         /\ (Sample.gameName q = Sample.gameName p
             \/ Sample.gameName q = None)
     | Resolved (NotOk _ f), Resolved (NotOk _ f') => f = true /\ f' = true
     | _, _ => False
     end.
Proof.
  intros Hu%String.eqb_neq Hsim. crush_world w. subst sim.
  unfold exec, fetchRobloxStatusWorker, fetchRobloxStatus. rewrite Hu.
  unfold real_lookup, bind, get_state; simpl.
  destruct net as [|[reason| | |upt root univ gid] net']; simpl; try done.
  - split; [done|]. split; [done|]. by left.
  - split; [done|]. split; [done|].
    destruct (truthy_num root), (truthy_num univ), (truthy_num gid); auto.
Qed.

(** X11. The simulator of the service worker depends on the clock through
    the minute alone: two readings in the same minute give the same
    result for a user. The result is ok, has no activity when offline, and
    any activity it has is an entry of the worker's own catalogue. *)
Theorem simulateStatusWorker_by_minute (username : string) (w1 w2 : World) :
  clock w1 / 60000 = clock w2 / 60000 ->
  (simulateStatusWorker username w1).1 = (simulateStatusWorker username w2).1
  /\ (exists s, (simulateStatusWorker username w1).1 = Resolved (Ok s)
        /\ (Sample.online s = false -> Sample.gameName s = None)
        /\ (forall g, Sample.gameName s = Some g -> g ∈ workerGames)).
Proof.
  intros Hminute.
  unfold simulateStatusWorker, bind, Date_now, resolve, simulateWorker; simpl.
  rewrite Hminute. split; [done|].
  eexists. split; [done|]. simpl. split.
  - intros ->. done.
  - intros g. destruct (float_gt _ _); [|done]. apply index_elem.
Qed.
End WorkerLookup.

Lemma worker_lookup_agrees_witness :
  let w := with_network [Presence (Some 2) None (Some 77) None] 0 (fresh "bob") in
  exec (fetchRobloxStatusWorker "ana") w
  = exec (@fetchRobloxStatus fixedPoint "ana") w.
Proof.
  intros w.
  refine (proj1 (@worker_lookup_agrees fixedPoint "ana" w _ eq_refl)).
  discriminate.
Defined.

Lemma simulateStatusWorker_by_minute_witness :
  (@simulateStatusWorker fixedPoint fixedPointWorker "abc"
     (with_clock 120000 (fresh "abc"))).1
  = (@simulateStatusWorker fixedPoint fixedPointWorker "abc"
       (with_clock 150000 (fresh "abc"))).1.
Proof.
  exact (proj1 (@simulateStatusWorker_by_minute fixedPoint fixedPointWorker "abc"
                  (with_clock 120000 (fresh "abc"))
                  (with_clock 150000 (fresh "abc")) eq_refl)).
Defined.

Lemma list_ascii_app (a b : string) :
  String.list_ascii_of_string (a +:+ b)
  = String.list_ascii_of_string a ++ String.list_ascii_of_string b.
Proof.
  induction a as [|x a IH]; [done|].
  change (x :: String.list_ascii_of_string (a +:+ b)
          = x :: (String.list_ascii_of_string a ++ String.list_ascii_of_string b)).
  by rewrite IH.
Qed.

Lemma string_length_list (a : string) :
  String.length a = length (String.list_ascii_of_string a).
Proof. induction a as [|x a IH]; simpl; [done|]. by rewrite IH. Qed.

Lemma string_length_app (a b : string) :
  String.length (a +:+ b) = (String.length a + String.length b)%nat.
Proof. by rewrite !string_length_list, list_ascii_app, length_app. Qed.

Lemma list_ascii_inj (a b : string) :
  String.list_ascii_of_string a = String.list_ascii_of_string b -> a = b.
Proof.
  intros Hab. rewrite <- (String.string_of_list_ascii_of_string a),
    <- (String.string_of_list_ascii_of_string b). by rewrite Hab.
Qed.

(** Two concatenations with tails of the same length are equal only if
    their heads and their tails are. *)
Lemma string_app_inj_2 (a1 b1 a2 b2 : string) :
  String.length b1 = String.length b2 ->
  a1 +:+ b1 = a2 +:+ b2 -> a1 = a2 /\ b1 = b2.
Proof.
  rewrite !string_length_list. intros Hlen Heq.
  apply (f_equal String.list_ascii_of_string) in Heq.
  rewrite !list_ascii_app in Heq.
  apply app_inj_2 in Heq as [H1 H2]; [|done].
  split; by apply list_ascii_inj.
Qed.

(** The numeral of a number has at least as many digits as were asked
    for. *)
Lemma pretty_N_go_length (x : N) (s : string) :
  (String.length s <= String.length (pretty_N_go x s))%nat.
Proof.
  revert s. induction (N.lt_wf_0 x) as [x _ IH]; intros s.
  destruct (decide (x = 0)%N) as [->|Hx]; [by rewrite pretty_N_go_0|].
  rewrite pretty_N_go_step by lia.
  etrans; [|apply IH; apply N.div_lt; lia]. simpl. lia.
Qed.

Lemma pretty_Z_length_3 (x : Z) :
  100 <= x -> (3 <= String.length (pretty x))%nat.
Proof.
  intros Hx. destruct x as [|p|p]; try lia.
  unfold pretty, pretty_Z, pretty, pretty_positive, pretty, pretty_N.
  rewrite decide_False by done.
  assert (Hp : (100 <= N.pos p)%N) by lia.
  rewrite pretty_N_go_step by lia.
  rewrite pretty_N_go_step by (apply N.div_str_pos; lia).
  rewrite pretty_N_go_step.
  - etrans; [|apply pretty_N_go_length]. simpl. lia.
  - apply N.div_str_pos. split; [lia|].
    apply N.div_le_lower_bound; lia.
Qed.

Lemma pad2_table :
  Forall (fun x =>
            String.length (padStart 2 "0" (pretty x)) = 2%nat
            /\ Forall (fun y => padStart 2 "0" (pretty x) = padStart 2 "0" (pretty y)
                                -> x = y) (seqZ 0 100))
         (seqZ 0 100).
Proof. apply (bool_decide_unpack _). vm_compute. exact I. Qed.

Lemma pad2_small (x : Z) :
  0 <= x < 100 -> String.length (padStart 2 "0" (pretty x)) = 2%nat.
Proof.
  intros Hx. pose proof pad2_table as Ht. rewrite Forall_forall in Ht.
  apply (Ht x). apply elem_of_seqZ. lia.
Qed.

Lemma pad2_small_inj (x y : Z) :
  0 <= x < 100 -> 0 <= y < 100 ->
  padStart 2 "0" (pretty x) = padStart 2 "0" (pretty y) -> x = y.
Proof.
  intros Hx Hy. pose proof pad2_table as Ht. rewrite Forall_forall in Ht.
  destruct (Ht x) as [_ Hxy]; [apply elem_of_seqZ; lia|].
  rewrite Forall_forall in Hxy. apply Hxy. apply elem_of_seqZ. lia.
Qed.

Lemma pad2_large (x : Z) :
  100 <= x ->
  padStart 2 "0" (pretty x) = pretty x
  /\ (3 <= String.length (pretty x))%nat.
Proof.
  intros Hx. pose proof (pretty_Z_length_3 x Hx) as Hlen. split; [|done].
  unfold padStart. replace (2 - String.length (pretty x))%nat with 0%nat by lia.
  done.
Qed.

Lemma pad2_inj (x y : Z) :
  0 <= x -> 0 <= y ->
  padStart 2 "0" (pretty x) = padStart 2 "0" (pretty y) -> x = y.
Proof.
  intros Hx Hy Heq.
  destruct (Z.lt_ge_cases x 100) as [Hx'|Hx'], (Z.lt_ge_cases y 100) as [Hy'|Hy'].
  - by apply pad2_small_inj.
  - apply (f_equal String.length) in Heq.
    rewrite pad2_small in Heq by lia.
    destruct (pad2_large y Hy') as [Hp Hl]. rewrite Hp in Heq. lia.
  - apply (f_equal String.length) in Heq.
    rewrite (pad2_small y) in Heq by lia.
    destruct (pad2_large x Hx') as [Hp Hl]. rewrite Hp in Heq. lia.
  - destruct (pad2_large x Hx') as [Hp _], (pad2_large y Hy') as [Hq _].
    rewrite Hp, Hq in Heq. by apply (inj pretty).
Qed.

(** The fields of a duration: hours, minutes below sixty and seconds below
    sixty that add up to it. *)
Lemma duration_fields (sec : Z) :
  0 < sec ->
  let h := sec / 3600 in
  let m := Z.rem (sec / 60) 60 in
  let s := Z.rem sec 60 in
  0 <= h /\ 0 <= m < 60 /\ 0 <= s < 60 /\ sec = 3600 * h + 60 * m + s.
Proof.
  intros Hsec. simpl. rewrite !Z.rem_mod_nonneg by (try apply Z.div_pos; lia).
  pose proof (Z.mod_pos_bound sec 60 ltac:(lia)).
  pose proof (Z.mod_pos_bound (sec / 60) 60 ltac:(lia)).
  pose proof (Z.div_mod sec 60 ltac:(lia)).
  pose proof (Z.div_mod (sec / 60) 60 ltac:(lia)).
  replace (sec / 3600) with (sec / 60 / 60)
    by (rewrite Z.div_div by lia; reflexivity).
  split; [|lia]. apply Z.div_pos; [apply Z.div_pos|]; lia.
Qed.

Lemma formatDurationSec_pos (sec : Z) :
  0 < sec ->
  formatDurationSec sec = hms (sec / 3600) (Z.rem (sec / 60) 60) (Z.rem sec 60).
Proof.
  intros Hsec. unfold formatDurationSec.
  destruct (Z.eqb_spec sec 0); [lia|]. destruct (Z.ltb_spec sec 0); [lia|]. done.
Qed.

Lemma hms_length (h m s : Z) :
  0 <= m < 60 -> 0 <= s < 60 ->
  String.length (hms h m s)
  = (String.length (padStart 2 "0" (pretty h)) + 6)%nat.
Proof.
  intros Hm Hs. unfold hms. rewrite !string_length_app.
  rewrite (pad2_small m), (pad2_small s) by lia. simpl. lia.
Qed.

Lemma hms_inj (h m s h' m' s' : Z) :
  0 <= h -> 0 <= m < 60 -> 0 <= s < 60 ->
  0 <= h' -> 0 <= m' < 60 -> 0 <= s' < 60 ->
  hms h m s = hms h' m' s' -> h = h' /\ m = m' /\ s = s'.
Proof.
  intros Hh Hm Hs Hh' Hm' Hs'. unfold hms. intros Heq.
  apply string_app_inj_2 in Heq as [Hhh Heq].
  2: { rewrite !string_length_app, !pad2_small by lia. done. }
  apply (string_app_inj_2 ":" _ ":" _) in Heq as [_ Heq].
  2: { rewrite !string_length_app, !pad2_small by lia. done. }
  apply string_app_inj_2 in Heq as [Hmm Heq].
  2: { rewrite !string_length_app, !pad2_small by lia. done. }
  apply (string_app_inj_2 ":" _ ":" _) in Heq as [_ Hss].
  2: { rewrite !pad2_small by lia. done. }
  split; [|split]; apply pad2_inj; (done || lia).
Qed.

(** X12. [formatDurationSec] shows [00:00:00] for zero and for every
    negative number of seconds. For a positive number it lays out hours,
    minutes below sixty and seconds below sixty that add up to the number,
    each on two digits at least. The text has exactly eight characters
    below one hundred hours, and more from there on: the hours are never
    cut. *)
Theorem formatDurationSec_layout :
  (forall sec, sec <= 0 -> formatDurationSec sec = "00:00:00")
  /\ (forall sec, 0 < sec <= maxSafeInteger ->
        exists h m s,
          formatDurationSec sec = hms h m s
          /\ 0 <= h /\ 0 <= m < 60 /\ 0 <= s < 60
          /\ sec = 3600 * h + 60 * m + s)
  /\ (forall sec, sec < 360000 -> String.length (formatDurationSec sec) = 8%nat)
  /\ (forall sec, 360000 <= sec <= maxSafeInteger ->
        (9 <= String.length (formatDurationSec sec))%nat).
Proof.
  split; [|split; [|split]].
  - intros sec Hsec. unfold formatDurationSec.
    destruct (Z.eqb_spec sec 0); [done|]. by destruct (Z.ltb_spec sec 0); [|lia].
  - intros sec [Hsec _]. eexists _, _, _. split; [by apply formatDurationSec_pos|].
    by apply duration_fields.
  - intros sec Hsec. destruct (Z.le_gt_cases sec 0) as [Hle|Hpos].
    + unfold formatDurationSec.
      destruct (Z.eqb_spec sec 0); [done|]. by destruct (Z.ltb_spec sec 0); [|lia].
    + rewrite formatDurationSec_pos by done.
      destruct (duration_fields sec Hpos) as (Hh & Hm & Hs & _).
      rewrite hms_length, pad2_small; [done| |done|done].
      split; [done|]. apply Z.div_lt_upper_bound; lia.
  - intros sec [Hsec _]. rewrite formatDurationSec_pos by lia.
    destruct (duration_fields sec) as (Hh & Hm & Hs & _); [lia|].
    rewrite hms_length by done.
    destruct (pad2_large (sec / 3600)) as [-> Hl]; [|lia].
    apply Z.div_le_lower_bound; lia.
Qed.

(** X13. Two positive durations that differ are never shown alike: on
    positive whole numbers of seconds [formatDurationSec] is injective. *)
Theorem formatDurationSec_injective (a b : Z) :
  0 < a <= maxSafeInteger -> 0 < b <= maxSafeInteger ->
  formatDurationSec a = formatDurationSec b -> a = b.
Proof.
  intros [Ha _] [Hb _]. rewrite !formatDurationSec_pos by done. intros Heq.
  destruct (duration_fields a Ha) as (Hh & Hm & Hs & Hsum).
  destruct (duration_fields b Hb) as (Hh' & Hm' & Hs' & Hsum').
  apply hms_inj in Heq as (Eh & Em & Es); try done.
  rewrite Hsum, Hsum', Eh, Em, Es. done.
Qed.

Lemma formatDurationSec_injective_witness : 3725 = 3600 + 125.
Proof.
  apply (formatDurationSec_injective 3725 (3600 + 125));
    [unfold maxSafeInteger; lia|unfold maxSafeInteger; lia|reflexivity].
Defined.

Lemma formatDurationSec_layout_witness :
  String.length (formatDurationSec 3725) = 8%nat.
Proof.
  apply (proj1 (proj2 (proj2 formatDurationSec_layout)) 3725). lia.
Defined.

Lemma remove_held (a : positive) (L : gset positive) :
  a ∉ L -> ({[a]} ∪ L) ∖ {[a]} = L.
Proof.
  intros Ha. apply set_eq. intros x.
  rewrite elem_of_difference, elem_of_union, elem_of_singleton.
  split; [by intros [[->|?] ?]|]. intros Hx. split; [by right|]. by intros ->.
Qed.

Lemma remove_held_r (a : positive) (P : gset positive) :
  a ∉ P -> (P ∪ {[a]}) ∖ {[a]} = P.
Proof. intros Ha. rewrite (union_comm_L P {[a]}). by apply remove_held. Qed.

Lemma held_sets (p l : option positive) (X : gset positive) :
  timers_inv (mkTimers p l X) <->
  X = from_option singleton ∅ p ∪ from_option singleton ∅ l
  /\ (forall id, p = Some id -> id ∉ from_option singleton (∅ : gset positive) l).
Proof.
  unfold timers_inv, held; simpl. split; intros [HX Hne]; (split; [done|]).
  - intros id Hp. specialize (Hne id Hp). destruct l as [b|]; simpl.
    + rewrite elem_of_singleton. congruence.
    + apply not_elem_of_empty.
  - intros id Hp. specialize (Hne id Hp). destruct l as [b|]; simpl in *; [|done].
    rewrite elem_of_singleton in Hne. congruence.
Qed.


Section TimersInvariant.
Variable nextHandle : gset positive -> positive.
Hypothesis nextHandle_fresh : forall X, nextHandle X ∉ X.

Lemma stopPolling_inv (t : Timers) :
  timers_inv t ->
  timers_inv (stopPolling t) /\ pollingTimer (stopPolling t) = None
  /\ liveTimerHandle (stopPolling t) = liveTimerHandle t.
Proof.
  destruct t as [p l X]. intros [HX Hne]%held_sets.
  unfold stopPolling, clearInterval; simpl.
  destruct p as [a|]; simpl in *; (split; [|done]); apply held_sets; simpl.
  - split; [|done]. rewrite HX, union_empty_l_L. apply remove_held. by apply Hne.
  - by split.
Qed.

Lemma stopLiveSessionTimer_inv (t : Timers) :
  timers_inv t ->
  timers_inv (stopLiveSessionTimer t)
  /\ liveTimerHandle (stopLiveSessionTimer t) = None
  /\ pollingTimer (stopLiveSessionTimer t) = pollingTimer t.
Proof.
  destruct t as [p l X]. intros [HX Hne]%held_sets.
  unfold stopLiveSessionTimer, clearInterval; simpl.
  destruct l as [b|]; simpl in *; (split; [|done]); apply held_sets; simpl.
  - split; [|intros; apply not_elem_of_empty].
    rewrite HX, union_empty_r_L. apply remove_held_r.
    destruct p as [a|]; simpl; [|apply not_elem_of_empty].
    specialize (Hne a eq_refl). rewrite elem_of_singleton in *. congruence.
  - by split.
Qed.

Lemma startPolling_inv (t : Timers) :
  timers_inv t -> timers_inv (startPolling nextHandle t).
Proof.
  intros (Hinv & Hp & Hl)%stopPolling_inv. unfold startPolling, setInterval.
  destruct (stopPolling t) as [p l X]; simpl in *. subst p.
  apply held_sets in Hinv as [HX _]. simpl in HX. rewrite union_empty_l_L in HX.
  apply held_sets; simpl. split; [by rewrite HX at 2|].
  intros id [= <-]. rewrite <- HX. apply nextHandle_fresh.
Qed.

Lemma startLiveSessionTimer_inv (t : Timers) :
  timers_inv t -> timers_inv (startLiveSessionTimer nextHandle t).
Proof.
  intros (Hinv & Hl & Hp)%stopLiveSessionTimer_inv.
  unfold startLiveSessionTimer, setInterval.
  destruct (stopLiveSessionTimer t) as [p l X]; simpl in *. subst l.
  apply held_sets in Hinv as [HX _]. simpl in HX. rewrite union_empty_r_L in HX.
  apply held_sets; simpl. split; [rewrite HX at 2; apply union_comm_L|].
  intros id ->. rewrite elem_of_singleton. intros ->.
  apply (nextHandle_fresh X). rewrite HX at 2. simpl. by apply elem_of_singleton.
Qed.

Lemma timers_inv_step (e : timer_event) (t : Timers) :
  timers_inv t -> timers_inv (on_timer_event nextHandle e t).
Proof.
  intros Ht. destruct e as [| | |[]]; simpl.
  - by apply startPolling_inv.
  - by apply stopPolling_inv.
  - by apply startPolling_inv.
  - by apply startLiveSessionTimer_inv.
  - by apply stopLiveSessionTimer_inv.
Qed.

(** X14. Whatever the sequence of returns to the tab, of hidings, of
    [setUsername] calls and of live updates, and whatever handles the host
    gives to new timers, the interval timers that are active are exactly
    the ones whose handles the page holds: at most one polling timer and
    one live-session timer, none is leaked. *)
Theorem timers_never_leak (es : list timer_event) :
  let t := run_timers nextHandle es no_timers in
  intervals t = held t /\ (size (intervals t) <= 2)%nat.
Proof.
  assert (Hrun : forall t, timers_inv t -> timers_inv (run_timers nextHandle es t)).
  { induction es as [|e es IH]; intros t Ht; [done|].
    simpl. apply IH. by apply timers_inv_step. }
  destruct (Hrun no_timers) as [Heq _]; [by split|].
  simpl. split; [done|]. rewrite Heq. unfold held.
  rewrite size_union_alt.
  assert (Hone : forall o : option positive,
            (size (from_option singleton (∅ : gset positive) o) <= 1)%nat).
  { intros [a|]; cbn [from_option]; [by rewrite size_singleton|].
    rewrite size_empty. lia. }
  etrans; [apply Nat.add_le_mono; [apply Hone|]|].
  - etrans; [apply subseteq_size, subseteq_difference_l; reflexivity|apply Hone].
  - done.
Qed.
End TimersInvariant.

Lemma timers_never_leak_witness :
  let t := run_timers base.fresh
             [UsernameSet; LiveUpdate true; TabHidden; TabVisible;
              LiveUpdate true; UsernameSet] no_timers in
  intervals t = held t /\ (size (intervals t) <= 2)%nat.
Proof.
  exact (timers_never_leak base.fresh is_fresh
           [UsernameSet; LiveUpdate true; TabHidden; TabVisible;
            LiveUpdate true; UsernameSet]).
Defined.

Lemma ceil_div_spec (n : Z) :
  0 <= n -> pageSize * (ceil_div n pageSize - 1) < n <= pageSize * ceil_div n pageSize.
Proof.
  intros Hn. unfold ceil_div, pageSize.
  pose proof (Z.div_mod (- n) 12 ltac:(lia)).
  pose proof (Z.mod_pos_bound (- n) 12 ltac:(lia)). lia.
Qed.

Lemma totalPages_spec {A} (rows : list A) :
  1 <= totalPages rows
  /\ Z.of_nat (length rows) <= pageSize * totalPages rows
  /\ (rows <> [] -> pageSize * (totalPages rows - 1) < Z.of_nat (length rows)).
Proof.
  unfold totalPages.
  pose proof (ceil_div_spec (Z.of_nat (length rows)) ltac:(lia)) as [Hlo Hhi].
  unfold pageSize in *. split; [lia|]. split; [lia|].
  intros Hne. destruct rows; [done|]. simpl length in *. lia.
Qed.

(** From the first page on, a page is a run of at most twelve rows. *)
Lemma pageRows_chunk {A} (p : Z) (rows : list A) :
  1 <= p ->
  pageRows p rows
  = take 12 (drop (Z.to_nat ((p - 1) * 12)) rows).
Proof.
  intros Hp. unfold pageRows, slice, pageSize.
  destruct (Z.ltb_spec ((p - 1) * 12) 0); [lia|].
  destruct (Z.ltb_spec ((p - 1) * 12 + 12) 0); [lia|].
  set (s := (p - 1) * 12) in *. set (len := Z.of_nat (length rows)).
  destruct (Z.le_gt_cases len s) as [Hge|Hlt].
  - rewrite !Z.min_r by lia. rewrite !drop_ge by lia. by rewrite !take_nil.
  - rewrite (Z.min_l s) by lia.
    destruct (Z.le_gt_cases (s + 12) len) as [Hfull|Hpart].
    + rewrite Z.min_l by lia. by replace (Z.to_nat (s + 12 - s)) with 12%nat by lia.
    + rewrite Z.min_r by lia.
      rewrite !take_ge; [done| |]; rewrite length_drop; lia.
Qed.

(** The pages cut the rows into runs of twelve. *)
Lemma page_chunks {A} (rows : list A) :
  concat (map (fun p => pageRows p rows) (seqZ 1 (totalPages rows))) = rows
  /\ Forall (fun p => (length (pageRows p rows) <= 12)%nat) (seqZ 1 (totalPages rows))
  /\ (rows <> [] ->
      Forall (fun p => pageRows p rows <> []) (seqZ 1 (totalPages rows))).
Proof.
  destruct (totalPages_spec rows) as (H1 & Hhi & Hlo).
  split; [|split].
  - assert (Hk : forall k : nat,
              concat (map (fun p => pageRows p rows) (seqZ 1 (Z.of_nat k)))
              = take (k * 12) rows).
    { induction k as [|k IH]; [reflexivity|].
      rewrite seqZ_S, map_app, concat_app, IH. simpl.
      rewrite app_nil_r, pageRows_chunk by lia.
      replace (Z.to_nat ((1 + Z.of_nat k - 1) * 12)) with (k * 12)%nat by lia.
      rewrite take_take_drop. f_equal. lia. }
    rewrite <- (Z2Nat.id (totalPages rows)) by lia. rewrite Hk.
    apply take_ge. unfold pageSize in Hhi. lia.
  - apply Forall_forall. intros p [Hp _]%elem_of_seqZ.
    rewrite pageRows_chunk by lia. rewrite length_take. lia.
  - intros Hne. specialize (Hlo Hne). apply Forall_forall.
    intros p [Hp Hp']%elem_of_seqZ. rewrite pageRows_chunk by lia.
    intros Hnil. apply take_nil_inv in Hnil as [?|Hnil]; [done|].
    apply drop_nil_inv in Hnil. unfold pageSize in Hlo. lia.
Qed.

(** X15. The pages of the history table, from [1] to the number of pages
    the indicator shows, cut the rows into consecutive runs: put end to
    end they give back every row once, in order; no page has more than
    twelve rows, and none is empty unless there is no row at all. *)
Theorem pages_partition {A} (rows : list A) :
  concat (map (fun p => pageRows p rows) (seqZ 1 (totalPages rows))) = rows
  /\ Forall (fun p => (length (pageRows p rows) <= 12)%nat) (seqZ 1 (totalPages rows))
  /\ (rows <> [] ->
      Forall (fun p => pageRows p rows <> []) (seqZ 1 (totalPages rows))).
Proof. apply page_chunks. Qed.

Section TableTheorems.
Context `{Host}.

Lemma render_spec (username : string) (p : Z) (inp : Inputs)
    (all : list Stored.t) :
  1 <= p ->
  let t := render username p inp all in
  inputs t = inp
  /\ listed t = tableRows username inp all
  /\ page t = Z.min p (totalPages (listed t))
  /\ shown t = pageRows (page t) (listed t).
Proof.
  intros Hp. unfold render, renderTable; simpl.
  by destruct (Z.eqb_spec p 0); [lia|].
Qed.

Lemma render_inv (username : string) (p : Z) (inp : Inputs)
    (all : list Stored.t) :
  1 <= p -> table_inv (render username p inp all).
Proof.
  intros Hp.
  destruct (render_spec username p inp all Hp) as (_ & _ & Hpg & Hsh).
  split; [|done]. rewrite Hpg.
  destruct (totalPages_spec (listed (render username p inp all))) as [? _]. lia.
Qed.

Lemma run_table_inv (username : string) (es : list table_event) : forall t,
  table_inv t -> table_inv (run_table username es t).
Proof.
  induction es as [|e es IH]; intros t Ht; [done|].
  simpl. apply IH. destruct Ht as [Hp _].
  destruct e as [inp all|all|all|all]; simpl; apply render_inv; lia.
Qed.

(** X16. Whatever the user does to the table (changes of the filters or of
    the sort key, previous and next page, as many times as one likes) and
    whatever the sessions store holds at each rendering, once a rendering
    is over (each one ending before the next event) [state.page] lies
    between [1] and the number of pages, the rows on display are the rows
    of that page, at most twelve, and the table is never left empty while
    rows pass the filters. *)
Theorem table_page_in_range (username : string) (es : list table_event) :
  let t := run_table username es first_table in
  1 <= page t <= totalPages (listed t)
  /\ shown t = pageRows (page t) (listed t)
  /\ (length (shown t) <= 12)%nat
  /\ (listed t <> [] -> shown t <> []).
Proof.
  intros t.
  destruct (run_table_inv username es first_table) as [Hpage Hshown];
    [by split|].
  fold t in Hpage, Hshown. split; [done|]. split; [done|].
  destruct (page_chunks (listed t)) as (_ & Hlen & Hne).
  rewrite Forall_forall in Hlen. rewrite Hshown. split.
  - apply Hlen. apply elem_of_seqZ. lia.
  - intros Hl. specialize (Hne Hl). rewrite Forall_forall in Hne.
    apply Hne. apply elem_of_seqZ. lia.
Qed.
End TableTheorems.

Section SortWith.
Context {A : Type} (compare : A -> A -> Z).

Lemma insert_sorted_perm (x : A) (l : list A) :
  insert_sorted compare x l ≡ₚ x :: l.
Proof.
  induction l as [|y l IH]; simpl; [done|].
  destruct (compare x y <=? 0); [done|]. by rewrite IH, Permutation_swap.
Qed.

Lemma sort_with_perm (l : list A) : sort_with compare l ≡ₚ l.
Proof.
  induction l as [|x l IH]; simpl; [done|].
  by rewrite insert_sorted_perm, IH.
Qed.

Hypothesis compare_key : by_key compare.

Lemma in_order_total (a b : A) :
  in_order compare a b \/ in_order compare b a.
Proof.
  destruct compare_key as [key [Hk|Hk]]; unfold in_order; rewrite !Hk; lia.
Qed.

Lemma in_order_trans (a b c : A) :
  in_order compare a b -> in_order compare b c -> in_order compare a c.
Proof.
  destruct compare_key as [key [Hk|Hk]]; unfold in_order; rewrite !Hk; lia.
Qed.

Lemma insert_sorted_sorted (x : A) (l : list A) :
  StronglySorted (in_order compare) l ->
  StronglySorted (in_order compare) (insert_sorted compare x l).
Proof.
  induction l as [|y l IH]; simpl; intros Hl.
  - repeat constructor.
  - apply StronglySorted_cons in Hl as [Hy Hl].
    destruct (Z.leb_spec (compare x y) 0) as [Hxy|Hxy].
    + apply StronglySorted_cons. split; [|by apply StronglySorted_cons].
      apply Forall_cons. split; [done|].
      eapply Forall_impl; [exact Hy|]. intros z Hz. by eapply in_order_trans.
    + apply StronglySorted_cons. split; [|by apply IH].
      rewrite insert_sorted_perm. apply Forall_cons. split; [|done].
      destruct (in_order_total x y) as [Hle|Hle]; [|done].
      unfold in_order in Hle. lia.
Qed.

Lemma sort_with_sorted (l : list A) :
  StronglySorted (in_order compare) (sort_with compare l).
Proof.
  induction l as [|x l IH]; simpl; [constructor|].
  by apply insert_sorted_sorted.
Qed.

(** The sort is stable: it keeps an array that is already in order. *)
Lemma sort_with_id (l : list A) :
  StronglySorted (in_order compare) l -> sort_with compare l = l.
Proof.
  induction l as [|x l IH]; simpl; [done|].
  intros [Hx Hl]%StronglySorted_cons. rewrite (IH Hl).
  destruct l as [|y l]; simpl; [done|].
  apply Forall_cons in Hx as [Hxy _]. unfold in_order in Hxy.
  by destruct (Z.leb_spec (compare x y) 0); [|lia].
Qed.
End SortWith.

Lemma compareRows_key (key : string) : by_key (compareRows key).
Proof.
  unfold compareRows.
  destruct (String.eqb key "timestamp_asc");
    [|destruct (String.eqb key "duration_desc");
      [|destruct (String.eqb key "duration_asc")]].
  - exists (fun r => Session.startTs (Stored.session r)). by left.
  - exists (fun r => Session.durationSec (Stored.session r)). by right.
  - exists (fun r => Session.durationSec (Stored.session r)). by left.
  - exists (fun r => Session.startTs (Stored.session r)). by right.
Qed.

Section TableRows.
Context `{Host}.

(** X17. The rows of the history table are in the order of the sort key
    (by start or by duration, ascending or descending; by start, latest
    first, for an unknown key); each of them is a stored session of the
    monitored user and, when a date filter is set, of that date; and with
    no filter set they are the sessions of the user, each exactly once. *)
Theorem tableRows_sorted (username : string) (inp : Inputs)
    (allSessions : list Stored.t) :
  let rows := tableRows username inp allSessions in
  let key := if String.eqb (sortBy inp) "" then "timestamp_desc" else sortBy inp in
  StronglySorted (in_order (compareRows key)) rows
  /\ (forall r, r ∈ rows ->
        r ∈ allSessions
        /\ Session.username (Stored.session r) = username
        /\ (filterDate inp <> "" -> Stored.date r = filterDate inp))
  /\ (filterDate inp = "" ->
      toLowerCase (trim (filterGame inp)) = "" ->
      toLowerCase (trim (searchText inp)) = "" ->
      rows ≡ₚ filter (fun s => Session.username (Stored.session s) = username)
                allSessions).
Proof.
  simpl. split; [|split].
  - apply sort_with_sorted, compareRows_key.
  - intros r. unfold tableRows. rewrite sort_with_perm.
    destruct (String.eqb_spec (filterDate inp) "") as [Hd|Hd];
      destruct (String.eqb (toLowerCase (trim (filterGame inp))) "");
      destruct (String.eqb (toLowerCase (trim (searchText inp))) "");
      rewrite ?list_elem_of_filter; intuition congruence.
  - intros Hd Hg Hs. unfold tableRows. rewrite sort_with_perm, Hd, Hg, Hs. done.
Qed.
End TableRows.

Section DatesTheorems.
Context `{Host}.

(** X18. [toISODate] gives the same text for two instants exactly when
    they fall on the same local day: same year, same month, same day of
    the month. *)
Theorem toISODate_same_day (ts1 ts2 : Z) :
  toISODate ts1 = toISODate ts2
  <-> getFullYear ts1 = getFullYear ts2
      /\ getMonth ts1 = getMonth ts2
      /\ getDate ts1 = getDate ts2.
Proof.
  unfold toISODate. split; [|by intros (-> & -> & ->)].
  pose proof (getMonth_range ts1). pose proof (getMonth_range ts2).
  pose proof (getDate_range ts1). pose proof (getDate_range ts2).
  intros Heq.
  apply string_app_inj_2 in Heq as [Hy Heq].
  2: { rewrite !string_length_app, !pad2_small by lia. done. }
  apply (string_app_inj_2 "-" _ "-" _) in Heq as [_ Heq].
  2: { rewrite !string_length_app, !pad2_small by lia. done. }
  apply string_app_inj_2 in Heq as [Hm Heq].
  2: { rewrite !string_length_app, !pad2_small by lia. done. }
  apply (string_app_inj_2 "-" _ "-" _) in Heq as [_ Hd].
  2: { rewrite !pad2_small by lia. done. }
  apply (inj pretty) in Hy. apply pad2_inj in Hm, Hd; lia.
Qed.

Lemma foldl_total (l : list Stored.t) (acc : Z) :
  foldl (fun acc s => acc + Session.durationSec (Stored.session s)) acc l
  = acc + foldl (fun acc s => acc + Session.durationSec (Stored.session s)) 0 l.
Proof.
  revert acc. induction l as [|x l IH]; intros acc; simpl; [lia|].
  rewrite IH, (IH (0 + _)). lia.
Qed.

(** X19. Closing the open session does not change the total shown for any
    day: at the instant [now] of the closing, not earlier than the start,
    the total computed with the session stored (and no session open) is
    the total computed just before with the session running. *)
Theorem total_kept_by_close (st st' : State) (now start : Z)
    (all : list Stored.t) (game : option string) (dateStr : string) :
  truthy_num (currentSessionStart st) = Some start ->
  start <= now ->
  username st' = username st ->
  currentSessionStart st' = None ->
  let closed :=
    stored (Session.mk (username st) start now (duration_of start now) game) in
  calcTotalOnlineForDate st' now (all ++ [closed]) dateStr
  = calcTotalOnlineForDate st now all dateStr.
Proof.
  intros Hstart Hle Hu Hcss. simpl. unfold calcTotalOnlineForDate.
  rewrite Hstart, Hcss, Hu, truthy_num_null, filter_app, foldl_app.
  rewrite floor_duration by done. unfold stored; simpl.
  destruct (String.eqb_spec (toISODate start) dateStr) as [Hd|Hd].
  - rewrite filter_cons_True, filter_nil by done. done.
  - rewrite filter_cons_False, filter_nil by (simpl; intuition congruence). done.
Qed.
End DatesTheorems.

Lemma total_kept_by_close_witness :
  let st := mkState "bob" false (Some (Status.mk true (Some "Jogo A") 1000))
              (Some 1000) in
  let st' := mkState "bob" false (Some (Status.mk false None 601000)) None in
  let closed :=
    @stored plainHost (Session.mk "bob" 1000 601000 (duration_of 1000 601000)
                         (Some "Jogo A")) in
  @calcTotalOnlineForDate plainHost st' 601000 [closed] "1970-01-01"
  = @calcTotalOnlineForDate plainHost st 601000 [] "1970-01-01".
Proof.
  intros st st' closed.
  refine (@total_kept_by_close plainHost st st' 601000 1000 [] (Some "Jogo A")
            "1970-01-01" eq_refl _ eq_refl eq_refl).
  lia.
Defined.

Lemma unescape_escape (s : string) : unescapeQuotes (escapeQuotes s) = s.
Proof.
  induction s as [|c s IH]; simpl; [done|].
  destruct (Ascii.eqb_spec c dquote) as [->|Hc]; simpl.
  - by rewrite IH.
  - destruct (Ascii.eqb_spec c dquote); [done|]. by rewrite IH.
Qed.

Lemma escape_paired (s : string) : quotes_paired (escapeQuotes s) = true.
Proof.
  induction s as [|c s IH]; simpl; [done|].
  destruct (Ascii.eqb_spec c dquote) as [->|Hc]; simpl; [done|].
  by destruct (Ascii.eqb_spec c dquote).
Qed.

Lemma StronglySorted_weaken {A} (R1 R2 : A -> A -> Prop) (l : list A) :
  (forall a b, R1 a b -> R2 a b) -> StronglySorted R1 l -> StronglySorted R2 l.
Proof.
  intros HR. induction 1 as [|x l Hl IH Hx]; constructor; [done|].
  eapply Forall_impl; [exact Hx|]. apply HR.
Qed.

Section ExportTheorems.
Context `{Host}.

(** X20. The CSV export lists the sessions of the monitored user, each
    exactly once, by start, earliest first, after one header line. In a
    game name every double quote is doubled: the escaped text has no
    double quote standing alone, reading it back gives the name, and two
    names that differ are escaped differently. *)
Theorem export_rows_and_quotes :
  (forall username sessions,
     exportRows username sessions
       ≡ₚ filter (fun s => Session.username (Stored.session s) = username) sessions
     /\ StronglySorted
          (fun a b => Session.startTs (Stored.session a)
                      <= Session.startTs (Stored.session b))
          (exportRows username sessions)
     /\ length (csvLines username sessions)
        = S (length (filter (fun s => Session.username (Stored.session s) = username)
                       sessions)))
  /\ (forall s, unescapeQuotes (escapeQuotes s) = s
                /\ quotes_paired (escapeQuotes s) = true)
  /\ (forall a b, escapeQuotes a = escapeQuotes b -> a = b).
Proof.
  split; [|split].
  - intros username sessions. split; [apply sort_with_perm|]. split.
    + eapply StronglySorted_weaken; [|apply sort_with_sorted].
      * unfold in_order. intros a b. lia.
      * eexists (fun r => Session.startTs (Stored.session r)). by left.
    + unfold csvLines. simpl. rewrite length_map. f_equal.
      apply Permutation_length, sort_with_perm.
  - intros s. split; [apply unescape_escape|apply escape_paired].
  - intros a b Hab. rewrite <- (unescape_escape a), <- (unescape_escape b).
    by rewrite Hab.
Qed.
End ExportTheorems.

Section Chain.
Variables (who : string) (t0 : Z).

Lemma chain_event css evs ss e :
  chain who t0 css evs ss -> t0 <= Event.timestamp e ->
  chain who t0 css (evs ++ [e]) ss.
Proof.
  intros (Hs & Hq & He & Hc) Ht. repeat split; try done.
  apply Forall_app. split; [done|]. by apply Forall_singleton.
Qed.

Lemma chain_marker css css' evs ss :
  chain who t0 css evs ss ->
  (forall c, truthy_num css' = Some c -> t0 <= c) ->
  chain who t0 css' evs ss.
Proof. intros (Hs & Hq & He & Hc) Hc'. by repeat split. Qed.

Lemma chain_session css evs ss s :
  chain who t0 css evs ss ->
  Session.username s = who -> t0 <= Session.startTs s ->
  (forall a, a ∈ ss -> Session.endTs a <= Session.startTs s) ->
  chain who t0 css evs (ss ++ [s]).
Proof.
  intros (Hs & Hq & He & Hc) Hu Ht Hends. repeat split; try done.
  - apply Forall_app. split; [done|]. by apply Forall_singleton.
  - apply StronglySorted_app. split; [|split; [done|repeat constructor]].
    intros a b Ha ->%list_elem_of_singleton. by apply Hends.
Qed.

(** What the open session, or the last event, tells about the sessions
    already stored. *)
Lemma chain_start t css evs ss c :
  good who t css evs ss -> chain who t0 css evs ss ->
  truthy_num css = Some c ->
  t0 <= c /\ (forall a, a ∈ ss -> Session.endTs a <= c).
Proof.
  intros (_ & _ & _ & Hm & _) (Hs & _ & _ & Hc) Hcss. split; [by apply Hc|].
  intros a Ha. apply (Hm c Hcss a Ha). rewrite Forall_forall in Hs.
  by destruct (Hs a Ha).
Qed.

Lemma chain_last t css evs ss e :
  good who t css evs ss -> chain who t0 css evs ss ->
  lastEvent who evs = Some e ->
  t0 <= Event.timestamp e
  /\ (forall a, a ∈ ss -> Session.endTs a <= Event.timestamp e).
Proof.
  intros (_ & _ & _ & _ & Hl & _) (Hs & _ & He & _) Hlast. split.
  - destruct (lastEvent_elem _ _ _ Hlast) as [Hin _].
    rewrite Forall_forall in He. by apply He.
  - intros a Ha. apply (Hl e Hlast a Ha). rewrite Forall_forall in Hs.
    by destruct (Hs a Ha).
Qed.

Ltac chain_tac Hgood Hchain :=
  repeat match goal with
  | |- chain _ _ _ (_ ++ [_]) _ => apply chain_event; [|simpl; lia]
  | E : truthy_num _ = Some ?z
    |- chain _ _ _ _ (_ ++ [Session.mk _ ?z _ _ _]) =>
      let H1 := fresh in let H2 := fresh in
      destruct (chain_start _ _ _ _ _ Hgood Hchain E) as [H1 H2];
      apply chain_session; [|done|done|exact H2]
  | |- chain _ _ ?css _ _ =>
      first
        [ exact Hchain
        | apply (chain_marker _ _ _ _ Hchain);
          first [ by (intros ? [[= <-] _]%truthy_num_Some; lia)
                | by intros ? [=]
                | intros ? ?; congruence ] ]
  end.

Lemma chain_ingest t w res ts :
  chain_inv who t0 t w -> t <= ts -> t0 <= ts ->
  chain_inv who t0 ts (exec (onStatusResult res ts) w).
Proof.
  intros [Hinv Hchain] Ht Ht0. split; [by apply (ingest_inv who t)|].
  destruct Hinv as (Hok & Hu & Hgood). crush_world w.
  unfold store_ok in *; simpl in Hok; subst fs. subst u.
  destruct res as [o g].
  destruct lk as [[lo lg lts]|]; run_async.
  - destruct lo, o; decide_tests; simpl; chain_tac Hgood Hchain.
  - destruct o; decide_tests; simpl; chain_tac Hgood Hchain.
Qed.

Lemma chain_repair t w res ts :
  chain_inv who t0 t w -> t <= ts -> t0 <= ts ->
  chain_inv who t0 ts (exec (onReopenFillGap res ts) w).
Proof.
  intros [Hinv Hchain] Ht Ht0. split; [by apply (repair_inv who t)|].
  destruct Hinv as (Hok & Hu & Hgood).
  destruct (lastEvent (username (state w)) (events w)) as [lastEv|] eqn:Hlast.
  - rewrite Hu in Hlast.
    destruct (chain_last _ _ _ _ _ Hgood Hchain Hlast) as [Hle0 Hends].
    assert (Hle : Event.timestamp lastEv <= ts).
    { destruct (lastEvent_elem _ _ _ Hlast) as [Hin Hwho].
      destruct Hgood as (_ & _ & He & _). specialize (He lastEv Hin Hwho). lia. }
    rewrite <- Hu in Hlast.
    destruct (onReopenFillGap_run w res ts lastEv Hok Hlast Hle)
      as (_ & _ & Hev & _ & Hss & _ & Hcss).
    rewrite Hev, Hss, Hcss, Hu.
    apply (chain_marker (currentSessionStart (state w))).
    + apply chain_event; [|simpl; lia].
      destruct (Event.online lastEv && negb (Sample.online res)); [|done].
      by apply chain_session.
    + destruct (Sample.online res); [|by intros ? [=]].
      intros c [[= <-] _]%truthy_num_Some. done.
  - crush_world w. unfold store_ok in *; simpl in Hok; subst fs. subst u.
    destruct res as [o g]. run_repair. rewrite Hlast. simpl.
    destruct o; decide_tests; simpl; chain_tac Hgood Hchain.
Qed.

Lemma chain_reload t w :
  chain_inv who t0 t w -> chain_inv who t0 t (exec (step_run Reload) w).
Proof.
  intros [Hinv Hchain]. split; [by apply reload_inv|].
  destruct Hinv as (Hok & Hu & Hgood). crush_world w.
  unfold store_ok in *; simpl in Hok; subst fs. subst u.
  run_repair.
  destruct (lastEvent who evs) as [e|] eqn:Hlast; simpl;
    [destruct (Event.online e) eqn:Hon; simpl|];
    apply (chain_marker css); try done; try (by intros ? [=]).
  intros c [[= <-] _]%truthy_num_Some.
  by destruct (chain_last _ _ _ _ _ Hgood Hchain Hlast).
Qed.

Lemma chain_run steps : forall t w,
  chain_inv who t0 t w ->
  Forall on_page steps ->
  Forall (fun ts => t <= ts /\ t0 <= ts) (times steps) ->
  StronglySorted Z.le (times steps) ->
  exists t', chain_inv who t0 t' (run_steps steps w)
             /\ (t' = t \/ t' ∈ times steps).
Proof.
  induction steps as [|s steps IH]; intros t w Hinv Hpage Hfrom Hsorted.
  - exists t. split; [done|by left].
  - apply Forall_cons in Hpage as [Hs Hpage]. unfold run_steps; simpl.
    fold (run_steps steps (exec (step_run s) w)).
    destruct s as [res ts|res ts| |res ts]; unfold times in *; simpl in *;
      try done.
    + apply Forall_cons in Hfrom as [[Hts Hts0] Hfrom].
      apply StronglySorted_cons in Hsorted as [Hsorted Hrest].
      destruct (IH ts (exec (onStatusResult res ts) w)) as (t' & Hinv' & Ht');
        try done.
      * by apply (chain_ingest t).
      * rewrite Forall_forall in *. intros x Hx. split; [by apply Hsorted|].
        by apply Hfrom.
      * exists t'. split; [done|]. right. rewrite elem_of_cons. tauto.
    + apply Forall_cons in Hfrom as [[Hts Hts0] Hfrom].
      apply StronglySorted_cons in Hsorted as [Hsorted Hrest].
      destruct (IH ts (exec (onReopenFillGap res ts) w)) as (t' & Hinv' & Ht');
        try done.
      * by apply (chain_repair t).
      * rewrite Forall_forall in *. intros x Hx. split; [by apply Hsorted|].
        by apply Hfrom.
      * exists t'. split; [done|]. right. rewrite elem_of_cons. tauto.
    + destruct (IH t (exec (step_run Reload) w)) as (t' & Hinv' & Ht');
        try done.
      * by apply chain_reload.
      * by exists t'.
Qed.
End Chain.

(** Sessions in sequence between [t0] and [t1] cannot last longer, taken
    together, than the time from [t0] to [t1]. *)
Lemma total_duration_bound (ss : list Session.t) : forall t0 t1,
  t0 <= t1 ->
  in_sequence ss ->
  Forall (fun s => t0 <= Session.startTs s /\ Session.endTs s <= t1
                   /\ session_ordered s) ss ->
  0 <= total_duration ss /\ 1000 * total_duration ss <= t1 - t0.
Proof.
  induction ss as [|x ss IH]; intros t0 t1 Ht Hseq Hall; simpl; [lia|].
  apply StronglySorted_cons in Hseq as [Hx Hseq].
  apply Forall_cons in Hall as [(Hx0 & Hx1 & Hle & Hdur) Hall].
  destruct (IH (Session.endTs x) t1) as [Hpos Hsum]; try done.
  - rewrite Forall_forall in *. intros s Hs.
    destruct (Hall s Hs) as (_ & ? & ?). split; [by apply Hx|done].
  - rewrite Hdur.
    pose proof (Z.div_mod (Session.endTs x - Session.startTs x) 1000 ltac:(lia)).
    pose proof (Z.mod_pos_bound (Session.endTs x - Session.startTs x) 1000 ltac:(lia)).
    assert (0 <= (Session.endTs x - Session.startTs x) / 1000)
      by (apply Z.div_pos; lia).
    lia.
Qed.

(** X21. In every run of the page whose timestamps never decrease and lie
    between [t0] and [t1], on a store that accepts the requests, the
    sessions are stored in sequence (each starts when every earlier one
    has ended, or later), all are sessions of the monitored user within
    [t0] and [t1], and the sum of their durations is at most the time
    elapsed from [t0] to [t1]. *)
Theorem recorded_time_bounded (u : string) (steps : list step) (t0 t1 : Z) :
  Forall on_page steps ->
  Sorted Z.le (times steps) ->
  Forall (fun ts => t0 <= ts <= t1) (times steps) ->
  t0 <= t1 ->
  let w := run_steps steps (fresh u) in
  in_sequence (sessions w)
  /\ Forall (fun s => Session.username s = u
                      /\ t0 <= Session.startTs s /\ Session.endTs s <= t1)
       (sessions w)
  /\ 0 <= total_duration (sessions w)
  /\ 1000 * total_duration (sessions w) <= t1 - t0.
Proof.
  intros Hpage Hsorted Hrange Ht w.
  apply Sorted_StronglySorted in Hsorted; [|intros x y z; lia].
  set (t := match times steps with [] => t0 | t :: _ => t end).
  destruct (chain_run u t0 steps t (fresh u)) as (t' & [Hinv Hchain] & Ht');
    try done.
  - split; [apply fresh_inv|]. repeat split; try done; try constructor.
  - subst t. destruct (times steps) as [|x l]; [done|].
    apply StronglySorted_cons in Hsorted as [Hl _].
    rewrite Forall_forall in *. intros y Hy. split.
    + apply elem_of_cons in Hy as [->|Hy]; [lia|by apply Hl].
    + by apply Hrange.
  - fold w in Hinv, Hchain.
    destruct Hinv as (_ & _ & _ & Hbefore & _ & _ & _ & _ & Hord).
    destruct Hchain as (Hs & Hseq & _).
    assert (Hle : t' <= t1).
    { rewrite Forall_forall in Hrange. destruct Ht' as [->|Hin].
      - subst t. destruct (times steps) as [|x l] eqn:E; [lia|].
        apply Hrange. by left.
      - by apply Hrange. }
    assert (Hall : Forall (fun s => Session.username s = u
                             /\ t0 <= Session.startTs s /\ Session.endTs s <= t1)
                     (sessions w)).
    { rewrite Forall_forall in *. intros s Hin. destruct (Hs s Hin) as [Hu H0].
      split; [done|]. split; [done|]. specialize (Hbefore s Hin Hu). lia. }
    split; [done|]. split; [done|].
    apply total_duration_bound; try done.
    rewrite Forall_forall in *. intros s Hin.
    destruct (Hall s Hin) as (_ & ? & ?). split; [done|]. split; [done|].
    by apply Hord.
Qed.

Lemma recorded_time_bounded_witness :
  let steps := [Ingest (Sample.mk true (Some "Jogo A")) 1000;
                Ingest (Sample.mk false None) 601000;
                Reload;
                Repair (Sample.mk true (Some "Jogo B")) 700000;
                Ingest (Sample.mk false None) 800000] in
  1000 * total_duration (sessions (run_steps steps (fresh "bob")))
  <= 800000 - 1000.
Proof.
  intros steps.
  refine (proj2 (proj2 (proj2
            (recorded_time_bounded "bob" steps 1000 800000 _ _ _ _)))).
  - repeat constructor.
  - repeat constructor; simpl; lia.
  - repeat constructor; simpl; lia.
  - lia.
Defined.

Lemma saved_frame {A} (m : Async A) :
  (forall w, username (state (exec m w)) = username (state w)
             /\ useSimulator (state (exec m w)) = useSimulator (state w)
             /\ localStorage (exec m w) = localStorage w) ->
  preserves settings_saved m.
Proof.
  intros Hm w [Hu Hs]. destruct (Hm w) as (H1 & H2 & H3).
  unfold settings_saved. by rewrite H1, H2, H3.
Qed.

Lemma saved_request {A} (run : World -> A * World) :
  (forall w, username (state (run w).2) = username (state w)
             /\ useSimulator (state (run w).2) = useSimulator (state w)
             /\ localStorage (run w).2 = localStorage w) ->
  preserves settings_saved (request run).
Proof.
  intros Hrun. apply saved_frame. intros w. unfold exec, request.
  destruct (faults w) as [|[|n] fs]; simpl; [|done|].
  - destruct (Hrun w) as (? & ? & ?). by destruct (run w).
  - destruct (Hrun (with_faults (n :: fs) w)) as (? & ? & ?). by destruct (run _).
Qed.

(** A setting is changed together with its copy in [localStorage]. *)
Lemma saved_useSimulator {B} (b : bool) (k : Async B) :
  preserves settings_saved k ->
  preserves settings_saved
    (bind (set_useSimulator b)
       (fun _ => bind (localStorage_setItem "rb_use_sim"
                         (if b then "true" else "false")) (fun _ => k))).
Proof.
  intros Hk w [Hu Hs]. apply (Hk _). split; simpl.
  - by rewrite lookup_insert_ne.
  - rewrite lookup_insert_eq. by destruct b.
Qed.

Lemma saved_username {B} (u : string) (k : Async B) :
  preserves settings_saved k ->
  preserves settings_saved
    (bind (set_username u)
       (fun _ => bind (localStorage_setItem "rb_username" u) (fun _ => k))).
Proof.
  intros Hk w [Hu Hs]. apply (Hk _). split; simpl.
  - by rewrite lookup_insert_eq.
  - by rewrite lookup_insert_ne.
Qed.

Ltac saved_step :=
  lazymatch goal with
  | |- preserves _ (try_catch _) => apply preserves_try_catch
  | |- preserves _ (bind (set_useSimulator true) _) =>
      apply (saved_useSimulator true)
  | |- preserves _ (bind (set_username _) _) => apply saved_username
  | |- preserves _ (bind _ _) => apply preserves_bind; [|intros ?]
  | |- preserves _ (request _) => by apply saved_request
  | |- preserves _ (if ?b then _ else _) => destruct b
  | |- preserves _ (match ?x with _ => _ end) => destruct x eqn:?
  | |- preserves _ _ => by apply saved_frame
  end.

Lemma saved_onStatusResult res ts : preserves settings_saved (onStatusResult res ts).
Proof.
  unfold onStatusResult, addStatusEvent, updateUILive, dbAdd_events,
    dbAdd_sessions. repeat saved_step.
Qed.

Lemma saved_repairStateFromDB : preserves settings_saved repairStateFromDB.
Proof. unfold repairStateFromDB, dbGetAll_events. repeat saved_step. Qed.

Lemma saved_onReopenFillGap res ts :
  preserves settings_saved (onReopenFillGap res ts).
Proof.
  unfold onReopenFillGap, repairStateFromDB, addStatusEvent, dbAdd_events,
    dbAdd_sessions, dbGetAll_events. repeat saved_step.
Qed.

Section Settings.
Context `{JSNumber}.

Lemma saved_real_lookup : preserves settings_saved real_lookup.
Proof.
  apply saved_frame. intros w. unfold exec, real_lookup. by destruct (network w).
Qed.

Lemma saved_fetchRobloxStatus u : preserves settings_saved (fetchRobloxStatus u).
Proof.
  unfold fetchRobloxStatus, simulateStatus, Date_now.
  repeat first [ apply saved_real_lookup | saved_step ].
Qed.

Lemma saved_pollOnce : preserves settings_saved pollOnce.
Proof.
  unfold pollOnce, checkAndRecord, simulateStatus, Date_now.
  repeat first [ apply saved_fetchRobloxStatus | apply saved_onStatusResult
               | saved_step ].
Qed.

Lemma saved_currentStatus u : preserves settings_saved (currentStatus u).
Proof.
  unfold currentStatus, simulateStatus, Date_now.
  repeat first [ apply saved_fetchRobloxStatus | saved_step ].
Qed.

Lemma saved_setUsername u : preserves settings_saved (setUsername u).
Proof.
  unfold setUsername, Date_now.
  repeat first [ apply saved_pollOnce | apply saved_currentStatus
               | apply saved_onReopenFillGap | apply saved_repairStateFromDB
               | saved_step ].
Qed.

(** A load of the page reads the settings back, whatever the state was. *)
Lemma saved_pageLoad (w : World) : settings_saved (exec (try_catch pageLoad) w).
Proof.
  assert (Hload : settings_saved (exec pageLoad w)).
  { unfold exec, pageLoad. destruct (String.eqb _ ""); simpl; [done|].
    apply (saved_setUsername _ (with_state _ w)). done. }
  unfold exec, try_catch in *. by destruct (pageLoad w) as [[a|r] w1].
Qed.

Lemma saved_handle h : preserves settings_saved (handle h).
Proof.
  destruct h as [now| | | |u| |checked]; simpl.
  - by apply saved_frame.
  - apply saved_pollOnce.
  - unfold onVisible, Date_now.
    repeat first [ apply saved_pollOnce | apply saved_currentStatus
                 | apply saved_onReopenFillGap | saved_step ].
  - intros w _. apply saved_pageLoad.
  - apply preserves_try_catch, saved_setUsername.
  - unfold resetHistory, dbClear_events, dbClear_sessions. repeat saved_step.
  - intros w [Hu Hs]. split; simpl.
    + by rewrite lookup_insert_ne.
    + rewrite lookup_insert_eq. by destruct checked.
Qed.

(** X22. From a load of the page on, whatever the page handles and
    whatever the store and the presence service do, the user name and the
    simulator flag of the runtime state are the ones [localStorage] holds:
    a reload would read the same settings back. *)
Theorem settings_mirror_localStorage (hs : list handler) (w : World) :
  let w' := dispatch (PageLoad :: hs) w in
  username (state w') = default "" (localStorage w' !! "rb_username")
  /\ useSimulator (state w')
     = bool_decide (localStorage w' !! "rb_use_sim" = Some "true").
Proof.
  assert (Hrun : forall hs w, settings_saved w -> settings_saved (dispatch hs w)).
  { clear hs w. induction hs as [|h hs IH]; intros w Hw; [done|].
    unfold dispatch in *; simpl. apply IH. by apply (saved_handle h). }
  apply (Hrun hs). apply saved_pageLoad.
Qed.
End Settings.

(** X23. A gap repair on a store that accepts the requests always records
    exactly one event for the fresh sample, also when the sample shows no
    change since the last event, and never rejects: unlike
    [onStatusResult], which writes nothing for an unchanged sample within
    the heartbeat interval, it adds to the event store every time. *)
Theorem onReopenFillGap_always_records (w : World) (res : Sample.t) (ts : Z) :
  store_ok w ->
  let w' := exec (onReopenFillGap res ts) w in
  events w' = events w ++ [event_of (username (state w)) res ts false]
  /\ ((onReopenFillGap res ts) w).1 = Resolved tt
  /\ store_ok w'.
Proof.
  intros Hok. crush_world w. unfold store_ok in *; simpl in Hok; subst fs.
  destruct res as [o g]. unfold event_of. run_repair.
  destruct (lastEvent u evs) as [e|] eqn:Hlast; simpl.
  - destruct (Event.online e), o; simpl;
      (destruct (lastEvent u (evs ++ _)) as [e'|]; simpl;
       [destruct (Event.online e')|]; simpl; by rewrite ?or_null_idem).
  - destruct o; decide_tests; simpl; by rewrite ?or_null_idem.
Qed.

Lemma onReopenFillGap_always_records_witness :
  let w := exec (onStatusResult (Sample.mk false None) 1000) (fresh "bob") in
  events (exec (onReopenFillGap (Sample.mk false None) 2000) w)
  = events w ++ [event_of "bob" (Sample.mk false None) 2000 false].
Proof.
  intros w.
  exact (proj1 (onReopenFillGap_always_records w (Sample.mk false None) 2000
                  eq_refl)).
Defined.
